(** * Agent orchestration core and content cache: model and verification

    A shallow embedding of the JavaScript/TypeScript sources

    - [server/contentCache.cjs]        (module [ContentCache])
    - [server/tools/toolParser.cjs]    (modules [Regex], [Json], [ToolParser])
    - [server/tools/toolDefinitions.cjs] (module [ToolDefinitions])
    - [server/tools/toolExecutor.cjs]  (module [ToolExecutor])
    - [server/routes/agent.cjs]        (module [AgentRoute])
    - [src/components/AgentChat.tsx]   (module [AgentChat])
    - [server/tools/toolParser.cjs], [hasToolCall] (module [ToolMarkers])
    - [src/components/ApiKeyModal.tsx] (modules [Base64], [ApiKeyStore],
      [ApiKeyModal], [AgentChatKeys])
    - [server/routes/contentRouter.cjs] (module [ContentRoute])
    - [server/tools/toolExecutor.cjs], the file tools (module [FileTools])
    - [server/tools/toolDefinitions.cjs], [extractArxivId] (module [ArxivId])
    - [src/services/agentService.ts]   (modules [AgentService], [StreamReader])
    - [server/aiApi.cjs], [callDeepSeekApiStream] (modules [Lines], [AiApi])

    JavaScript strings are modelled as [string]: one [ascii] per UTF-16 code
    unit, restricted to code units below 256.  Integers are [Z].  The wall
    clock ([Date.now()]), the random source ([Math.random()]), the MD5 digest
    and the remote collaborators (model back end, HTTP tool executor) are
    parameters of the sections that use them. *)

From Stdlib Require Import ZArith List String Ascii Bool Lia Arith DecimalString.
From Stdlib Require Import DecimalZ.
From Stdlib Require HexadecimalString.
Import ListNotations.
Open Scope string_scope.
Open Scope Z_scope.

(* ===================================================================== *)
(** ** JavaScript values and string primitives *)
(* ===================================================================== *)

Module JS.

(** A JSON-shaped JavaScript value.  A number [Num m e] denotes the exact
    decimal [m * 10^e]; object properties keep their insertion order. *)
#[warnings="-register-all"]
Inductive value : Type :=
| Undefined
| Null
| Bool (b : bool)
| Num (m e : Z)
| Str (s : string)
| Arr (elems : list value)
| Obj (props : list (string * value)).

(** [ToBoolean]. *)
Definition truthy (v : value) : bool :=
  match v with
  | Undefined | Null => false
  | Bool b => b
  | Num m _ => negb (m =? 0)
  | Str s => negb (s =? "")%string
  | Arr _ | Obj _ => true
  end.

(** The [typeof] operator. *)
Definition typeof (v : value) : string :=
  match v with
  | Undefined => "undefined"
  | Null => "object"
  | Bool _ => "boolean"
  | Num _ _ => "number"
  | Str _ => "string"
  | Arr _ | Obj _ => "object"
  end.

(** Own-property lookup [o.k] on the property list of an object literal;
    property names are unique ([set_prop] keeps them so). *)
Fixpoint lookup_prop (k : string) (props : list (string * value)) : option value :=
  match props with
  | [] => None
  | (k', v) :: rest => if (k' =? k)%string then Some v else lookup_prop k rest
  end.

(** [o[k] = v]: an existing property keeps its place, a new one goes last. *)
Fixpoint set_prop (k : string) (v : value) (props : list (string * value))
  : list (string * value) :=
  match props with
  | [] => [(k, v)]
  | (k', v') :: rest =>
      if (k' =? k)%string then (k', v) :: rest else (k', v') :: set_prop k v rest
  end.

Definition get (v : value) (k : string) : value :=
  match v with
  | Obj props => match lookup_prop k props with Some x => x | None => Undefined end
  | _ => Undefined
  end.

(** The double quote character, a string in double quotes, and a text
    written with apostrophes where it has double quotes. *)
Definition dquote : ascii := "034"%char.
Definition quoted (s : string) : string := String dquote (s ++ String dquote "").
Definition dq (s : string) : string :=
  string_of_list_ascii
    (map (fun c => if Ascii.eqb c "'"%char then dquote else c) (list_ascii_of_string s)).

(** Decimal rendering of an integer, as a template literal prints it. *)
Definition Z_to_string (z : Z) : string := NilZero.string_of_int (Z.to_int z).

(** White space and line terminators of the code units below 256: the class
    [\s] of regular expressions and the characters removed by [trim]. *)
Definition is_space (c : ascii) : bool :=
  let n := nat_of_ascii c in
  ((9 <=? n) && (n <=? 13) || (n =? 32) || (n =? 160))%nat.

Fixpoint trimStart (s : string) : string :=
  match s with
  | String c rest => if is_space c then trimStart rest else s
  | EmptyString => EmptyString
  end.

Fixpoint trimEnd (s : string) : string :=
  match s with
  | EmptyString => EmptyString
  | String c rest =>
      match trimEnd rest with
      | EmptyString => if is_space c then EmptyString else String c EmptyString
      | rest' => String c rest'
      end
  end.

(** [String.prototype.trim]. *)
Definition trim (s : string) : string := trimEnd (trimStart s).

(** [s.length] as an integer. *)
Definition strlen (s : string) : Z := Z.of_nat (String.length s).

End JS.

(* ===================================================================== *)
(** ** server/contentCache.cjs *)
(* ===================================================================== *)

Module ContentCache.

(** A cached value [{ content, hash, lastAccess, createTime }]. *)
Record CacheEntry : Type := mkEntry {
  content : string;
  hash : string;
  createTime : Z;
  lastAccess : Z
}.

(** [contentCache = new Map()]: the entries in insertion order, which is
    the order [entries()] iterates in. *)
Definition Cache : Type := list (string * CacheEntry).

Definition CACHE_MAX_SIZE : nat := 50.
Definition CACHE_TTL : Z := 2 * 60 * 60 * 1000.

(** *** The [Map] operations the module uses *)

Fixpoint map_get (id : string) (c : Cache) : option CacheEntry :=
  match c with
  | [] => None
  | (k, e) :: rest => if (k =? id)%string then Some e else map_get id rest
  end.

Fixpoint map_delete (id : string) (c : Cache) : Cache :=
  match c with
  | [] => []
  | (k, e) :: rest =>
      if (k =? id)%string then map_delete id rest else (k, e) :: map_delete id rest
  end.

(** [Map.prototype.set]: an existing key keeps its position, a new key goes
    last. *)
Fixpoint map_set (id : string) (e : CacheEntry) (c : Cache) : Cache :=
  match c with
  | [] => [(id, e)]
  | (k, e') :: rest =>
      if (k =? id)%string then (k, e) :: rest else (k, e') :: map_set id e rest
  end.

Definition map_size (c : Cache) : nat := List.length c.

Definition touch (now : Z) (e : CacheEntry) : CacheEntry :=
  {| content := content e; hash := hash e;
     createTime := createTime e; lastAccess := now |}.

(** *** Process state: the map and the number of clock and random draws *)

Record World : Type := mkWorld {
  contentCache : Cache;
  dateCalls : nat;
  randomCalls : nat
}.

Definition emptyWorld : World :=
  {| contentCache := []; dateCalls := 0; randomCalls := 0 |}.

Definition M (A : Type) : Type := World -> A * World.
Definition ret {A} (a : A) : M A := fun w => (a, w).
Definition bind {A B} (m : M A) (k : A -> M B) : M B :=
  fun w => let (a, w') := m w in k a w'.

Declare Scope cache_scope.
Delimit Scope cache_scope with cache.
Notation "x <- m ;; k" := (bind m (fun x => k))
  (at level 61, m at next level, right associativity) : cache_scope.
Notation "m ;;; k" := (bind m (fun _ => k))
  (at level 61, right associativity) : cache_scope.
Local Open Scope cache_scope.

Definition getCache : M Cache := fun w => (contentCache w, w).
Definition setCache (c : Cache) : M unit :=
  fun w => (tt, {| contentCache := c; dateCalls := dateCalls w;
                   randomCalls := randomCalls w |}).

(** The result [{ contentId, isNew, size }]; [contentId = None] is [null]. *)
Record StoreResult : Type := mkStoreResult {
  contentId : option string;
  isNew : bool;
  size : Z
}.

Section WithEnvironment.

(** [Date_now_at k] is what the [k]-th call of [Date.now()] returns. *)
Variable Date_now_at : nat -> Z.
(** [Math_random_at k] is [Math.random().toString(36).substr(2, 8)] at
    the [k]-th call of [Math.random()]. *)
Variable Math_random_at : nat -> string.
(** [crypto.createHash('md5').update(content).digest('hex').substring(0, 16)]. *)
Variable generateHash : string -> string.

Definition Date_now : M Z :=
  fun w => (Date_now_at (dateCalls w),
            {| contentCache := contentCache w; dateCalls := S (dateCalls w);
               randomCalls := randomCalls w |}).

Definition Math_random : M string :=
  fun w => (Math_random_at (randomCalls w),
            {| contentCache := contentCache w; dateCalls := dateCalls w;
               randomCalls := S (randomCalls w) |}).

(** [`content_${Date.now()}_${Math.random().toString(36).substr(2, 8)}`] *)
Definition content_id (t : Z) (r : string) : string :=
  "content_" ++ JS.Z_to_string t ++ "_" ++ r.

Definition generateContentId : M string :=
  t <- Date_now ;;
  r <- Math_random ;;
  ret (content_id t r).

Definition expired (now : Z) (e : CacheEntry) : bool :=
  now - lastAccess e >? CACHE_TTL.

(** [cleanExpiredCache]: every entry visited deletes only itself. *)
Definition cleanExpiredCache : M unit :=
  now <- Date_now ;;
  c <- getCache ;;
  setCache (filter (fun kv => negb (expired now (snd kv))) c).

(** The first entry, in iteration order, whose hash is [h]. *)
Fixpoint find_hash (h : string) (c : Cache) : option (string * CacheEntry) :=
  match c with
  | [] => None
  | (id, cached) :: rest =>
      if (hash cached =? h)%string then Some (id, cached) else find_hash h rest
  end.

(** The scan for the oldest entry: [oldestTime = None] is [Infinity]. *)
Definition scan_step (acc : option string * option Z) (kv : string * CacheEntry)
  : option string * option Z :=
  let older := match snd acc with
               | None => true
               | Some oldestTime => lastAccess (snd kv) <? oldestTime
               end in
  if older then (Some (fst kv), Some (lastAccess (snd kv))) else acc.

Definition find_oldest (c : Cache) : option string :=
  fst (fold_left scan_step c (None, None)).

(** [if (contentCache.size >= CACHE_MAX_SIZE) { ... }] *)
Definition evictIfFull : M unit :=
  c <- getCache ;;
  if (CACHE_MAX_SIZE <=? map_size c)%nat then
    match find_oldest c with
    | Some oldestId =>
        if JS.truthy (JS.Str oldestId) then setCache (map_delete oldestId c)
        else ret tt
    | None => ret tt
    end
  else ret tt.

Definition storeContent (arg : JS.value) : M StoreResult :=
  if negb (JS.truthy arg) || negb (JS.typeof arg =? "string")%string then
    ret {| contentId := None; isNew := false; size := 0 |}
  else
    match arg with
    | JS.Str content =>
        let hash := generateHash content in
        c <- getCache ;;
        match find_hash hash c with
        | Some (id, cached) =>
            now <- Date_now ;;
            setCache (map_set id (touch now cached) c) ;;;
            ret {| contentId := Some id; isNew := false;
                   size := JS.strlen (ContentCache.content cached) |}
        | None =>
            cleanExpiredCache ;;;
            evictIfFull ;;;
            contentId <- generateContentId ;;
            t_create <- Date_now ;;
            t_access <- Date_now ;;
            c' <- getCache ;;
            setCache (map_set contentId
                        {| content := content; hash := hash;
                           createTime := t_create; lastAccess := t_access |} c') ;;;
            ret {| contentId := Some contentId; isNew := true;
                   size := JS.strlen content |}
        end
    | _ => ret {| contentId := None; isNew := false; size := 0 |}
    end.

(** [getContent]; [None] is [null]. *)
Definition getContent (contentId : string) : M (option string) :=
  if negb (JS.truthy (JS.Str contentId)) then ret None
  else
    c <- getCache ;;
    match map_get contentId c with
    | None => ret None
    | Some cached =>
        now <- Date_now ;;
        if expired now cached then
          setCache (map_delete contentId c) ;;; ret None
        else
          now' <- Date_now ;;
          setCache (map_set contentId (touch now' cached) c) ;;;
          ret (Some (content cached))
    end.

Definition clearCache : M unit := setCache [].

(** One call of the module's interface. *)
Inductive op : Type :=
| OpStore (arg : JS.value)
| OpGet (contentId : string)
| OpClean
| OpClear.

Definition run_op (o : op) (w : World) : World :=
  match o with
  | OpStore arg => snd (storeContent arg w)
  | OpGet id => snd (getContent id w)
  | OpClean => snd (cleanExpiredCache w)
  | OpClear => snd (clearCache w)
  end.

Definition run_ops (os : list op) (w : World) : World := fold_left (fun w o => run_op o w) os w.

End WithEnvironment.

End ContentCache.

(* ===================================================================== *)
(** ** Regular expressions: the backtracking matcher of [RegExp.prototype.exec] *)
(* ===================================================================== *)

Module Regex.

(** The fragment of the pattern language the sources use. *)
Inductive re : Type :=
| Eps
| Chr (c : ascii)                (* a literal character *)
| Cls (p : ascii -> bool)        (* a character class *)
| Seq (a b : re)
| Alt (a b : re)                 (* a|b, left alternative first *)
| Star (a : re)                  (* a*, greedy *)
| Grp (i : nat) (a : re)         (* the i-th capturing group *)
| Eos.                           (* $ without the m flag *)

Definition Plus (a : re) : re := Seq a (Star a).

(** A literal run of characters. *)
Fixpoint Lit (s : string) : re :=
  match s with
  | EmptyString => Eps
  | String c rest => Seq (Chr c) (Lit rest)
  end.

Definition captures : Type := list (nat * string).

Fixpoint capture (i : nat) (caps : captures) : option string :=
  match caps with
  | [] => None
  | (j, s) :: rest => if (j =? i)%nat then Some s else capture i rest
  end.

(** What [a] consumed when it turned the input [s] into its suffix [s']. *)
Definition consumed (s s' : string) : string :=
  substring 0 (String.length s - String.length s') s.

(** [m r s caps k]: match [r] at the head of [s], then continue with [k] on
    the rest; [None] makes the matcher backtrack to the latest choice. *)
Fixpoint m {A : Type} (r : re) (s : string) (caps : captures)
         (k : string -> captures -> option A) {struct r} : option A :=
  match r with
  | Eps => k s caps
  | Chr c =>
      match s with
      | String c' rest => if Ascii.eqb c' c then k rest caps else None
      | EmptyString => None
      end
  | Cls p =>
      match s with
      | String c' rest => if p c' then k rest caps else None
      | EmptyString => None
      end
  | Seq a b => m a s caps (fun s' caps' => m b s' caps' k)
  | Alt a b =>
      match m a s caps k with
      | Some x => Some x
      | None => m b s caps k
      end
  | Star a =>
      (fix loop (fuel : nat) (s : string) (caps : captures) {struct fuel} : option A :=
         match fuel with
         | O => k s caps
         | S fuel' =>
             match m a s caps
                     (fun s' caps' =>
                        if (String.length s' <? String.length s)%nat
                        then loop fuel' s' caps' else None) with
             | Some x => Some x
             | None => k s caps
             end
         end) (String.length s) s caps
  | Grp i a => m a s caps (fun s' caps' => k s' ((i, consumed s s') :: caps'))
  | Eos =>
      match s with
      | EmptyString => k s caps
      | String _ _ => None
      end
  end.

(** The match object: [index], [match[0]] and the captured groups. *)
Record match_result : Type := mkMatch {
  index : nat;
  matched : string;
  groups : captures
}.

Definition group (i : nat) (mr : match_result) : string :=
  match capture i (groups mr) with Some s => s | None => "" end.

(** One attempt at the current position. *)
Definition match_here (r : re) (s : string) : option (string * captures) :=
  m r s [] (fun s' caps => Some (s', caps)).

(** [exec] without the g flag: the leftmost position where the pattern
    matches.  [idx] counts the characters already skipped. *)
Fixpoint exec_from (r : re) (s : string) (idx : nat) : option match_result :=
  match match_here r s with
  | Some (s', caps) =>
      Some {| index := idx; matched := consumed s s'; groups := caps |}
  | None =>
      match s with
      | EmptyString => None
      | String _ rest => exec_from r rest (S idx)
      end
  end.

Definition exec (r : re) (s : string) : option match_result := exec_from r s 0.

(** [s.replace(r, '')] for a pattern without the g flag. *)
Definition remove_first (r : re) (s : string) : string :=
  match exec r s with
  | None => s
  | Some mr =>
      substring 0 (index mr) s
      ++ substring (index mr + String.length (matched mr))
                   (String.length s - (index mr + String.length (matched mr))) s
  end.

(** The classes the patterns use. *)
Definition ws : re := Cls JS.is_space.                       (* \s *)
Definition not_of (cs : list ascii) : re :=                  (* [^...] *)
  Cls (fun c => negb (existsb (Ascii.eqb c) cs)).

End Regex.

(* ===================================================================== *)
(** ** [JSON.parse] *)
(* ===================================================================== *)

Module Json.

Import JS.
Local Open Scope char_scope.

(** JSON white space: space, tab, line feed, carriage return. *)
Definition is_json_ws (c : ascii) : bool :=
  Ascii.eqb c " " || Ascii.eqb c "009" || Ascii.eqb c "010" || Ascii.eqb c "013".

Fixpoint skip_ws (s : string) : string :=
  match s with
  | String c rest => if is_json_ws c then skip_ws rest else s
  | EmptyString => s
  end.

Definition is_digit (c : ascii) : bool :=
  ((48 <=? nat_of_ascii c) && (nat_of_ascii c <=? 57))%nat.

Definition digit_val (c : ascii) : Z := Z.of_nat (nat_of_ascii c - 48).

Definition hex_val (c : ascii) : option nat :=
  let n := nat_of_ascii c in
  if ((48 <=? n) && (n <=? 57))%nat then Some (n - 48)%nat
  else if ((65 <=? n) && (n <=? 70))%nat then Some (n - 55)%nat
  else if ((97 <=? n) && (n <=? 102))%nat then Some (n - 87)%nat
  else None.

(** A run of digits: the number read so far, how many digits, the rest. *)
Fixpoint digits (s : string) (acc : Z) (n : nat) : Z * nat * string :=
  match s with
  | String c rest =>
      if is_digit c then digits rest (acc * 10 + digit_val c) (S n) else (acc, n, s)
  | EmptyString => (acc, n, s)
  end.

(** The characters of a string literal after its opening quote, up to and
    including the closing quote.  An escape [\uXXXX] naming a code unit
    above 255 has no counterpart in [string] and is rejected. *)
Fixpoint str_body (s : string) : option (string * string) :=
  let cons c r := match r with
                  | Some (str, rest) => Some (String c str, rest)
                  | None => None
                  end in
  match s with
  | EmptyString => None
  | String c rest =>
      if Ascii.eqb c dquote then Some (EmptyString, rest)
      else if Ascii.eqb c "\" then
        match rest with
        | String e rest2 =>
            if Ascii.eqb e dquote then cons dquote (str_body rest2)
            else if Ascii.eqb e "\" then cons "\" (str_body rest2)
            else if Ascii.eqb e "/" then cons "/" (str_body rest2)
            else if Ascii.eqb e "b" then cons "008" (str_body rest2)
            else if Ascii.eqb e "f" then cons "012" (str_body rest2)
            else if Ascii.eqb e "n" then cons "010" (str_body rest2)
            else if Ascii.eqb e "r" then cons "013" (str_body rest2)
            else if Ascii.eqb e "t" then cons "009" (str_body rest2)
            else if Ascii.eqb e "u" then
              match rest2 with
              | String h1 (String h2 (String h3 (String h4 rest3))) =>
                  match hex_val h1, hex_val h2, hex_val h3, hex_val h4 with
                  | Some a, Some b, Some c', Some d =>
                      let code := (((a * 16 + b) * 16 + c') * 16 + d)%nat in
                      if (code <? 256)%nat
                      then cons (ascii_of_nat code) (str_body rest3)
                      else None
                  | _, _, _, _ => None
                  end
              | _ => None
              end
            else None
        | EmptyString => None
        end
      else if (nat_of_ascii c <? 32)%nat then None
      else cons c (str_body rest)
  end.

(** A number: an optional minus sign, an integer part without a leading
    zero, an optional fraction and an optional exponent. *)
Definition number (s : string) : option (value * string) :=
  let '(neg, s1) := match s with
                    | String c rest => if Ascii.eqb c "-" then (true, rest) else (false, s)
                    | EmptyString => (false, s)
                    end in
  let int_part :=
    match s1 with
    | String c rest =>
        if Ascii.eqb c "0" then Some (0%Z, rest)
        else if is_digit c then
          let '(v, _, r) := digits s1 0 0 in Some (v, r)
        else None
    | EmptyString => None
    end in
  match int_part with
  | None => None
  | Some (i, s2) =>
      let frac :=
        match s2 with
        | String c rest =>
            if Ascii.eqb c "." then
              let '(v, n, r) := digits rest i 0 in
              match n with O => None | _ => Some (v, Z.of_nat n, r) end
            else Some (i, 0%Z, s2)
        | EmptyString => Some (i, 0%Z, s2)
        end in
      match frac with
      | None => None
      | Some (mant, nfrac, s3) =>
          let signed := if neg then (- mant)%Z else mant in
          match s3 with
          | String c rest =>
              if Ascii.eqb c "e" || Ascii.eqb c "E" then
                let '(eneg, s4) :=
                  match rest with
                  | String g rest' =>
                      if Ascii.eqb g "-" then (true, rest')
                      else if Ascii.eqb g "+" then (false, rest')
                      else (false, rest)
                  | EmptyString => (false, rest)
                  end in
                let '(ev, en, s5) := digits s4 0 0 in
                match en with
                | O => None
                | _ => Some (Num signed ((if eneg then - ev else ev) - nfrac)%Z, s5)
                end
              else Some (Num signed (- nfrac)%Z, s3)
          | EmptyString => Some (Num signed (- nfrac)%Z, s3)
          end
      end
  end.

Definition literal (s : string) : option (value * string) :=
  if prefix "true" s then Some (Bool true, substring 4 (String.length s - 4) s)
  else if prefix "false" s then Some (Bool false, substring 5 (String.length s - 5) s)
  else if prefix "null" s then Some (Null, substring 4 (String.length s - 4) s)
  else None.

(** Recursive descent.  Every call consumes a character before it calls
    another one, so [fuel] above the length of the text is never used up. *)
Fixpoint element (fuel : nat) (s : string) {struct fuel} : option (value * string) :=
  match fuel with
  | O => None
  | S f =>
      match skip_ws s with
      | EmptyString => None
      | String c rest as s0 =>
          if Ascii.eqb c "{" then
            match skip_ws rest with
            | String c1 r1 as s1 =>
                if Ascii.eqb c1 "}" then Some (Obj [], r1) else members f s1 []
            | EmptyString => None
            end
          else if Ascii.eqb c "[" then
            match skip_ws rest with
            | String c1 r1 as s1 =>
                if Ascii.eqb c1 "]" then Some (Arr [], r1) else elements f s1 []
            | EmptyString => None
            end
          else if Ascii.eqb c dquote then
            match str_body rest with
            | Some (str, r) => Some (Str str, r)
            | None => None
            end
          else if Ascii.eqb c "-" || is_digit c then number s0
          else literal s0
      end
  end
with elements (fuel : nat) (s : string) (acc : list value) {struct fuel}
  : option (value * string) :=
  match fuel with
  | O => None
  | S f =>
      match element f s with
      | Some (v, r) =>
          match skip_ws r with
          | String c r' =>
              if Ascii.eqb c "," then elements f r' (acc ++ [v])
              else if Ascii.eqb c "]" then Some (Arr (acc ++ [v]), r')
              else None
          | EmptyString => None
          end
      | None => None
      end
  end
with members (fuel : nat) (s : string) (acc : list (string * value)) {struct fuel}
  : option (value * string) :=
  match fuel with
  | O => None
  | S f =>
      match skip_ws s with
      | String q r =>
          if Ascii.eqb q dquote then
            match str_body r with
            | Some (key, r1) =>
                match skip_ws r1 with
                | String colon r2 =>
                    if Ascii.eqb colon ":" then
                      match element f r2 with
                      | Some (v, r3) =>
                          match skip_ws r3 with
                          | String c r4 =>
                              if Ascii.eqb c "," then members f r4 (set_prop key v acc)
                              else if Ascii.eqb c "}"
                              then Some (Obj (set_prop key v acc), r4)
                              else None
                          | EmptyString => None
                          end
                      | None => None
                      end
                    else None
                | EmptyString => None
                end
            | None => None
            end
          else None
      | EmptyString => None
      end
  end.

(** [JSON.parse(text)]; [None] stands for the [SyntaxError] it throws. *)
Definition parse (text : string) : option value :=
  match element (2 + String.length text) text with
  | Some (v, rest) =>
      match skip_ws rest with
      | EmptyString => Some v
      | String _ _ => None
      end
  | None => None
  end.

End Json.

(* ===================================================================== *)
(** ** server/tools/toolDefinitions.cjs *)
(* ===================================================================== *)

Module ToolDefinitions.

(** One parameter of a tool: its declared type and whether it is required. *)
Record ParamSpec : Type := mkParam {
  ptype : string;
  required : bool
}.

(** A catalogue entry; the prose [description] fields are left out. *)
Record Tool : Type := mkTool {
  name : string;
  parameters : list (string * ParamSpec)
}.

Definition AVAILABLE_TOOLS : list Tool :=
  [ mkTool "search_papers"
      [("query", mkParam "string" true); ("max_results", mkParam "number" false)];
    mkTool "download_paper"
      [("title", mkParam "string" false); ("arxiv_id", mkParam "string" false)];
    mkTool "read_pdf_content"
      [("title", mkParam "string" false); ("resource_id", mkParam "string" false);
       ("arxiv_id", mkParam "string" false); ("filename", mkParam "string" false)];
    mkTool "view_file"
      [("file_path", mkParam "string" false)];
    mkTool "edit_file"
      [("operation", mkParam "string" true); ("content", mkParam "string" true);
       ("target_text", mkParam "string" false); ("position", mkParam "number" false)];
    mkTool "search_in_file"
      [("search_text", mkParam "string" true); ("case_sensitive", mkParam "boolean" false)];
    mkTool "list_resources"
      [("resource_type", mkParam "string" true)];
    mkTool "add_resource"
      [("resource_type", mkParam "string" true); ("resource_data", mkParam "object" true)];
    mkTool "insert_resource"
      [("resource_type", mkParam "string" true); ("resource_id", mkParam "string" true);
       ("insert_format", mkParam "string" false)] ].

Definition RESOURCE_TYPES : list string :=
  ["references"; "images"; "pdfs"; "datafiles"; "codesnippets"; "notes"].

End ToolDefinitions.

(* ===================================================================== *)
(** ** server/tools/toolParser.cjs *)
(* ===================================================================== *)

Module ToolParser.

Import Regex.

(** The parsed call [{ tool_name, parameters }]. *)
Record ToolCall : Type := mkToolCall {
  tool_name : string;
  parameters : JS.value
}.

(** The brace group of formats 1 and 2: an opening brace, then any mix of
    non-brace characters and brace groups nested at most two deep, then a
    closing brace. *)
Definition not_brace : re := not_of ["{"%char; "}"%char].
Definition braces1 : re := Seq (Chr "{"%char) (Seq (Star not_brace) (Chr "}"%char)).
Definition braces2 : re :=
  Seq (Chr "{"%char) (Seq (Star (Alt not_brace braces1)) (Chr "}"%char)).
Definition braces3 : re :=
  Seq (Chr "{"%char) (Seq (Star (Alt not_brace braces2)) (Chr "}"%char)).

(** Format 1: the label TOOL_CALL:, white space, the captured brace group. *)
Definition pattern1 : re :=
  Seq (Lit "TOOL_CALL:") (Seq (Star ws) (Grp 1 braces3)).

(** Format 2: format 1 inside a json code fence. *)
Definition pattern2 : re :=
  Seq (Lit "```json")
    (Seq (Star ws)
       (Seq (Lit "TOOL_CALL:")
          (Seq (Star ws) (Seq (Grp 1 braces3) (Seq (Star ws) (Lit "```")))))).

(** Format 3: a bare object whose first key is tool_name with a quoted,
    non-empty value (group 1) and whose second key is parameters with a
    flat brace group as value (group 2); white space may surround the
    punctuation. *)
Definition pattern3 : re :=
  Seq (Chr "{"%char)
    (Seq (Star ws)
       (Seq (Lit (JS.quoted "tool_name"))
          (Seq (Star ws)
             (Seq (Chr ":"%char)
                (Seq (Star ws)
                   (Seq (Chr JS.dquote)
                      (Seq (Grp 1 (Plus (not_of [JS.dquote])))
                         (Seq (Chr JS.dquote)
                            (Seq (Star ws)
                               (Seq (Chr ","%char)
                                  (Seq (Star ws)
                                     (Seq (Lit (JS.quoted "parameters"))
                                        (Seq (Star ws)
                                           (Seq (Chr ":"%char)
                                              (Seq (Star ws)
                                                 (Seq (Grp 2 (Seq (Chr "{"%char)
                                                                (Seq (Star (not_of ["}"%char]))
                                                                     (Chr "}"%char))))
                                                    (Seq (Star ws) (Chr "}"%char)))))))))))))))))).

Inductive format : Type := Format1 | Format2 | Format3.

Definition patterns : list (format * re) :=
  [(Format1, pattern1); (Format2, pattern2); (Format3, pattern3)].

(** [AVAILABLE_TOOLS.some(tool => tool.name === toolCall.tool_name)] *)
Definition isValidTool (tool_name : JS.value) : bool :=
  match tool_name with
  | JS.Str n =>
      existsb (fun tool => (ToolDefinitions.name tool =? n)%string)
              ToolDefinitions.AVAILABLE_TOOLS
  | _ => false
  end.

(** What one pattern's [try] block does with the decoded object:
    [Some call] is the [return], [None] falls through to the next pattern. *)
Definition accept (toolCall : JS.value) : option ToolCall :=
  if JS.truthy (JS.get toolCall "tool_name") && JS.truthy (JS.get toolCall "parameters")
  then
    match JS.get toolCall "tool_name" with
    | JS.Str n =>
        if isValidTool (JS.Str n)
        then Some {| tool_name := n; parameters := JS.get toolCall "parameters" |}
        else None
    | _ => None
    end
  else None.

(** The catch block: strip the marker and the fence from [match[0]] and
    parse once more. *)
Definition fallback (match0 : string) : option ToolCall :=
  let jsonStr :=
    JS.trim
      (remove_first (Seq (Lit "```") (Seq (Star ws) Eos))
         (remove_first (Seq (Lit "```json") (Star ws))
            (remove_first (Seq (Lit "TOOL_CALL:") (Star ws)) match0))) in
  match Json.parse jsonStr with
  | None => None
  | Some JS.Null => None      (* [toolCall.tool_name] throws, caught *)
  | Some toolCall => accept toolCall
  end.

(** The body of the loop for one pattern that matched. *)
Definition decode (f : format) (mr : match_result) : option ToolCall :=
  match f with
  | Format3 =>
      match Json.parse (group 2 mr) with
      | Some params =>
          accept (JS.Obj [("tool_name", JS.Str (group 1 mr));
                          ("parameters", params)])
      | None => fallback (matched mr)
      end
  | _ =>
      match Json.parse (JS.trim (group 1 mr)) with
      | Some toolCall =>
          if JS.truthy toolCall then accept toolCall else None
      | None => fallback (matched mr)
      end
  end.

Fixpoint try_patterns (ps : list (format * re)) (response : string) : list ToolCall :=
  match ps with
  | [] => []
  | (f, pattern) :: rest =>
      match exec pattern response with
      | Some mr =>
          match decode f mr with
          | Some call => [call]
          | None => try_patterns rest response
          end
      | None => try_patterns rest response
      end
  end.

Definition parseToolCalls (response : string) : list ToolCall :=
  if (response =? "")%string then [] else try_patterns patterns response.

(** The three position patterns of [extractContentBeforeToolCall]: the
    label followed by white space and an opening brace; the json fence
    followed by white space and the label; an opening brace, white space,
    the quoted key tool_name, white space and a colon. *)
Definition toolCallPatterns : list re :=
  [ Seq (Lit "TOOL_CALL:") (Seq (Star ws) (Chr "{"%char));
    Seq (Lit "```json") (Seq (Star ws) (Lit "TOOL_CALL:"));
    Seq (Chr "{"%char) (Seq (Star ws) (Seq (Lit (JS.quoted "tool_name")) (Seq (Star ws) (Chr ":"%char)))) ].

(** The loop that keeps the smallest match index; [-1] means none yet. *)
Definition first_index_step (response : string) (firstToolCallIndex : Z) (pattern : re) : Z :=
  match exec pattern response with
  | Some mr =>
      let index := Z.of_nat (Regex.index mr) in
      if (firstToolCallIndex =? -1) || (index <? firstToolCallIndex)
      then index else firstToolCallIndex
  | None => firstToolCallIndex
  end.

Definition firstToolCallIndex (response : string) : Z :=
  fold_left (first_index_step response) toolCallPatterns (-1).

Definition extractContentBeforeToolCall (response : string) : string :=
  if (response =? "")%string then response
  else
    let i := firstToolCallIndex response in
    if 0 <? i then JS.trim (substring 0 (Z.to_nat i) response)
    else if i =? 0 then ""
    else response.

End ToolParser.

(* ===================================================================== *)
(** ** Exceptions *)
(* ===================================================================== *)

(** The completion of a call that may [throw]. *)
Inductive Exn (A : Type) : Type :=
| Returned (a : A)
| Thrown (message : string).
Arguments Returned {A} a.
Arguments Thrown {A} message.

(* ===================================================================== *)
(** ** server/tools/toolExecutor.cjs and server/routes/toolsRouter.cjs *)
(* ===================================================================== *)

Module ToolExecutor.

(** [{ success, data?, error? }]; an absent [data] is [JS.Undefined]. *)
Record ToolResult : Type := mkResult {
  success : bool;
  data : JS.value;
  error : option string
}.

Definition failure (msg : string) : ToolResult :=
  {| success := false; data := JS.Undefined; error := Some msg |}.

(** [s.split('\n').length] *)
Fixpoint count_lines (s : string) : Z :=
  match s with
  | EmptyString => 1
  | String c rest => (if Ascii.eqb c "010" then 1 else 0) + count_lines rest
  end.

(** The replacement text of [String.prototype.replace] for a string
    pattern: [$$], [$&], the text before and the text after the match;
    with no capture groups every other [$] stands for itself. *)
Fixpoint getSubstitution (matched before after template : string) : string :=
  match template with
  | EmptyString => EmptyString
  | String c rest =>
      if Ascii.eqb c "$" then
        match rest with
        | String d rest' =>
            if Ascii.eqb d "$" then String "$" (getSubstitution matched before after rest')
            else if Ascii.eqb d "&" then matched ++ getSubstitution matched before after rest'
            else if Ascii.eqb d "`" then before ++ getSubstitution matched before after rest'
            else if Ascii.eqb d "'" then after ++ getSubstitution matched before after rest'
            else String "$" (String d (getSubstitution matched before after rest'))
        | EmptyString => String "$" EmptyString
        end
      else String c (getSubstitution matched before after rest)
  end.

(** [s.replace(target, replacement)] with a string [target]: the first
    occurrence only. *)
Definition replace_first (s target replacement : string) : string :=
  match index 0 target s with
  | None => s
  | Some i =>
      let before := substring 0 i s in
      let after := substring (i + String.length target)
                             (String.length s - (i + String.length target)) s in
      before ++ getSubstitution target before after replacement ++ after
  end.

Definition includes (s target : string) : bool :=
  match index 0 target s with Some _ => true | None => false end.

Section WithCoercions.

(** [ToString] and [ToNumber] on values that are not already a string or
    a number; [ToNumber] gives [None] for [NaN]. *)
Variable ToString : JS.value -> string.
Variable ToNumber : JS.value -> option (Z * Z).

Definition to_string (v : JS.value) : string :=
  match v with
  | JS.Str s => s
  | JS.Undefined => "undefined"
  | JS.Null => "null"
  | JS.Bool true => "true"
  | JS.Bool false => "false"
  | _ => ToString v
  end.

(** A number as mantissa and decimal exponent. *)
Definition to_number (v : JS.value) : option (Z * Z) :=
  match v with
  | JS.Num m e => Some (m, e)
  | JS.Null => Some (0, 0)
  | JS.Bool b => Some (if b then 1 else 0, 0)
  | JS.Undefined => None
  | _ => ToNumber v
  end.

(** [m * 10^e > n] for an integer [n]. *)
Definition dec_gtb (m e n : Z) : bool :=
  if 0 <=? e then n <? m * 10 ^ e else n * 10 ^ (- e) <? m.

(** [ToIntegerOrInfinity]: truncation towards zero. *)
Definition dec_trunc (m e : Z) : Z :=
  if 0 <=? e then m * 10 ^ e else Z.quot m (10 ^ (- e)).

Definition operation_word (operation : JS.value) : string :=
  match operation with
  | JS.Str "append" => "追加"
  | JS.Str "replace" => "替换"
  | _ => "插入"
  end.

(** [executeEditFile(parameters, editor_content)]; destructuring a
    [null] or [undefined] [parameters] throws. *)
Definition executeEditFile (parameters : JS.value) (editor_content : option string)
  : Exn ToolResult :=
  match editor_content with
  | None => Returned (failure "编辑器内容为空")
  | Some editor_content =>
      if (editor_content =? "")%string then Returned (failure "编辑器内容为空")
      else
        match parameters with
        | JS.Undefined | JS.Null =>
            Thrown "Cannot destructure property 'operation' of 'parameters'"
        | _ =>
            let operation := JS.get parameters "operation" in
            let content := JS.get parameters "content" in
            let target_text := JS.get parameters "target_text" in
            let position := JS.get parameters "position" in
            let done (newContent : string) : Exn ToolResult :=
              Returned
                {| success := true;
                   data := JS.Obj
                     [("operation", operation);
                      ("new_content", JS.Str newContent);
                      ("message", JS.Str ("文件已成功" ++ operation_word operation ++ "内容"));
                      ("stats", JS.Obj
                         [("old_lines", JS.Num (count_lines editor_content) 0);
                          ("new_lines", JS.Num (count_lines newContent) 0);
                          ("lines_added",
                           JS.Num (count_lines newContent - count_lines editor_content) 0)])];
                   error := None |} in
            match operation with
            | JS.Str "append" =>
                done (editor_content ++ String "010" (String "010" "") ++ to_string content)
            | JS.Str "replace" =>
                if negb (JS.truthy target_text)
                   || negb (includes editor_content (to_string target_text))
                then Returned (failure "未找到要替换的目标文本")
                else done (replace_first editor_content (to_string target_text)
                             (to_string content))
            | JS.Str "insert_at" =>
                match position with
                | JS.Undefined => Returned (failure "插入位置无效")
                | _ =>
                    let len := JS.strlen editor_content in
                    let p := match to_number position with
                             | Some (m, e) =>
                                 if (m <? 0) || dec_gtb m e len then None
                                 else Some (Z.to_nat (dec_trunc m e))
                             | None => Some O
                             end in
                    match p with
                    | None => Returned (failure "插入位置无效")
                    | Some i =>
                        done (substring 0 i editor_content ++ to_string content
                              ++ substring i (String.length editor_content - i)
                                   editor_content)
                    end
                end
            | _ => Returned (failure ("不支持的操作类型: " ++ to_string operation))
            end
        end
  end.

(** The executors of the other eight tools reach the resource store, the
    file system and arXiv; [k] counts the calls made so far. *)
Variable executeOtherTool : nat -> string -> JS.value -> option string -> Exn ToolResult.

Definition other_tools : list string :=
  ["search_papers"; "download_paper"; "read_pdf_content"; "view_file";
   "search_in_file"; "list_resources"; "add_resource"; "insert_resource"].

(** [executeTool(tool_name, parameters, editor_content)] *)
Definition executeTool (k : nat) (tool_name : JS.value) (parameters : JS.value)
           (editor_content : option string) : Exn ToolResult :=
  match tool_name with
  | JS.Str n =>
      if (n =? "edit_file")%string then executeEditFile parameters editor_content
      else if existsb (String.eqb n) other_tools
      then executeOtherTool k n parameters editor_content
      else Returned (failure ("不支持的工具: " ++ n))
  | _ => Returned (failure ("不支持的工具: " ++ to_string tool_name))
  end.

(** [router.post('/execute')]: the body sent back, with the HTTP status
    being 200 ([Returned]) or 500 ([Thrown], carrying the [error] field
    of the body). *)
Definition route_execute (k : nat) (tool_name parameters : JS.value)
           (editor_content : option string) : Exn ToolResult :=
  match executeTool k tool_name parameters editor_content with
  | Returned result => Returned result
  | Thrown message =>
      Thrown (if (message =? "")%string then "工具调用失败" else message)
  end.

End WithCoercions.

End ToolExecutor.

(* ===================================================================== *)
(** ** server/routes/agent.cjs: the streaming route *)
(* ===================================================================== *)

Module AgentRoute.

Import ToolParser.

(** The payload of one [data:] line. *)
Inductive StreamEvent : Type :=
| Start (model : JS.value)
| Chunk (content full_response : string) (reasoning : option (string * string))
| Complete (full_response : string) (tool_calls : option (list ToolCall))
           (full_reasoning : option string)
| Error (error : string).

(** What [res.write] sends: an event, or the [[DONE]] sentinel. *)
Inductive Write : Type :=
| Data (e : StreamEvent)
| Done.

(** The request body. *)
Record Request : Type := mkRequest {
  content : JS.value;
  contentId : JS.value;
  input : JS.value;
  mode : JS.value;
  model : JS.value;
  apiKey : JS.value;
  messages : JS.value
}.

(** One run of [callDeepSeekApiStream]: the content and reasoning deltas
    of the upstream lines that carried one, in arrival order, and how the
    promise settles ([Some message] is a rejection with [new Error(message)];
    on fulfilment the value is the pair of accumulated texts). *)
Record StreamRun : Type := mkRun {
  deltas : list (string * string);
  rejection : option string
}.

Section WithCollaborators.

Variable Date_now_at : nat -> Z.
(** [generatePrompt(content, input, mode, AVAILABLE_TOOLS, messages)] *)
Variable generatePrompt : JS.value -> JS.value -> JS.value -> JS.value -> Exn string.
(** [callDeepSeekApiStream(prompt, apiKey, actualModel, onChunk)] *)
Variable callDeepSeekApiStream : string -> JS.value -> string -> StreamRun.

(** [resolveContent(contentId, content)] *)
Definition resolveContent (contentId content : JS.value) : ContentCache.M JS.value :=
  let fallback := if JS.truthy content then content else JS.Str "" in
  match contentId with
  | JS.Str id =>
      if JS.truthy contentId then
        ContentCache.bind (ContentCache.getContent Date_now_at id)
          (fun cached =>
             match cached with
             | Some text =>
                 if JS.truthy (JS.Str text) then ContentCache.ret (JS.Str text)
                 else ContentCache.ret fallback
             | None => ContentCache.ret fallback
             end)
      else ContentCache.ret fallback
  | _ => ContentCache.ret fallback   (* no string key of the map equals it *)
  end.

(** The [catch] block: every error the [try] block can raise is a plain
    [Error] without [response] or [request]. *)
Definition fail (message : string) : list Write :=
  [Data (Error (if (message =? "")%string then "处理失败" else message)); Done].

(** The [onChunk] callback over the deltas: the events written and the
    accumulated texts. *)
Fixpoint relay (is_reasoner : bool) (ds : list (string * string))
         (fullResponse fullReasoning : string)
  : list Write * string * string :=
  match ds with
  | [] => ([], fullResponse, fullReasoning)
  | (content, reasoningContent) :: rest =>
      let currentFullResponse := fullResponse ++ content in
      let currentFullReasoning := fullReasoning ++ reasoningContent in
      let eventData :=
        Chunk content currentFullResponse
          (if is_reasoner && negb (reasoningContent =? "")%string
           then Some (reasoningContent, currentFullReasoning) else None) in
      let '(ws, r, g) := relay is_reasoner rest currentFullResponse currentFullReasoning in
      (Data eventData :: ws, r, g)
  end.

(** The fragments for which [callDeepSeekApiStream] invokes [onChunk]. *)
Definition nonempty_delta (d : string * string) : bool :=
  negb (fst d =? "")%string || negb (snd d =? "")%string.

(** [router.post('/stream', ...)]: everything written to the response. *)
Definition stream (req : Request) : ContentCache.M (list Write) :=
  if negb (JS.truthy (apiKey req)) then ContentCache.ret (fail "API Key不能为空")
  else
    ContentCache.bind (resolveContent (contentId req) (content req))
      (fun resolvedContent =>
         match generatePrompt resolvedContent (input req) (mode req) (messages req) with
         | Thrown message => ContentCache.ret (fail message)
         | Returned prompt =>
             let start := Data (Start (model req)) in
             let is_chat := match model req with
                            | JS.Str m => (m =? "deepseek")%string
                            | _ => false
                            end in
             let is_reasoner := match model req with
                                | JS.Str m => (m =? "deepseek-reasoner")%string
                                | _ => false
                                end in
             if is_chat || is_reasoner then
               let actualModel := if is_chat then "deepseek-chat" else "deepseek-reasoner" in
               let run := callDeepSeekApiStream prompt (apiKey req) actualModel in
               let '(chunks, fullResponse, fullReasoning) :=
                 relay is_reasoner (filter nonempty_delta (deltas run)) "" "" in
               match rejection run with
               | Some message => ContentCache.ret (start :: chunks ++ fail message)
               | None =>
                   let toolCalls := parseToolCalls fullResponse in
                   let finalResponse :=
                     match toolCalls with
                     | [] => fullResponse
                     | _ :: _ => extractContentBeforeToolCall fullResponse
                     end in
                   let completeData :=
                     Complete finalResponse
                       (match toolCalls with [] => None | _ :: _ => Some toolCalls end)
                       (if (fullReasoning =? "")%string then None else Some fullReasoning) in
                   ContentCache.ret (start :: chunks ++ [Data completeData; Done])
               end
             else
               ContentCache.ret (start :: fail "该模型不支持流式输出，请使用普通接口")
         end).

End WithCollaborators.

End AgentRoute.

(* ===================================================================== *)
(** ** src/components/AgentChat.tsx: [handleSend] and [sendAgentRequest] *)
(* ===================================================================== *)

Module AgentChat.

Import ToolParser ToolExecutor.

Inductive Role : Type := user | agent.
Inductive Mode : Type := discuss | write.
Inductive Model : Type := deepseek | deepseek_reasoner | qwen.

(** [interface Message] *)
Record Message : Type := mkMessage {
  role : Role;
  content : string;
  reasoning : option string;
  tool_calls : option (list ToolCall);
  tool_results : option (list ToolResult);
  isStreaming : option bool
}.

(** [interface ToolHistoryEntry] *)
Record ToolHistoryEntry : Type := mkHistory {
  h_id : string;
  h_timestamp : string;
  h_tool_name : string;
  h_parameters : JS.value;
  h_result : ToolResult
}.

(** [requestParams], the argument of the two request functions. *)
Record AgentRequest : Type := mkAgentRequest {
  rq_contentId : option string;
  rq_content : option string;
  rq_input : string;
  rq_mode : Mode;
  rq_model : Model;
  rq_apiKey : string;
  rq_messages : list Message
}.

(** [interface AgentResponse] *)
Record AgentResponse : Type := mkAgentResponse {
  response : string;
  rs_reasoning : option string;
  rs_tool_calls : option (list ToolCall)
}.

(** How an awaited promise ends; [Pending] is a promise that never settles. *)
Inductive Settle (A : Type) : Type :=
| Resolved (a : A)
| Rejected (message : string)
| Pending.
Arguments Resolved {A} a.
Arguments Rejected {A} message.
Arguments Pending {A}.

(** One run of [agentService.sendStreamRequest] or [sendRequest]: the
    [chunk] events handed to the callback, as the pair
    [(event.content || '', event.reasoning_content || '')], and the end of
    the promise. *)
Record RequestRun : Type := mkRequestRun {
  chunks : list (string * string);
  settle : Settle AgentResponse
}.

(** What happens to the HTTP exchange of one [executeToolCall]. *)
Inductive Transport : Type :=
| Delivered                       (* the server's answer arrives in time *)
| Unreachable (message : string)  (* [fetch] rejects *)
| Slow.                           (* no answer within [TOOL_TIMEOUT] *)

(** The calls the component makes on its collaborators, in order. *)
Inductive Call : Type :=
| CallStoreContent (content : string)
| CallModel (streaming : bool) (request : AgentRequest)
| CallTool (tool_name : string) (parameters : JS.value) (editor_content : string)
| CallUpdateContent (content : string).

Definition is_store (c : Call) : bool :=
  match c with CallStoreContent _ => true | _ => false end.
Definition is_model (c : Call) : bool :=
  match c with CallModel _ _ => true | _ => false end.
Definition is_tool (c : Call) : bool :=
  match c with CallTool _ _ _ => true | _ => false end.
Definition is_update (c : Call) : bool :=
  match c with CallUpdateContent _ => true | _ => false end.

Definition count (p : Call -> bool) (l : list Call) : nat := List.length (filter p l).

(** The local variables of [handleSend], the React state it sets and the
    calls made so far. *)
Record State : Type := mkState {
  updatedMessages : list Message;
  shownMessages : list Message;        (* last argument of [setMessages] *)
  currentEditorContent : string;
  iterationCount : nat;
  toolHistory : list ToolHistoryEntry;
  calls : list Call
}.

Definition MAX_TOOL_ITERATIONS : nat := 10.
Definition TOOL_TIMEOUT : Z := 30000.

(** How [handleSend] ends. *)
Inductive Outcome : Type :=
| Ignored                 (* empty input: nothing happens *)
| NeedApiKey              (* the configure-your-key message *)
| Completed               (* the [try] block ran to its end *)
| Failed (message : string)   (* the [catch] block showed an error message *)
| Hung.                   (* an awaited request never settled *)

Section WithProps.

(** Props and component state. *)
Variable editorContent : string.
Variable messages : list Message.
Variable hasSetMessages : bool.
Variable input : string.
Variable currentApiKey : string.
Variable writingMode : Mode.
Variable model : Model.

(** Collaborators; the [nat] argument counts the earlier calls. *)
Variable svc_storeContent : nat -> string -> Exn string.
Variable svc_sendRequest : nat -> bool -> AgentRequest -> RequestRun.
Variable transport : nat -> Transport.
Variable ToString : JS.value -> string.
Variable ToNumber : JS.value -> option (Z * Z).
Variable executeOtherTool : nat -> string -> JS.value -> option string -> Exn ToolResult.
(** [JSON.stringify(value, null, 2)] *)
Variable JSON_stringify : JS.value -> string.
(** The per-tool summaries of a successful result for [search_papers],
    [read_pdf_content] and [list_resources]: the properties added to
    [formattedResult], or the [TypeError] a malformed payload raises. *)
Variable summarize : string -> JS.value -> Exn (list (string * JS.value)).
(** [Date.now().toString() + Math.random().toString(36).substr(2, 9)] and
    [new Date().toISOString()] at the [k]-th tool call. *)
Variable history_stamp : nat -> string * string.
(** The text the [catch] block builds from the error message. *)
Variable formatError : string -> string.

Definition setMessages (ms : list Message) (st : State) : State :=
  {| updatedMessages := updatedMessages st;
     shownMessages := if hasSetMessages then ms else shownMessages st;
     currentEditorContent := currentEditorContent st;
     iterationCount := iterationCount st;
     toolHistory := toolHistory st;
     calls := calls st |}.

(** The callback [(newMessages) => { updatedMessages = newMessages; ... }] *)
Definition onMessagesUpdate (ms : list Message) (st : State) : State :=
  setMessages ms
    {| updatedMessages := ms;
       shownMessages := shownMessages st;
       currentEditorContent := currentEditorContent st;
       iterationCount := iterationCount st;
       toolHistory := toolHistory st;
       calls := calls st |}.

Definition record (c : Call) (st : State) : State :=
  {| updatedMessages := updatedMessages st;
     shownMessages := shownMessages st;
     currentEditorContent := currentEditorContent st;
     iterationCount := iterationCount st;
     toolHistory := toolHistory st;
     calls := (calls st ++ [c])%list |}.

(** [ms[ms.length - 1] = f(ms[ms.length - 1])] *)
Fixpoint update_last (f : Message -> Message) (ms : list Message) : list Message :=
  match ms with
  | [] => []
  | [m] => [f m]
  | m :: rest => m :: update_last f rest
  end.

Definition last_message (ms : list Message) : option Message :=
  List.last (map Some ms) None.

Definition last_is (p : Message -> bool) (ms : list Message) : bool :=
  match last_message ms with Some m => p m | None => false end.

Definition is_agent (m : Message) : bool :=
  match role m with agent => true | user => false end.

(** The [chunk] branch of the stream callback. *)
Definition on_chunk (newMessages : list Message) (ev : string * string) : list Message :=
  if last_is (fun m => match isStreaming m with Some true => true | _ => false end)
             newMessages
  then update_last
         (fun m => {| role := role m;
                      content := content m ++ fst ev;
                      reasoning := Some (match reasoning m with Some r => r | None => "" end
                                         ++ snd ev);
                      tool_calls := tool_calls m;
                      tool_results := tool_results m;
                      isStreaming := isStreaming m |}) newMessages
  else newMessages.

Fixpoint relay_chunks (evs : list (string * string)) (newMessages : list Message)
         (st : State) : list Message * State :=
  match evs with
  | [] => (newMessages, st)
  | ev :: rest =>
      let newMessages' := on_chunk newMessages ev in
      relay_chunks rest newMessages' (onMessagesUpdate newMessages' st)
  end.

(** [sendAgentRequest(content, inputText, currentMessages, useStreaming, cb)];
    the first argument is called [paper] here. *)
Definition sendAgentRequest (paper inputText : string) (currentMessages : list Message)
           (useStreaming : bool) (st : State) : Settle AgentResponse * State :=
  let '(contentId, st1) :=
    if negb (paper =? "")%string then
      let st' := record (CallStoreContent paper) st in
      match svc_storeContent (count is_store (calls st)) paper with
      | Returned id => (Some id, st')
      | Thrown _ => (None, st')
      end
    else (None, st) in
  let usable := match contentId with
                | Some id => negb (id =? "")%string
                | None => false
                end in
  let requestParams :=
    {| rq_contentId := contentId;
       rq_content := if usable then None else Some paper;
       rq_input := inputText;
       rq_mode := writingMode;
       rq_model := model;
       rq_apiKey := currentApiKey;
       rq_messages := currentMessages |} in
  let run := svc_sendRequest (count is_model (calls st1)) useStreaming requestParams in
  let st2 := record (CallModel useStreaming requestParams) st1 in
  if useStreaming then
    let streamingMessage :=
      {| role := agent; content := ""; reasoning := Some "";
         tool_calls := None; tool_results := None; isStreaming := Some true |} in
    let newMessages := (currentMessages ++ [streamingMessage])%list in
    let st3 := onMessagesUpdate newMessages st2 in
    let '(newMessages', st4) := relay_chunks (chunks run) newMessages st3 in
    match settle run with
    | Resolved resp =>
        let final :=
          update_last
            (fun m => {| role := role m;
                         content := response resp;
                         reasoning := rs_reasoning resp;
                         tool_calls := rs_tool_calls resp;
                         tool_results := tool_results m;
                         isStreaming := Some false |}) newMessages' in
        (Resolved resp, onMessagesUpdate final st4)
    | Rejected e => (Rejected e, st4)
    | Pending => (Pending, st4)
    end
  else
    match settle run with
    | Resolved resp =>
        let agentMessage :=
          {| role := agent; content := response resp; reasoning := None;
             tool_calls := rs_tool_calls resp; tool_results := None;
             isStreaming := None |} in
        (Resolved resp, onMessagesUpdate (currentMessages ++ [agentMessage])%list st2)
    | Rejected e => (Rejected e, st2)
    | Pending => (Pending, st2)
    end.

(** [agentService.executeToolCall] raced against the timer: the server
    route answers, unless the exchange fails or is too slow; the race
    always settles. *)
Definition raceToolCall (k : nat) (toolCall : ToolCall) (editor : string)
  : Exn ToolResult :=
  match transport k with
  | Delivered =>
      route_execute ToString ToNumber executeOtherTool k
        (JS.Str (tool_name toolCall)) (parameters toolCall) (Some editor)
  | Unreachable message => Thrown message
  | Slow =>
      Thrown ("工具 " ++ tool_name toolCall ++ " 执行超时 ("
              ++ JS.Z_to_string (TOOL_TIMEOUT / 1000) ++ "秒)")
  end.

(** The [try]/[catch] around the race: the loop always gets a result. *)
Definition executeWithTimeout (k : nat) (toolCall : ToolCall) (editor : string)
  : ToolResult :=
  match raceToolCall k toolCall editor with
  | Returned result => result
  | Thrown message => {| success := false; data := JS.Undefined; error := Some message |}
  end.

(** [formattedResult] *)
Definition formatResult (toolCall : ToolCall) (result : ToolResult) : Exn JS.value :=
  let base :=
    [("tool", JS.Str (tool_name toolCall));
     ("success", JS.Bool (success result));
     ("error", if success result then JS.Undefined
               else match error result with
                    | Some e => JS.Str e
                    | None => JS.Undefined
                    end)] in
  if success result && JS.truthy (data result) then
    let d := data result in
    let n := tool_name toolCall in
    if (n =? "search_papers")%string && JS.truthy (JS.get d "papers") then
      match summarize n d with
      | Returned extra => Returned (JS.Obj (base ++ extra)%list)
      | Thrown e => Thrown e
      end
    else if (n =? "download_paper")%string then
      Returned (JS.Obj (base ++ [("message", JS.get d "message");
                                 ("filename", JS.get d "filename");
                                 ("resource_id", JS.get d "resource_id")])%list)
    else if (n =? "read_pdf_content")%string || (n =? "list_resources")%string then
      match summarize n d with
      | Returned extra => Returned (JS.Obj (base ++ extra)%list)
      | Thrown e => Thrown e
      end
    else Returned (JS.Obj (base ++ [("data", d)])%list)
  else Returned (JS.Obj base).

Definition followUpInput (toolCall : ToolCall) (formattedResult : JS.value) : string :=
  "工具 " ++ JS.quoted (tool_name toolCall) ++ " 执行结果：" ++ String "010" ""
  ++ JSON_stringify formattedResult ++ String "010" (String "010" "")
  ++ "请基于工具执行结果继续回答用户的问题。如果需要下载论文，请使用论文的 arxiv_id 调用 download_paper 工具。每次只能调用一个工具。".

Definition to_string (v : JS.value) : string := ToolExecutor.to_string ToString v.

(** The first half of the body of the [while] loop: count the pass, show
    the call on the last message, run the tool under its timeout, take over
    an [edit_file] result that carries [data.content], log the call and show
    the result on the last message. *)
Definition run_tool (toolCall : ToolCall) (st : State) : ToolResult * State :=
  (* iterationCount++ *)
  let st := {| updatedMessages := updatedMessages st;
               shownMessages := shownMessages st;
               currentEditorContent := currentEditorContent st;
               iterationCount := S (iterationCount st);
               toolHistory := toolHistory st;
               calls := calls st |} in
  (* tool_calls on the last message *)
  let agent_last := last_is is_agent (updatedMessages st) in
  let st :=
    if agent_last then
      let ms := update_last
                  (fun m => {| role := role m; content := content m;
                               reasoning := reasoning m;
                               tool_calls := Some [toolCall];
                               tool_results := tool_results m;
                               isStreaming := isStreaming m |}) (updatedMessages st) in
      onMessagesUpdate ms st
    else st in
  (* the tool call, with its timeout *)
  let k := count is_tool (calls st) in
  let result := executeWithTimeout k toolCall (currentEditorContent st) in
  let st := record (CallTool (tool_name toolCall) (parameters toolCall)
                      (currentEditorContent st)) st in
  (* an edit_file result carrying [data.content] replaces the editor text *)
  let st :=
    if success result && (tool_name toolCall =? "edit_file")%string
       && JS.truthy (JS.get (data result) "content")
    then
      let new_content := to_string (JS.get (data result) "content") in
      record (CallUpdateContent new_content)
        {| updatedMessages := updatedMessages st;
           shownMessages := shownMessages st;
           currentEditorContent := new_content;
           iterationCount := iterationCount st;
           toolHistory := toolHistory st;
           calls := calls st |}
    else st in
  (* tool history *)
  let historyEntry :=
    {| h_id := fst (history_stamp k); h_timestamp := snd (history_stamp k);
       h_tool_name := tool_name toolCall; h_parameters := parameters toolCall;
       h_result := result |} in
  let st := {| updatedMessages := updatedMessages st;
               shownMessages := shownMessages st;
               currentEditorContent := currentEditorContent st;
               iterationCount := iterationCount st;
               toolHistory := (toolHistory st ++ [historyEntry])%list;
               calls := calls st |} in
  (* tool_results on the last message *)
  let st :=
    if agent_last then
      let ms := update_last
                  (fun m => {| role := role m; content := content m;
                               reasoning := reasoning m;
                               tool_calls := tool_calls m;
                               tool_results := Some [result];
                               isStreaming := isStreaming m |}) (updatedMessages st) in
      onMessagesUpdate ms st
    else st in
  (result, st).

(** One pass through the body of the [while] loop: the tool, then the
    follow-up request built from its result. *)
Definition iteration (useStreaming : bool) (toolCall : ToolCall) (st : State)
  : Settle AgentResponse * State :=
  let '(result, st) := run_tool toolCall st in
  match formatResult toolCall result with
  | Thrown e => (Rejected e, st)
  | Returned formattedResult =>
      sendAgentRequest (currentEditorContent st) (followUpInput toolCall formattedResult)
        (updatedMessages st) useStreaming st
  end.

(** [agentResponse.tool_calls && agentResponse.tool_calls.length > 0] *)
Definition requested_tool (agentResponse : AgentResponse) : option ToolCall :=
  match rs_tool_calls agentResponse with
  | Some (toolCall :: _) => Some toolCall
  | _ => None
  end.

(** The [while] loop; [fuel] bounds the number of passes. *)
Fixpoint tool_loop (fuel : nat) (useStreaming : bool) (agentResponse : AgentResponse)
         (st : State) : option (Settle unit * State) :=
  match requested_tool agentResponse with
  | Some toolCall =>
      if (iterationCount st <? MAX_TOOL_ITERATIONS)%nat then
        match fuel with
        | O => None
        | S fuel' =>
            match iteration useStreaming toolCall st with
            | (Resolved agentResponse', st') =>
                tool_loop fuel' useStreaming agentResponse' st'
            | (Rejected e, st') => Some (Rejected e, st')
            | (Pending, st') => Some (Pending, st')
            end
        end
      else Some (Resolved tt, st)
  | None => Some (Resolved tt, st)
  end.

Definition initialState : State :=
  {| updatedMessages := messages; shownMessages := messages;
     currentEditorContent := editorContent; iterationCount := 0;
     toolHistory := []; calls := [] |}.

(** The [catch] block. *)
Definition show_error (e : string) (st : State) : Outcome * State :=
  let errorMessage :=
    {| role := agent; content := formatError e; reasoning := None;
       tool_calls := None; tool_results := None; isStreaming := None |} in
  (Failed e, setMessages (updatedMessages st ++ [errorMessage])%list st).

(** [handleSend]; [None] only if [fuel] passes of the loop were not
    enough. *)
Definition handleSend_fuel (fuel : nat) : option (Outcome * State) :=
  if (JS.trim input =? "")%string then Some (Ignored, initialState)
  else if (JS.trim currentApiKey =? "")%string then
    Some (NeedApiKey,
           setMessages
             (messages ++ [{| role := agent; content := "请先配置API Key";
                              reasoning := None; tool_calls := None;
                              tool_results := None; isStreaming := None |}])%list
             initialState)
  else
    let userMessage :=
      {| role := user; content := input; reasoning := None; tool_calls := None;
         tool_results := None; isStreaming := None |} in
    let st := onMessagesUpdate (messages ++ [userMessage])%list initialState in
    let useStreaming := match model with qwen => false | _ => true end in
    match sendAgentRequest (currentEditorContent st) input (updatedMessages st)
            useStreaming st with
    | (Rejected e, st1) => Some (show_error e st1)
    | (Pending, st1) => Some (Hung, st1)
    | (Resolved agentResponse, st1) =>
        match tool_loop fuel useStreaming agentResponse st1 with
        | None => None
        | Some (Rejected e, st2) => Some (show_error e st2)
        | Some (Pending, st2) => Some (Hung, st2)
        | Some (Resolved _, st2) =>
            let write_back :=
              match writingMode, last_message (updatedMessages st2) with
              | write, Some lastMessage =>
                  is_agent lastMessage && negb (content lastMessage =? "")%string
              | _, _ => false
              end in
            if write_back then
              match last_message (updatedMessages st2) with
              | Some lastMessage =>
                  Some (Completed,
                         record (CallUpdateContent
                                   (currentEditorContent st2 ++ String "010" ""
                                    ++ content lastMessage)) st2)
              | None => Some (Completed, st2)
              end
            else Some (Completed, st2)
        end
    end.

Definition handleSend : option (Outcome * State) :=
  handleSend_fuel (S MAX_TOOL_ITERATIONS).

End WithProps.

End AgentChat.

(* ===================================================================== *)
(** ** server/tools/toolParser.cjs: [hasToolCall] and [removeToolCallsFromResponse] *)
(* ===================================================================== *)

Module ToolMarkers.

Import Regex.

(** [pattern.test(response)] for a pattern without the g flag. *)
Definition test (pattern : re) (response : string) : bool :=
  match exec pattern response with Some _ => true | None => false end.

(** The three patterns of [hasToolCall]: the first two are the position
    patterns of [extractContentBeforeToolCall]; the third asks, after the
    key tool_name, for a quoted non-empty value, a comma, the key
    parameters and a colon. *)
Definition patterns : list re :=
  [ Seq (Lit "TOOL_CALL:") (Seq (Star ws) (Chr "{"%char));
    Seq (Lit "```json") (Seq (Star ws) (Lit "TOOL_CALL:"));
    Seq (Chr "{"%char)
      (Seq (Star ws)
         (Seq (Lit (JS.quoted "tool_name"))
            (Seq (Star ws)
               (Seq (Chr ":"%char)
                  (Seq (Star ws)
                     (Seq (Chr JS.dquote)
                        (Seq (Plus (not_of [JS.dquote]))
                           (Seq (Chr JS.dquote)
                              (Seq (Star ws)
                                 (Seq (Chr ","%char)
                                    (Seq (Star ws)
                                       (Seq (Lit (JS.quoted "parameters"))
                                          (Seq (Star ws) (Chr ":"%char)))))))))))))) ].

(** [hasToolCall(response)] on a string. *)
Definition hasToolCall (response : string) : bool :=
  if (response =? "")%string then false
  else existsb (fun pattern => test pattern response) patterns.

(** [removeToolCallsFromResponse(response)] *)
Definition removeToolCallsFromResponse (response : string) : string :=
  ToolParser.extractContentBeforeToolCall response.

End ToolMarkers.

(* ===================================================================== *)
(** ** [btoa] and [atob] *)
(* ===================================================================== *)

Module Base64.

Local Open Scope nat_scope.

(** The base64 alphabet; [digit n] is its [n]-th character. *)
Definition alphabet : string :=
  "ABCDEFGHIJKLMNOPQRSTUVWXYZabcdefghijklmnopqrstuvwxyz0123456789+/".

Definition digit (n : nat) : ascii :=
  match String.get n alphabet with Some c => c | None => "="%char end.

(** The position of a character in the alphabet. *)
Fixpoint position (c : ascii) (table : string) : option nat :=
  match table with
  | EmptyString => None
  | String d rest =>
      if Ascii.eqb d c then Some 0
      else match position c rest with Some n => Some (S n) | None => None end
  end.

Definition value (c : ascii) : option nat := position c alphabet.

(** [btoa(s)] on a string of code units below 256: three bytes give four
    digits; one or two bytes left over give two or three digits and
    padding. *)
Fixpoint btoa (s : string) : string :=
  match s with
  | EmptyString => EmptyString
  | String a EmptyString =>
      let x := nat_of_ascii a in
      String (digit (x / 4)) (String (digit (x mod 4 * 16)) "==")
  | String a (String b EmptyString) =>
      let x := nat_of_ascii a in
      let y := nat_of_ascii b in
      String (digit (x / 4))
        (String (digit (x mod 4 * 16 + y / 16))
           (String (digit (y mod 16 * 4)) "="))
  | String a (String b (String c rest)) =>
      let x := nat_of_ascii a in
      let y := nat_of_ascii b in
      let z := nat_of_ascii c in
      String (digit (x / 4))
        (String (digit (x mod 4 * 16 + y / 16))
           (String (digit (y mod 16 * 4 + z / 64))
              (String (digit (z mod 64)) (btoa rest))))
  end.

(** ASCII white space: tab, line feed, form feed, carriage return, space. *)
Definition is_ascii_whitespace (c : ascii) : bool :=
  let n := nat_of_ascii c in
  (n =? 9) || (n =? 10) || (n =? 12) || (n =? 13) || (n =? 32).

Definition remove_whitespace (data : list ascii) : list ascii :=
  filter (fun c => negb (is_ascii_whitespace c)) data.

(** When the length is a multiple of four, one or two padding characters
    at the end are removed. *)
Definition strip_padding (data : list ascii) : list ascii :=
  if List.length data mod 4 =? 0 then
    match rev data with
    | last :: r1 =>
        if Ascii.eqb last "=" then
          match r1 with
          | before :: r2 => if Ascii.eqb before "=" then rev r2 else rev r1
          | [] => rev r1
          end
        else data
    | [] => data
    end
  else data.

Fixpoint sextets (data : list ascii) : option (list nat) :=
  match data with
  | [] => Some []
  | c :: rest =>
      match value c, sextets rest with
      | Some n, Some ns => Some (n :: ns)
      | _, _ => None
      end
  end.

(** Four digits give three bytes; three digits left over give two bytes,
    two give one, the spare bits being dropped. *)
Fixpoint bytes (ns : list nat) : list ascii :=
  match ns with
  | a :: b :: c :: d :: rest =>
      ascii_of_nat (a * 4 + b / 16)
      :: ascii_of_nat (b mod 16 * 16 + c / 4)
      :: ascii_of_nat (c mod 4 * 64 + d)
      :: bytes rest
  | [a; b; c] => [ascii_of_nat (a * 4 + b / 16); ascii_of_nat (b mod 16 * 16 + c / 4)]
  | [a; b] => [ascii_of_nat (a * 4 + b / 16)]
  | _ => []
  end.

(** [atob(data)]; [None] is the InvalidCharacterError. *)
Definition atob (data : string) : option string :=
  let data := strip_padding (remove_whitespace (list_ascii_of_string data)) in
  if List.length data mod 4 =? 1 then None
  else
    match sextets data with
    | Some ns => Some (string_of_list_ascii (bytes ns))
    | None => None
    end.

End Base64.

(* ===================================================================== *)
(** ** API keys in the browser store: src/components/ApiKeyModal.tsx,
       src/components/AgentChat.tsx, src/App.tsx *)
(* ===================================================================== *)

Module ApiKeyStore.

Import Regex.

(** [window.localStorage]: keys to strings. *)
Definition Storage : Type := list (string * string).

Fixpoint getItem (key : string) (st : Storage) : option string :=
  match st with
  | [] => None
  | (k, v) :: rest => if (k =? key)%string then Some v else getItem key rest
  end.

Fixpoint removeItem (key : string) (st : Storage) : Storage :=
  match st with
  | [] => []
  | (k, v) :: rest =>
      if (k =? key)%string then removeItem key rest else (k, v) :: removeItem key rest
  end.

Definition setItem (key value : string) (st : Storage) : Storage :=
  (key, value) :: removeItem key st.

(** [pattern.test(s)] for a pattern that opens with the start anchor and
    has no m flag: only the attempt at position 0 can succeed. *)
Definition test_at_start (pattern : re) (s : string) : bool :=
  match match_here pattern s with Some _ => true | None => false end.

Definition in_range (lo hi c : ascii) : bool :=
  ((nat_of_ascii lo <=? nat_of_ascii c) && (nat_of_ascii c <=? nat_of_ascii hi))%nat.

Definition alnum : re :=
  Cls (fun c => in_range "A" "Z" c || in_range "a" "z" c || in_range "0" "9" c).

Definition base64_char : re :=
  Cls (fun c => in_range "A" "Z" c || in_range "a" "z" c || in_range "0" "9" c
                || Ascii.eqb c "+" || Ascii.eqb c "/").

(** [r{n,}] *)
Fixpoint at_least (n : nat) (r : re) : re :=
  match n with
  | O => Star r
  | S n' => Seq r (at_least n' r)
  end.

(** The test for a stored value that looks base64 encoded: characters of
    the alphabet, then at most two padding characters, up to the end. *)
Definition base64_like : re :=
  Seq (Star base64_char)
    (Seq (Alt (Seq (Chr "="%char) (Alt (Chr "="%char) Eps)) Eps) Eos).

(** [modelConfig[model].pattern], the same for both models: sk-, then at
    least 32 letters or digits, up to the end. *)
Definition key_pattern : re := Seq (Lit "sk-") (Seq (at_least 32 alnum) Eos).

(** [s.startsWith('sk-') && s.length >= 32] *)
Definition looks_like_key (s : string) : bool :=
  prefix "sk-" s && (32 <=? String.length s)%nat.

(** The body of [loadApiKey] once the stored value is read: the decoded
    value when the stored one looks base64 encoded and decodes to a key,
    else the stored value itself when it is a key, else the empty string. *)
Definition read_stored (saved : option string) : string :=
  match saved with
  | None => ""
  | Some savedApiKey =>
      if (savedApiKey =? "")%string then ""
      else
        let plain := if looks_like_key savedApiKey then savedApiKey else "" in
        if (20 <? String.length savedApiKey)%nat && test_at_start base64_like savedApiKey
        then
          match Base64.atob savedApiKey with
          | Some decoded => if looks_like_key decoded then decoded else plain
          | None => plain
          end
        else plain
  end.

End ApiKeyStore.

Module ApiKeyModal.

Import ApiKeyStore.

(** [loadApiKey(modelType)] of the dialog (and, with the same text, of
    [App]). *)
Definition loadApiKey (st : Storage) (modelType : string) : string :=
  read_stored (getItem ("apiKey_" ++ modelType) st).

(** [validateApiKey(key, model)] *)
Definition validateApiKey (key : string) : bool :=
  if (key =? "")%string || (String.length (JS.trim key) =? 0)%nat then false
  else test_at_start key_pattern key.

Definition status_json (deepseek qwen : bool) : string :=
  let b (x : bool) := if x then "true" else "false" in
  "{" ++ JS.quoted "deepseek" ++ ":" ++ b deepseek ++ ","
      ++ JS.quoted "qwen" ++ ":" ++ b qwen ++ "}".

(** What [handleSaveAllApiKeys] leaves: the store, the status handed to
    [onApiKeyStatusChange], and the calls of [onApiKeySaved]. *)
Record Saved : Type := mkSaved {
  storage : Storage;
  status : bool * bool;
  saved_calls : list (string * string)
}.

Definition handleSaveAllApiKeys (deepseekApiKey qwenApiKey : string) (st : Storage) : Saved :=
  let d := validateApiKey deepseekApiKey in
  let st1 := if d then setItem "apiKey_deepseek" (Base64.btoa deepseekApiKey) st else st in
  let q := validateApiKey qwenApiKey in
  let st2 := if q then setItem "apiKey_qwen" (Base64.btoa qwenApiKey) st1 else st1 in
  {| storage := setItem "apiKeyStatus" (status_json d q) st2;
     status := (d, q);
     saved_calls := (if d then [("deepseek", deepseekApiKey)] else [])
                    ++ (if q then [("qwen", qwenApiKey)] else []) |}.

Definition handleClearDeepseekApiKey (st : Storage) : Storage :=
  removeItem "apiKey_deepseek" st.

Definition handleClearQwenApiKey (st : Storage) : Storage :=
  removeItem "apiKey_qwen" st.

End ApiKeyModal.

Module AgentChatKeys.

Import ApiKeyStore.

(** [loadApiKey(modelType)] of the chat panel: the reasoner model reads
    the key stored for deepseek. *)
Definition loadApiKey (st : Storage) (modelType : string) : string :=
  let storageKey :=
    if (modelType =? "deepseek-reasoner")%string then "deepseek" else modelType in
  read_stored (getItem ("apiKey_" ++ storageKey) st).

End AgentChatKeys.

(* ===================================================================== *)
(** ** server/routes/contentRouter.cjs *)
(* ===================================================================== *)

Module ContentRoute.

Import ContentCache.
Local Open Scope cache_scope.

(** What [res.status(...).json(...)] sends. *)
Record Response : Type := mkResponse {
  status : Z;
  body : JS.value
}.

(** [(size / 1024).toFixed(1)]: the quotient is exact, and [toFixed]
    takes the nearest number of tenths, the larger one on a tie. *)
Definition kilobytes (size : Z) : string :=
  let tenths := (20 * size + 1024) / 2048 in
  JS.Z_to_string (tenths / 10) ++ "." ++ JS.Z_to_string (tenths mod 10).

Definition failure (code : Z) (message : string) : Response :=
  {| status := code;
     body := JS.Obj [("success", JS.Bool false); ("error", JS.Str message)] |}.

Section WithEnvironment.

Variable Date_now_at : nat -> Z.
Variable Math_random_at : nat -> string.
Variable generateHash : string -> string.

(** [router.post('/store')] with [content] the field of the body. *)
Definition store (content : JS.value) : M Response :=
  if negb (JS.truthy content) then ret (failure 400 "内容不能为空")
  else
    result <- storeContent Date_now_at Math_random_at generateHash content ;;
    ret {| status := 200;
           body := JS.Obj
             [("success", JS.Bool true);
              ("data", JS.Obj
                 [("contentId", match contentId result with
                                | Some id => JS.Str id
                                | None => JS.Null
                                end);
                  ("isNew", JS.Bool (isNew result));
                  ("size", JS.Num (size result) 0);
                  ("sizeFormatted", JS.Str (kilobytes (size result) ++ " KB"))])] |}.

(** [router.get('/get/:contentId')] *)
Definition get (contentId : string) : M Response :=
  content <- getContent Date_now_at contentId ;;
  match content with
  | Some text =>
      if JS.truthy (JS.Str text) then
        ret {| status := 200;
               body := JS.Obj
                 [("success", JS.Bool true);
                  ("data", JS.Obj [("contentId", JS.Str contentId);
                                   ("content", JS.Str text);
                                   ("size", JS.Num (JS.strlen text) 0)])] |}
      else ret (failure 404 "内容不存在或已过期")
  | None => ret (failure 404 "内容不存在或已过期")
  end.

(** [router.delete('/clear')] *)
Definition clear : M Response :=
  clearCache ;;;
  ret {| status := 200;
         body := JS.Obj [("success", JS.Bool true); ("message", JS.Str "缓存已清空")] |}.

End WithEnvironment.

End ContentRoute.

(* ===================================================================== *)
(** ** server/tools/toolExecutor.cjs: [executeViewFile] and
       [executeSearchInFile] *)
(* ===================================================================== *)

Module FileTools.

Import ToolExecutor.

(** [s.split('\n')]: the lines, at least one. *)
Fixpoint split_lines (s : string) : list string :=
  match s with
  | EmptyString => [EmptyString]
  | String c rest =>
      if Ascii.eqb c "010" then EmptyString :: split_lines rest
      else
        match split_lines rest with
        | line :: lines => String c line :: lines
        | [] => [String c EmptyString]
        end
  end.

(** [toLowerCase] on code units below 256: the letters A to Z and the
    capital letters of Latin-1 (192 to 222, the multiplication sign 215
    apart) move up by 32. *)
Definition lower_char (c : ascii) : ascii :=
  let n := nat_of_ascii c in
  if ((65 <=? n) && (n <=? 90) || (192 <=? n) && (n <=? 222) && negb (n =? 215))%nat
  then ascii_of_nat (n + 32) else c.

Fixpoint toLowerCase (s : string) : string :=
  match s with
  | EmptyString => EmptyString
  | String c rest => String (lower_char c) (toLowerCase rest)
  end.

(** [executeViewFile(parameters, editor_content)] *)
Definition executeViewFile (parameters : JS.value) (editor_content : option string)
  : Exn ToolResult :=
  match editor_content with
  | None => Returned (failure "编辑器内容为空")
  | Some editor_content =>
      if (editor_content =? "")%string then Returned (failure "编辑器内容为空")
      else
        match parameters with
        | JS.Undefined => Thrown "Cannot read properties of undefined (reading 'file_path')"
        | JS.Null => Thrown "Cannot read properties of null (reading 'file_path')"
        | _ =>
            let file_path := JS.get parameters "file_path" in
            Returned
              {| success := true;
                 data := JS.Obj
                   [("file_path", if JS.truthy file_path then file_path else JS.Str "main.tex");
                    ("content", JS.Str editor_content);
                    ("stats", JS.Obj
                       [("lines", JS.Num (Z.of_nat (List.length (split_lines editor_content))) 0);
                        ("characters", JS.Num (JS.strlen editor_content) 0)]);
                    ("preview",
                     JS.Str (substring 0 1000 editor_content
                             ++ (if 1000 <? JS.strlen editor_content then "..." else "")))];
                 error := None |}
        end
  end.

(** One entry of [matches]. *)
Record Match : Type := mkMatch {
  line : Z;
  position : nat;
  context : string
}.

(** The [while] loop over one line: [pos] is the occurrence found last,
    [None] being [-1]; each turn finds a later position, so a fuel above the
    length of the line is never used up. *)
Fixpoint occurrences (fuel : nat) (searchLine searchText : string) (pos : option nat)
  : list nat :=
  match fuel, pos with
  | S fuel', Some p => p :: occurrences fuel' searchLine searchText (index (p + 1) searchText searchLine)
  | _, _ => []
  end.

Definition line_matches (case_sensitive : bool) (search_text searchText : string)
           (i : nat) (line : string) : list Match :=
  let searchLine := if case_sensitive then line else toLowerCase line in
  map (fun pos =>
         let start := (pos - 20)%nat in
         let stop := Nat.min (String.length line) (pos + String.length search_text + 20) in
         {| line := Z.of_nat i + 1; position := pos;
            context := substring start (stop - start) line |})
      (occurrences (S (String.length line)) searchLine searchText
                   (index 0 searchText searchLine)).

(** [lines.forEach((line, i) => ...)] *)
Fixpoint all_matches (case_sensitive : bool) (search_text searchText : string)
         (i : nat) (lines : list string) : list Match :=
  match lines with
  | [] => []
  | line :: rest =>
      (line_matches case_sensitive search_text searchText i line
       ++ all_matches case_sensitive search_text searchText (S i) rest)%list
  end.

Definition match_value (m : Match) : JS.value :=
  JS.Obj [("line", JS.Num (line m) 0); ("position", JS.Num (Z.of_nat (position m)) 0);
          ("context", JS.Str (context m))].

Section WithCoercions.

(** The search with a [search_text] that is not a string, in the
    case-sensitive mode, where [indexOf] and [length] coerce it. *)
Variable searchCoerced : JS.value -> JS.value -> string -> Exn ToolResult.

(** [executeSearchInFile(parameters, editor_content)] *)
Definition executeSearchInFile (parameters : JS.value) (editor_content : option string)
  : Exn ToolResult :=
  match editor_content with
  | None => Returned (failure "编辑器内容为空")
  | Some editor_content =>
      if (editor_content =? "")%string then Returned (failure "编辑器内容为空")
      else
        match parameters with
        | JS.Undefined | JS.Null =>
            Thrown "Cannot destructure property 'search_text' of 'parameters'"
        | _ =>
            let search_text := JS.get parameters "search_text" in
            let case_sensitive :=
              match JS.get parameters "case_sensitive" with
              | JS.Undefined => JS.Bool false
              | v => v
              end in
            if negb (JS.truthy search_text) then Returned (failure "搜索文本不能为空")
            else
              match search_text with
              | JS.Str text =>
                  let sensitive := JS.truthy case_sensitive in
                  let searchText := if sensitive then text else toLowerCase text in
                  let matches :=
                    all_matches sensitive text searchText 0 (split_lines editor_content) in
                  Returned
                    {| success := true;
                       data := JS.Obj
                         [("search_text", search_text);
                          ("case_sensitive", case_sensitive);
                          ("total_matches", JS.Num (Z.of_nat (List.length matches)) 0);
                          ("matches", JS.Arr (map match_value (firstn 20 matches)))];
                       error := None |}
              | _ =>
                  if JS.truthy case_sensitive
                  then searchCoerced search_text case_sensitive editor_content
                  else Thrown "search_text.toLowerCase is not a function"
              end
        end
  end.

End WithCoercions.

End FileTools.

(* ===================================================================== *)
(** ** server/tools/toolDefinitions.cjs: [extractArxivId] *)
(* ===================================================================== *)

Module ArxivId.

Import Regex.

Definition is_digit (c : ascii) : bool :=
  ((48 <=? nat_of_ascii c) && (nat_of_ascii c <=? 57))%nat.

Definition digit : re := Cls is_digit.

(** The pattern: digits, a dot, digits (group 1), then optionally the
    letter v and digits (group 2). *)
Definition pattern : re :=
  Seq (Grp 1 (Seq (Plus digit) (Seq (Chr "."%char) (Plus digit))))
      (Alt (Grp 2 (Seq (Chr "v"%char) (Plus digit))) Eps).

(** [extractArxivId(idOrUrl)]; [Returned None] is [null], and a truthy
    value that is not a string has no [match] method. *)
Definition extractArxivId (idOrUrl : JS.value) : Exn (option string) :=
  if negb (JS.truthy idOrUrl) then Returned None
  else
    match idOrUrl with
    | JS.Str text =>
        match exec pattern text with
        | Some found => Returned (Some (group 1 found))
        | None => Returned None
        end
    | _ => Thrown "idOrUrl.match is not a function"
    end.

End ArxivId.

(* ===================================================================== *)
(** ** src/services/agentService.ts: the content cache of the client *)
(* ===================================================================== *)

Module AgentService.

(** [ToInt32]: the value modulo 2^32, between -2^31 and 2^31 - 1. *)
Definition to_int32 (z : Z) : Z := (z + 2 ^ 31) mod 2 ^ 32 - 2 ^ 31.

(** [hash << 5] *)
Definition shl5 (hash : Z) : Z := to_int32 (to_int32 hash * 32).

(** The loop of [simpleHash]: [hash = ((hash << 5) - hash) + char], then
    [hash = hash & hash]. *)
Fixpoint hash_loop (content : string) (hash : Z) : Z :=
  match content with
  | EmptyString => hash
  | String c rest =>
      hash_loop rest (to_int32 (shl5 hash - hash + Z.of_nat (nat_of_ascii c)))
  end.

(** [n.toString(16)] of an integer. *)
Definition to_hex (n : Z) : string :=
  HexadecimalString.NilZero.string_of_int (Z.to_hex_int n).

(** [simpleHash(content)] *)
Definition simpleHash (content : string) : string := to_hex (hash_loop content 0).

(** [cachedContentId] and [cachedContentHash]; [JS.Null] and [None] are
    [null]. *)
Record Cached : Type := mkCached {
  cachedContentId : JS.value;
  cachedContentHash : option string
}.

Definition nothing_cached : Cached :=
  {| cachedContentId := JS.Null; cachedContentHash := None |}.

(** What [fetch] and [response.json()] give for the upload: the request
    fails, or a response arrives with its [ok] flag, its status and its
    body, which may not parse. *)
Inductive Fetched : Type :=
| NetworkFailure (message : string)
| Responded (ok : bool) (status : Z) (json : Exn JS.value).

(** One call of [storeContent]: what it returns or throws, the cache
    variables after it, and the contents it uploaded. *)
Record Stored : Type := mkStored {
  outcome : Exn (JS.value * JS.value);   (* contentId, isNew *)
  cached : Cached;
  uploads : list string
}.

Section WithServer.

(** The server's answer to an upload of [content]. *)
Variable upload : string -> Fetched.

Definition failed (message : string) (content : string) : Stored :=
  {| outcome := Thrown message; cached := nothing_cached; uploads := [content] |}.

(** [agentService.storeContent(content)] *)
Definition storeContent (content : string) (st : Cached) : Stored :=
  let contentHash := simpleHash content in
  if JS.truthy (cachedContentId st)
     && match cachedContentHash st with
        | Some h => (h =? contentHash)%string
        | None => false
        end
  then {| outcome := Returned (cachedContentId st, JS.Bool false);
          cached := st; uploads := [] |}
  else
    match upload content with
    | NetworkFailure message => failed message content
    | Responded false status _ =>
        failed ("上传失败: " ++ JS.Z_to_string status) content
    | Responded true _ (Thrown message) => failed message content
    | Responded true _ (Returned result) =>
        match result with
        | JS.Null => failed "Cannot read properties of null (reading 'success')" content
        | JS.Undefined =>
            failed "Cannot read properties of undefined (reading 'success')" content
        | _ =>
            if JS.truthy (JS.get result "success") then
              match JS.get result "data" with
              | JS.Null =>
                  failed "Cannot read properties of null (reading 'contentId')" content
              | JS.Undefined =>
                  failed "Cannot read properties of undefined (reading 'contentId')" content
              | data =>
                  if JS.truthy (JS.get data "contentId") then
                    {| outcome := Returned (JS.get data "contentId", JS.get data "isNew");
                       cached := {| cachedContentId := JS.get data "contentId";
                                    cachedContentHash := Some contentHash |};
                       uploads := [content] |}
                  else failed "无效的服务器响应" content
              end
            else failed "无效的服务器响应" content
        end
    end.

(** [clearContentCache()] and [getContentId()] *)
Definition clearContentCache (st : Cached) : Cached := nothing_cached.
Definition getContentId (st : Cached) : JS.value := cachedContentId st.

End WithServer.

End AgentService.

(* ===================================================================== *)
(** ** Reading a stream of server-sent events line by line *)
(* ===================================================================== *)

Module Lines.

(** [const lines = buffer.split('\n'); buffer = lines.pop() || '']: the
    complete lines and the unfinished rest. *)
Definition pop_lines (buffer : string) : list string * string :=
  let all := FileTools.split_lines buffer in (removelast all, last all "").

(** [for (const line of lines) { ... }] with a body that may [return]:
    the flag tells that it did. *)
Fixpoint for_lines {S : Type} (body : string -> S -> S * bool) (lines : list string) (st : S)
  : S * bool :=
  match lines with
  | [] => (st, false)
  | line :: rest =>
      let (st', returned) := body line st in
      if returned then (st', true) else for_lines body rest st'
  end.

(** [line.startsWith('data: ') ? line.slice(6) : none] *)
Definition data_of (line : string) : option string :=
  if prefix "data: " line then Some (substring 6 (String.length line - 6) line) else None.

(** [v?.[0]] and [v?.k] on a parsed value. *)
Definition first_of (v : JS.value) : JS.value :=
  match v with
  | JS.Arr (x :: _) => x
  | JS.Str (String c _) => JS.Str (String c "")
  | JS.Obj _ => JS.get v "0"
  | _ => JS.Undefined
  end.

Definition opt_get (v : JS.value) (k : string) : JS.value :=
  match v with
  | JS.Undefined | JS.Null => JS.Undefined
  | _ => JS.get v k
  end.

(** [v || ''] *)
Definition or_empty (v : JS.value) : JS.value := if JS.truthy v then v else JS.Str "".

End Lines.

(* ===================================================================== *)
(** ** server/aiApi.cjs: the decoder of [callDeepSeekApiStream] *)
(* ===================================================================== *)

Module AiApi.

Import Lines.

(** One call of [onChunk(content, fullResponse, reasoningContent,
    fullReasoningContent)]. *)
Record Call : Type := mkCall {
  content : JS.value;
  full_response : string;
  reasoning_content : JS.value;
  full_reasoning : string
}.

(** How the promise settles: [resolve({ response, reasoning })] or
    [reject(new Error(message))]. *)
Inductive Settled : Type :=
| Resolved (response reasoning : string)
| Rejected (message : string).

(** The variables of the decoder, the calls of [onChunk] so far (a
    callback that is given and returns normally), and the promise: once
    settled, with the calls made before that.  A chunk is the text that
    [chunk.toString()] gives. *)
Record Decoder : Type := mkDecoder {
  buffer : string;
  fullResponse : string;
  fullReasoningContent : string;
  calls : list Call;
  promise : option (Settled * list Call)
}.

Definition start : Decoder :=
  {| buffer := ""; fullResponse := ""; fullReasoningContent := ""; calls := [];
     promise := None |}.

(** How the upstream response ends: the [end] event or the [error]
    event. *)
Inductive Ending : Type :=
| Ended
| Errored (message : string).

Section WithCoercion.

(** [ToString] on the values that are not strings. *)
Variable ToString : JS.value -> string.

Definition text_of (v : JS.value) : string :=
  match v with
  | JS.Str s => s
  | _ => ToString v
  end.

(** A settled promise stays as it is. *)
Definition settle (how : Settled) (st : Decoder) : Decoder :=
  match promise st with
  | Some _ => st
  | None =>
      {| buffer := buffer st; fullResponse := fullResponse st;
         fullReasoningContent := fullReasoningContent st; calls := calls st;
         promise := Some (how, calls st) |}
  end.

Definition resolve (st : Decoder) : Decoder :=
  settle (Resolved (fullResponse st) (fullReasoningContent st)) st.

(** [parsed.choices?.[0]?.delta || {}]; [None] is the TypeError on a
    [null] payload. *)
Definition delta_of (parsed : JS.value) : option JS.value :=
  match parsed with
  | JS.Null | JS.Undefined => None
  | _ =>
      let delta := opt_get (first_of (JS.get parsed "choices")) "delta" in
      Some (if JS.truthy delta then delta else JS.Obj [])
  end.

(** The [try] block for one payload: a payload that does not parse, or
    is [null], changes nothing. *)
Definition handle (data : string) (st : Decoder) : Decoder :=
  match Json.parse data with
  | None => st
  | Some parsed =>
      match delta_of parsed with
      | None => st
      | Some delta =>
          let content := or_empty (JS.get delta "content") in
          let full :=
            if JS.truthy content then fullResponse st ++ text_of content
            else fullResponse st in
          let reasoningContent := or_empty (JS.get delta "reasoning_content") in
          let fullReasoning :=
            if JS.truthy reasoningContent
            then fullReasoningContent st ++ text_of reasoningContent
            else fullReasoningContent st in
          {| buffer := buffer st; fullResponse := full;
             fullReasoningContent := fullReasoning;
             calls := if JS.truthy content || JS.truthy reasoningContent
                      then (calls st ++ [ {| content := content; full_response := full;
                                             reasoning_content := reasoningContent;
                                             full_reasoning := fullReasoning |} ])%list
                      else calls st;
             promise := promise st |}
      end
  end.

(** The body of the loop over the lines of a chunk. *)
Definition line_body (line : string) (st : Decoder) : Decoder * bool :=
  match data_of line with
  | Some data =>
      if (data =? "[DONE]")%string then (resolve st, true) else (handle data st, false)
  | None => (st, false)
  end.

(** [response.data.on('data', chunk => ...)] *)
Definition on_data (chunk : string) (st : Decoder) : Decoder :=
  let (lines, rest) := pop_lines (buffer st ++ chunk) in
  fst (for_lines line_body lines
         {| buffer := rest; fullResponse := fullResponse st;
            fullReasoningContent := fullReasoningContent st; calls := calls st;
            promise := promise st |}).

(** [response.data.on('end', () => ...)] *)
Definition on_end (st : Decoder) : Decoder :=
  resolve
    (if (JS.trim (buffer st) =? "")%string then st
     else
       match data_of (buffer st) with
       | Some data => if (data =? "[DONE]")%string then st else handle data st
       | None => st
       end).

(** [response.data.on('error', error => ...)] *)
Definition on_error (message : string) (st : Decoder) : Decoder :=
  settle (Rejected ("流式响应失败: " ++ message)) st.

(** The decoder after the chunks of the upstream response and its end. *)
Definition decode (chunks : list string) (ending : Ending) : Decoder :=
  let st := fold_left (fun st chunk => on_data chunk st) chunks start in
  match ending with
  | Ended => on_end st
  | Errored message => on_error message st
  end.

End WithCoercion.

End AiApi.

(* ===================================================================== *)
(** ** src/services/agentService.ts: the reader of [sendStreamRequest] *)
(* ===================================================================== *)

Module StreamReader.

Import Lines.

(** How the promise returned by [sendStreamRequest] settles once the
    response is being read: [resolve({ response, reasoning, tool_calls })],
    or [reject] with the error message of the event or with the error of
    the reader. *)
Inductive Settled : Type :=
| Resolved (response reasoning tool_calls : JS.value)
| RejectedByEvent (errorMsg : JS.value)
| RejectedByReader (message : string).

(** The buffer, the events handed to [onEvent] so far (a callback that
    is given and returns normally on an event that is not [null]), the
    promise, and whether [readStream] has returned.  A chunk is the text
    that the decoder gives for a value read. *)
Record Reader : Type := mkReader {
  buffer : string;
  events : list JS.value;
  promise : option Settled;
  returned : bool
}.

Definition start : Reader :=
  {| buffer := ""; events := []; promise := None; returned := false |}.

Definition settle (how : Settled) (st : Reader) : Reader :=
  match promise st with
  | Some _ => st
  | None => {| buffer := buffer st; events := events st; promise := Some how;
               returned := returned st |}
  end.

Definition emit (event : JS.value) (st : Reader) : Reader :=
  {| buffer := buffer st; events := (events st ++ [event])%list; promise := promise st;
     returned := returned st |}.

Definition type_is (event : JS.value) (name : string) : bool :=
  match JS.get event "type" with
  | JS.Str t => (t =? name)%string
  | _ => false
  end.

(** The [try] block for one payload: the event is handed to [onEvent];
    a [complete] event resolves the promise; an [error] event is followed
    by a second call of [onEvent] and rejects it.  Reading [type] of a
    [null] event throws, after [onEvent] was called with it. *)
Definition handle (data : string) (st : Reader) : Reader :=
  match Json.parse data with
  | None => st
  | Some event =>
      let st1 := emit event st in
      match event with
      | JS.Null | JS.Undefined => st1
      | _ =>
          let st2 :=
            if type_is event "complete" then
              settle (Resolved (or_empty (JS.get event "full_response"))
                        (JS.get event "full_reasoning") (JS.get event "tool_calls")) st1
            else st1 in
          if type_is event "error" then
            let errorMsg :=
              if JS.truthy (JS.get event "error") then JS.get event "error"
              else JS.Str "流式响应错误" in
            settle (RejectedByEvent errorMsg)
              (emit (JS.Obj [("type", JS.Str "error"); ("error", errorMsg)]) st2)
          else st2
      end
  end.

Definition line_body (line : string) (st : Reader) : Reader * bool :=
  match data_of line with
  | Some data =>
      if (data =? "[DONE]")%string then (st, true) else (handle data st, false)
  | None => (st, false)
  end.

(** One turn of the [while (true)] loop for a chunk that was read. *)
Definition on_chunk (chunk : string) (st : Reader) : Reader :=
  if returned st then st
  else
    let (lines, rest) := pop_lines (buffer st ++ chunk) in
    let (st', done) :=
      for_lines line_body lines
        {| buffer := rest; events := events st; promise := promise st;
           returned := false |} in
    {| buffer := buffer st'; events := events st'; promise := promise st';
       returned := done |}.

(** How the body of the response ends: [read()] reports [done], or
    rejects. *)
Inductive Ending : Type :=
| Finished
| Failed (message : string).

Definition on_ending (ending : Ending) (st : Reader) : Reader :=
  if returned st then st
  else
    match ending with
    | Finished => {| buffer := buffer st; events := events st; promise := promise st;
                     returned := true |}
    | Failed message =>
        {| buffer := buffer st; events := events st;
           promise := promise (settle (RejectedByReader message) st); returned := true |}
    end.

(** The reader after the chunks of the response body and its end. *)
Definition read (chunks : list string) (ending : Ending) : Reader :=
  on_ending ending (fold_left (fun st chunk => on_chunk chunk st) chunks start).

End StreamReader.

(* ===================================================================== *)
(** * Properties of the content cache *)
(* ===================================================================== *)

Module ContentCacheFacts.

Import ContentCache.

Definition keys (c : Cache) : list string := map fst c.
Definition hashes (c : Cache) : list string := map (fun kv => hash (snd kv)) c.

(** The invariant of the map: distinct non-empty keys, distinct hashes, at
    most [CACHE_MAX_SIZE] entries. *)
Record wf (c : Cache) : Prop := mkWf {
  wf_keys : NoDup (keys c);
  wf_hashes : NoDup (hashes c);
  wf_size : (map_size c <= CACHE_MAX_SIZE)%nat;
  wf_nonempty : Forall (fun kv => fst kv <> "") c
}.

Lemma map_delete_filter id c :
  map_delete id c = filter (fun kv => negb (fst kv =? id)%string) c.
Proof.
  induction c as [|[k e] c IH]; simpl; [reflexivity|].
  destruct (k =? id)%string; simpl; now rewrite IH.
Qed.

Lemma NoDup_map_filter {E K} (key : E -> K) (keep : E -> bool) (entries : list E)
      (Hdistinct : NoDup (map key entries)) :
  NoDup (map key (filter keep entries)).
Proof.
  induction entries as [|x rest IH]; simpl; [constructor|].
  inversion Hdistinct as [|? ? Hfirst Hrest]; subst.
  destruct (keep x); simpl; [constructor|]; auto.
  intros Hin. apply Hfirst. apply in_map_iff in Hin as [y [Hy Hin]].
  apply filter_In in Hin as [Hin _]. apply in_map_iff. eauto.
Qed.

Lemma filter_length_le {A} (p : A -> bool) (l : list A) :
  (List.length (filter p l) <= List.length l)%nat.
Proof. induction l; simpl; [lia|]. destruct (p a); simpl; lia. Qed.

Lemma wf_filter p c : wf c -> wf (filter p c).
Proof.
  intros [Hk Hh Hs Hn]. split.
  - now apply NoDup_map_filter.
  - now apply (NoDup_map_filter (fun kv => hash (snd kv))).
  - unfold map_size in *. pose proof (filter_length_le p c). lia.
  - apply Forall_forall. intros x Hx. apply filter_In in Hx as [Hx _].
    rewrite Forall_forall in Hn. auto.
Qed.

Lemma wf_delete id c : wf c -> wf (map_delete id c).
Proof. rewrite map_delete_filter. apply wf_filter. Qed.

Lemma map_get_delete id c : map_get id (map_delete id c) = None.
Proof.
  induction c as [|[k e] c IH]; simpl; [reflexivity|].
  destruct (k =? id)%string eqn:E; simpl; [assumption|]. now rewrite E.
Qed.

Lemma map_get_In id e c : map_get id c = Some e -> In (id, e) c.
Proof.
  induction c as [|[k e'] c IH]; simpl; [discriminate|].
  destruct (k =? id)%string eqn:E.
  - apply String.eqb_eq in E. subst. intros [= ->]. now left.
  - intros H. right. auto.
Qed.

Lemma In_map_get id e c : NoDup (keys c) -> In (id, e) c -> map_get id c = Some e.
Proof.
  induction c as [|[k e'] c IH]; simpl; intros Hnd Hin; [contradiction|].
  inversion Hnd as [|? ? Hn Hd]; subst.
  destruct Hin as [[= -> ->]|Hin].
  - now rewrite String.eqb_refl.
  - destruct (k =? id)%string eqn:E; [|auto].
    apply String.eqb_eq in E. subst. exfalso. apply Hn.
    apply in_map_iff. exists (id, e). auto.
Qed.

Lemma map_get_None_keys id c : map_get id c = None <-> ~ In id (keys c).
Proof.
  induction c as [|[k e] c IH]; simpl; [tauto|].
  destruct (k =? id)%string eqn:E.
  - apply String.eqb_eq in E. subst. split; [discriminate|]. intros H. exfalso. auto.
  - apply String.eqb_neq in E. rewrite IH. tauto.
Qed.

Lemma delete_length_lt id c :
  In id (keys c) -> (List.length (map_delete id c) < List.length c)%nat.
Proof.
  induction c as [|[k e] c IH]; simpl; [contradiction|].
  destruct (k =? id)%string eqn:E.
  - intros _. rewrite map_delete_filter.
    pose proof (filter_length_le (fun kv => negb (fst kv =? id)%string) c). lia.
  - apply String.eqb_neq in E. intros [H|H]; [contradiction|]. simpl.
    apply IH in H. lia.
Qed.

(** *** [map_set] *)

Lemma map_set_length id e c :
  List.length (map_set id e c) =
  match map_get id c with Some _ => List.length c | None => S (List.length c) end.
Proof.
  induction c as [|[k e'] c IH]; simpl; [reflexivity|].
  destruct (k =? id)%string; simpl; [reflexivity|].
  rewrite IH. now destruct (map_get id c).
Qed.

Lemma map_set_fresh id e c : map_get id c = None -> map_set id e c = (c ++ [(id, e)])%list.
Proof.
  induction c as [|[k e'] c IH]; simpl; [reflexivity|].
  destruct (k =? id)%string; [discriminate|]. intros H. now rewrite IH.
Qed.

Lemma map_set_keys_In id e c k :
  In k (keys (map_set id e c)) <-> In k (keys c) \/ k = id.
Proof.
  induction c as [|[k' e'] c IH]; simpl.
  - intuition.
  - destruct (k' =? id)%string eqn:E; simpl.
    + apply String.eqb_eq in E. subst. intuition.
    + rewrite IH. tauto.
Qed.

Lemma map_set_keys_NoDup id e c : NoDup (keys c) -> NoDup (keys (map_set id e c)).
Proof.
  induction c as [|[k e'] c IH]; simpl; intros H.
  - constructor; [intros []|constructor].
  - inversion H as [|? ? Hn Hd]; subst.
    destruct (k =? id)%string eqn:E; simpl.
    + constructor; assumption.
    + apply String.eqb_neq in E. constructor; [|auto].
      rewrite map_set_keys_In. intros [Hin|Heq]; [auto|congruence].
Qed.

Lemma map_set_hashes_In id e c h :
  In h (hashes (map_set id e c)) -> In h (hashes c) \/ h = hash e.
Proof.
  induction c as [|[k' e'] c IH]; simpl.
  - intuition.
  - destruct (k' =? id)%string eqn:E; simpl.
    + intuition.
    + intros [H|H]; [auto|]. apply IH in H. tauto.
Qed.

Lemma map_set_hashes_NoDup id e c :
  ~ In (hash e) (hashes c) -> NoDup (hashes c) -> NoDup (hashes (map_set id e c)).
Proof.
  induction c as [|[k e'] c IH]; simpl; intros Hnew H.
  - constructor; [intros []|constructor].
  - inversion H as [|? ? Hn Hd]; subst.
    destruct (k =? id)%string eqn:E; simpl.
    + constructor; [|assumption]. intros Hin. apply Hnew. now right.
    + constructor.
      * intros Hin. apply map_set_hashes_In in Hin as [Hin|Heq]; [auto|].
        apply Hnew. left. now rewrite Heq.
      * apply IH; [|assumption]. intros Hin. apply Hnew. now right.
Qed.

(** Refreshing an entry in place changes neither keys nor hashes. *)
Lemma map_set_touch id e now c :
  map_get id c = Some e ->
  keys (map_set id (touch now e) c) = keys c /\
  hashes (map_set id (touch now e) c) = hashes c /\
  List.length (map_set id (touch now e) c) = List.length c.
Proof.
  induction c as [|[k e'] c IH]; simpl; [discriminate|].
  destruct (k =? id)%string eqn:E; simpl.
  - intros [= ->]. auto.
  - intros H. destruct (IH H) as (-> & -> & ->). auto.
Qed.

Lemma wf_touch id e now c : wf c -> map_get id c = Some e -> wf (map_set id (touch now e) c).
Proof.
  intros [Hk Hh Hs Hn] Hget.
  destruct (map_set_touch id e now c Hget) as (Ek & Eh & El).
  split.
  - now rewrite Ek.
  - now rewrite Eh.
  - unfold map_size in *. now rewrite El.
  - apply Forall_forall. intros [k x] Hin. simpl.
    assert (In k (keys (map_set id (touch now e) c))) as Hk'
        by (apply in_map_iff; exists (k, x); auto).
    rewrite Ek in Hk'. apply in_map_iff in Hk' as [[k' x'] [Hf Hin']].
    simpl in Hf. subst. rewrite Forall_forall in Hn. apply (Hn _ Hin').
Qed.

(** *** The lookup by hash *)

Lemma find_hash_None h c : find_hash h c = None -> ~ In h (hashes c).
Proof.
  induction c as [|[k e] c IH]; simpl; [tauto|].
  destruct (hash e =? h)%string eqn:E; [discriminate|].
  apply String.eqb_neq in E. intros H [Heq|Hin]; [congruence|]. now apply IH.
Qed.

Lemma find_hash_Some h c id e :
  find_hash h c = Some (id, e) -> In (id, e) c /\ hash e = h.
Proof.
  induction c as [|[k e'] c IH]; simpl; [discriminate|].
  destruct (hash e' =? h)%string eqn:E.
  - apply String.eqb_eq in E. intros [= -> ->]. auto.
  - intros H. apply IH in H as [H1 H2]. auto.
Qed.

Lemma not_In_find_hash h c : ~ In h (hashes c) -> find_hash h c = None.
Proof.
  induction c as [|[k e] c IH]; simpl; [reflexivity|]. intros H.
  destruct (hash e =? h)%string eqn:E.
  - apply String.eqb_eq in E. exfalso. auto.
  - apply IH. tauto.
Qed.

(** *** The scan for the oldest entry *)

Lemma scan_invariant c : forall id e,
    exists id' e',
      fold_left scan_step c (Some id, Some (lastAccess e)) = (Some id', Some (lastAccess e')) /\
      ((id', e') = (id, e) \/ In (id', e') c) /\
      lastAccess e' <= lastAccess e /\
      (forall kv, In kv c -> lastAccess e' <= lastAccess (snd kv)).
Proof.
  induction c as [|[k x] c IH]; intros id e; simpl.
  - exists id, e. repeat split; auto; try lia; intros kv [].
  - unfold scan_step at 2. simpl.
    destruct (lastAccess x <? lastAccess e) eqn:E.
    + apply Z.ltb_lt in E.
      destruct (IH k x) as (id' & e' & Hf & Hin & Hle & Hmin).
      exists id', e'. repeat split; auto.
      * destruct Hin as [[= -> ->]|Hin]; auto.
      * lia.
      * intros kv [<-|Hkv]; simpl; auto.
    + apply Z.ltb_ge in E.
      destruct (IH id e) as (id' & e' & Hf & Hin & Hle & Hmin).
      exists id', e'. repeat split; auto.
      * destruct Hin as [Hin|Hin]; auto.
      * intros kv [<-|Hkv]; simpl; auto. lia.
Qed.

(** On a non-empty map the scan returns the key of an entry whose
    [lastAccess] is minimal. *)
Lemma find_oldest_spec c :
  c <> [] ->
  exists id e, find_oldest c = Some id /\ In (id, e) c /\
               forall kv, In kv c -> lastAccess e <= lastAccess (snd kv).
Proof.
  destruct c as [|[k x] c]; [congruence|]. intros _.
  unfold find_oldest. simpl. unfold scan_step at 2. simpl.
  destruct (scan_invariant c k x) as (id' & e' & Hf & Hin & Hle & Hmin).
  exists id', e'. rewrite Hf. simpl. repeat split.
  - destruct Hin as [[= -> ->]|Hin]; [now left|now right].
  - intros kv [<-|Hkv]; simpl; auto.
Qed.

Lemma NoDup_map_eq {A B} (f : A -> B) (l : list A) x y :
  NoDup (map f l) -> In x l -> In y l -> f x = f y -> x = y.
Proof.
  induction l as [|a l IH]; simpl; intros Hnd Hx Hy Hf; [contradiction|].
  inversion Hnd as [|? ? Hn Hd]; subst.
  destruct Hx as [->|Hx], Hy as [->|Hy]; auto.
  - exfalso. apply Hn. rewrite Hf. now apply in_map.
  - exfalso. apply Hn. rewrite <- Hf. now apply in_map.
Qed.

Lemma find_hash_unique c id e :
  NoDup (hashes c) -> In (id, e) c -> find_hash (hash e) c = Some (id, e).
Proof.
  intros Hnd Hin.
  destruct (find_hash (hash e) c) as [[id' e']|] eqn:Hf.
  - apply find_hash_Some in Hf as [Hin' Hh].
    f_equal. apply (NoDup_map_eq (fun kv => hash (snd kv)) c); auto.
  - exfalso. apply (find_hash_None _ _ Hf). apply in_map_iff. exists (id, e). auto.
Qed.

Lemma map_get_set_same id e c : map_get id (map_set id e c) = Some e.
Proof.
  induction c as [|[k e'] c IH]; simpl.
  - now rewrite String.eqb_refl.
  - destruct (k =? id)%string eqn:E; simpl; now rewrite E.
Qed.

Lemma delete_length_pred id c :
  NoDup (keys c) -> In id (keys c) -> S (List.length (map_delete id c)) = List.length c.
Proof.
  induction c as [|[k e] c IH]; simpl; intros Hnd Hin; [contradiction|].
  inversion Hnd as [|? ? Hn Hd]; subst.
  destruct (k =? id)%string eqn:E.
  - apply String.eqb_eq in E. subst. f_equal.
    rewrite map_delete_filter. 
    assert (forall l, ~ In id (keys l) ->
                      filter (fun kv => negb (fst kv =? id)%string) l = l) as Hid.
    { induction l as [|[k' e'] l IHl]; simpl; intros Hl; [reflexivity|].
      destruct (k' =? id)%string eqn:E'.
      - apply String.eqb_eq in E'. subst. exfalso. auto.
      - simpl. f_equal. apply IHl. tauto. }
    now rewrite Hid.
  - apply String.eqb_neq in E. destruct Hin as [Hin|Hin]; [contradiction|].
    simpl. f_equal. now apply IH.
Qed.

Lemma filter_all {A} (p : A -> bool) (l : list A) :
  (forall x, In x l -> p x = true) -> filter p l = l.
Proof.
  induction l as [|a l IH]; simpl; intros H; [reflexivity|].
  rewrite (H a) by now left. f_equal. apply IH. intros x Hx. apply H. now right.
Qed.

Lemma filter_some_out {A} (p : A -> bool) (l : list A) x :
  In x l -> p x = false -> (List.length (filter p l) < List.length l)%nat.
Proof.
  induction l as [|a l IH]; simpl; intros Hin Hp; [contradiction|].
  destruct Hin as [->|Hin].
  - rewrite Hp. pose proof (filter_length_le p l). lia.
  - specialize (IH Hin Hp). destruct (p a); simpl; lia.
Qed.

(** *** The operations as equations on the world *)

(** The map after [cleanExpiredCache] read the clock as [now]. *)
Definition live (now : Z) (c : Cache) : Cache :=
  filter (fun kv => negb (expired now (snd kv))) c.

(** The map after the capacity check. *)
Definition evict (c : Cache) : Cache :=
  if (CACHE_MAX_SIZE <=? map_size c)%nat then
    match find_oldest c with
    | Some oldestId => if JS.truthy (JS.Str oldestId) then map_delete oldestId c else c
    | None => c
    end
  else c.

Lemma wf_evict_room c : wf c -> wf (evict c) /\ (map_size (evict c) < CACHE_MAX_SIZE)%nat.
Proof.
  intros Hwf. unfold evict.
  destruct (CACHE_MAX_SIZE <=? map_size c)%nat eqn:E.
  - apply Nat.leb_le in E.
    assert (c <> []) as Hne by (intros ->; unfold CACHE_MAX_SIZE in E; simpl in E; lia).
    destruct (find_oldest_spec c Hne) as (id & e & -> & Hin & _).
    assert (id <> "") as Hid.
    { pose proof (wf_nonempty c Hwf) as Hn. rewrite Forall_forall in Hn.
      apply (Hn _ Hin). }
    simpl. apply String.eqb_neq in Hid. rewrite Hid. simpl.
    split; [now apply wf_delete|].
    assert (In id (keys c)) as Hk by (apply in_map_iff; exists (id, e); auto).
    apply delete_length_lt in Hk. pose proof (wf_size c Hwf). unfold map_size in *. lia.
  - apply Nat.leb_gt in E. auto.
Qed.

Section WithEnvironment.

Variable Date_now_at : nat -> Z.
Variable Math_random_at : nat -> string.
Variable generateHash : string -> string.

Local Abbreviation storeContent := (storeContent Date_now_at Math_random_at generateHash).
Local Abbreviation getContent := (getContent Date_now_at).
Local Abbreviation cleanExpiredCache := (cleanExpiredCache Date_now_at).
Local Abbreviation run_op := (run_op Date_now_at Math_random_at generateHash).
Local Abbreviation run_ops := (run_ops Date_now_at Math_random_at generateHash).

(** The guard of [storeContent] lets exactly the non-empty strings pass. *)
Lemma storeContent_invalid arg w :
  (forall s, arg = JS.Str s -> s = "") ->
  storeContent arg w = ({| contentId := None; isNew := false; size := 0 |}, w).
Proof.
  intros H. unfold ContentCache.storeContent.
  destruct arg as [| |b|m e|s|l|l]; simpl; rewrite ?orb_true_r; try reflexivity.
  rewrite (H s eq_refl). reflexivity.
Qed.

Lemma storeContent_hit content w id cached :
  content <> "" ->
  find_hash (generateHash content) (contentCache w) = Some (id, cached) ->
  storeContent (JS.Str content) w =
  ({| contentId := Some id; isNew := false;
      size := JS.strlen (ContentCache.content cached) |},
   {| contentCache := map_set id (touch (Date_now_at (dateCalls w)) cached)
                        (contentCache w);
      dateCalls := S (dateCalls w);
      randomCalls := randomCalls w |}).
Proof.
  intros Hne Hfind. apply String.eqb_neq in Hne.
  unfold ContentCache.storeContent. simpl. rewrite Hne. simpl.
  unfold bind, getCache. simpl. rewrite Hfind. reflexivity.
Qed.

(** The identifier and the entry a miss creates. *)
Definition new_id (w : World) : string :=
  content_id (Date_now_at (S (dateCalls w))) (Math_random_at (randomCalls w)).

Definition new_entry (content : string) (w : World) : CacheEntry :=
  {| ContentCache.content := content; hash := generateHash content;
     createTime := Date_now_at (S (S (dateCalls w)));
     lastAccess := Date_now_at (S (S (S (dateCalls w)))) |}.

Lemma storeContent_new content w :
  content <> "" ->
  find_hash (generateHash content) (contentCache w) = None ->
  storeContent (JS.Str content) w =
  ({| contentId := Some (new_id w); isNew := true; size := JS.strlen content |},
   {| contentCache :=
        map_set (new_id w) (new_entry content w)
          (evict (live (Date_now_at (dateCalls w)) (contentCache w)));
      dateCalls := S (S (S (S (dateCalls w))));
      randomCalls := S (randomCalls w) |}).
Proof.
  intros Hne Hfind. apply String.eqb_neq in Hne. destruct w as [c d r].
  unfold ContentCache.storeContent. cbn [JS.truthy JS.typeof]. rewrite Hne.
  cbn [negb orb String.eqb Ascii.eqb Bool.eqb].
  unfold bind, getCache, ret. cbn [contentCache dateCalls randomCalls] in *.
  cbv beta iota zeta. rewrite Hfind.
  unfold ContentCache.cleanExpiredCache, evictIfFull, generateContentId, bind, getCache,
    setCache, Date_now, Math_random, ret.
  cbn [contentCache dateCalls randomCalls]. cbv beta iota zeta.
  cbn [contentCache dateCalls randomCalls].
  fold (live (Date_now_at d) c). unfold evict, new_id, new_entry.
  cbn [contentCache dateCalls randomCalls].
  destruct (CACHE_MAX_SIZE <=? map_size (live (Date_now_at d) c))%nat; [|reflexivity].
  destruct (find_oldest (live (Date_now_at d) c)) as [oldestId|]; [|reflexivity].
  destruct (JS.truthy (JS.Str oldestId)); reflexivity.
Qed.

Lemma getContent_missing id w :
  map_get id (contentCache w) = None -> getContent id w = (None, w).
Proof.
  intros H. unfold ContentCache.getContent.
  destruct (negb (JS.truthy (JS.Str id))); [reflexivity|].
  unfold bind, getCache. simpl. now rewrite H.
Qed.

Lemma getContent_expired id w cached :
  id <> "" ->
  map_get id (contentCache w) = Some cached ->
  expired (Date_now_at (dateCalls w)) cached = true ->
  getContent id w =
  (None, {| contentCache := map_delete id (contentCache w);
            dateCalls := S (dateCalls w); randomCalls := randomCalls w |}).
Proof.
  intros Hne H He. apply String.eqb_neq in Hne.
  unfold ContentCache.getContent. simpl. rewrite Hne. simpl.
  unfold bind, getCache. simpl. rewrite H. simpl. rewrite He. reflexivity.
Qed.

Lemma getContent_live id w cached :
  id <> "" ->
  map_get id (contentCache w) = Some cached ->
  expired (Date_now_at (dateCalls w)) cached = false ->
  getContent id w =
  (Some (content cached),
   {| contentCache := map_set id (touch (Date_now_at (S (dateCalls w))) cached)
                        (contentCache w);
      dateCalls := S (S (dateCalls w)); randomCalls := randomCalls w |}).
Proof.
  intros Hne H He. apply String.eqb_neq in Hne.
  unfold ContentCache.getContent. simpl. rewrite Hne. simpl.
  unfold bind, getCache. simpl. rewrite H. simpl. rewrite He. reflexivity.
Qed.

Lemma content_id_nonempty t r : content_id t r <> "".
Proof. unfold content_id. simpl. discriminate. Qed.

(** *** The invariant is kept by every operation *)

Lemma wf_storeContent arg w :
  wf (contentCache w) -> wf (contentCache (snd (storeContent arg w))).
Proof.
  intros Hwf.
  destruct arg as [| |b|m e|s|l|l];
    try (rewrite storeContent_invalid by (intros ? [=]); exact Hwf).
  destruct (String.eqb_spec s "") as [->|Hne].
  { rewrite storeContent_invalid by (now intros ? [= <-]). exact Hwf. }
  destruct (find_hash (generateHash s) (contentCache w)) as [[id cached]|] eqn:Hf.
  - rewrite (storeContent_hit s w id cached Hne Hf). simpl.
    apply find_hash_Some in Hf as [Hin _].
    apply wf_touch; [assumption|]. apply In_map_get; [apply Hwf|assumption].
  - rewrite (storeContent_new s w Hne Hf). simpl.
    set (c1 := live (Date_now_at (dateCalls w)) (contentCache w)).
    assert (wf c1) as Hc1 by (apply wf_filter; assumption).
    destruct (wf_evict_room c1 Hc1) as [Hc2 Hroom].
    assert (~ In (generateHash s) (hashes (evict c1))) as Hfresh.
    { intros Hin. apply (find_hash_None _ _ Hf).
      unfold evict in Hin.
      assert (forall c' , In (generateHash s) (hashes c') ->
                          (forall kv, In kv c' -> In kv c1) ->
                          In (generateHash s) (hashes (contentCache w))) as Hsub.
      { intros c' Hc' Hincl. apply in_map_iff in Hc' as [kv [Hh Hkv]].
        apply in_map_iff. exists kv. split; [assumption|].
        apply Hincl in Hkv. unfold c1, live in Hkv. now apply filter_In in Hkv. }
      destruct (CACHE_MAX_SIZE <=? map_size c1)%nat; [|now apply (Hsub c1)].
      destruct (find_oldest c1); [|now apply (Hsub c1)].
      destruct (JS.truthy (JS.Str s0)); [|now apply (Hsub c1)].
      apply (Hsub _ Hin). intros kv Hkv. rewrite map_delete_filter in Hkv.
      now apply filter_In in Hkv. }
    split.
    + apply map_set_keys_NoDup, Hc2.
    + apply map_set_hashes_NoDup; [exact Hfresh|apply Hc2].
    + unfold map_size in *. rewrite map_set_length.
      destruct (map_get (new_id w) (evict c1)); lia.
    + apply Forall_forall. intros [k x] Hin. simpl.
      assert (In k (keys (map_set (new_id w) (new_entry s w) (evict c1)))) as Hk
          by (apply in_map_iff; exists (k, x); auto).
      apply map_set_keys_In in Hk as [Hk| ->]; [|apply content_id_nonempty].
      apply in_map_iff in Hk as [[k' x'] [Hf' Hin']]. simpl in Hf'. subst.
      pose proof (wf_nonempty _ Hc2) as Hn. rewrite Forall_forall in Hn.
      apply (Hn _ Hin').
Qed.

Lemma wf_getContent id w :
  wf (contentCache w) -> wf (contentCache (snd (getContent id w))).
Proof.
  intros Hwf. unfold ContentCache.getContent.
  destruct (negb (JS.truthy (JS.Str id))); [exact Hwf|].
  unfold bind, getCache. simpl.
  destruct (map_get id (contentCache w)) as [cached|] eqn:Hget; [|exact Hwf].
  simpl. destruct (expired (Date_now_at (dateCalls w)) cached); simpl.
  - now apply wf_delete.
  - now apply wf_touch.
Qed.

Lemma wf_run_op o w : wf (contentCache w) -> wf (contentCache (run_op o w)).
Proof.
  intros Hwf. destruct o; simpl.
  - now apply wf_storeContent.
  - now apply wf_getContent.
  - now apply wf_filter.
  - split; simpl; try constructor. unfold map_size, CACHE_MAX_SIZE. simpl. lia.
Qed.

Lemma wf_empty : wf (contentCache emptyWorld).
Proof. split; simpl; try constructor. unfold map_size, CACHE_MAX_SIZE. simpl. lia. Qed.

Lemma wf_run_ops os : forall w, wf (contentCache w) -> wf (contentCache (run_ops os w)).
Proof.
  induction os as [|o os IH]; intros w Hwf; simpl; [assumption|].
  apply IH. now apply wf_run_op.
Qed.

End WithEnvironment.

(** *** Identifiers name the time they were generated at *)

Definition no_underscore (s : string) : Prop :=
  forall c, In c (list_ascii_of_string s) -> c <> "_"%char.

Lemma string_of_uint_no_underscore d : no_underscore (NilEmpty.string_of_uint d).
Proof.
  induction d; simpl; intros c Hc; simpl in Hc;
    try contradiction; (destruct Hc as [<-|Hc]; [discriminate|now apply IHd]).
Qed.

Lemma Z_to_string_no_underscore z : no_underscore (JS.Z_to_string z).
Proof.
  unfold JS.Z_to_string.
  assert (forall d, no_underscore (NilZero.string_of_uint d)) as Hu.
  { intros d. destruct d; try apply string_of_uint_no_underscore.
    simpl. intros c [<-|[]]. discriminate. }
  destruct (Z.to_int z) as [d|d]; simpl.
  - apply Hu.
  - intros c [<-|Hc]; [discriminate|exact (Hu d c Hc)].
Qed.

Lemma Z_to_string_inj a b : JS.Z_to_string a = JS.Z_to_string b -> a = b.
Proof.
  unfold JS.Z_to_string. intros H.
  assert (forall z, Z.to_int z <> Decimal.Pos Decimal.Nil /\ Z.to_int z <> Decimal.Neg Decimal.Nil) as Hn.
  { intros [|p|p]; simpl; split; try discriminate;
      intros [= Hp]; now apply (DecimalPos.Unsigned.to_uint_nonnil p). }
  apply DecimalZ.to_int_inj.
  assert (Some (Z.to_int a) = Some (Z.to_int b)) as E; [|now injection E].
  rewrite <- (NilZero.isi (Z.to_int a)) by apply Hn.
  rewrite <- (NilZero.isi (Z.to_int b)) by apply Hn.
  now rewrite H.
Qed.

(** Two texts that agree after an underscore-free head and an underscore
    have the same head. *)
Lemma split_at_underscore a : forall b x y,
    no_underscore a -> no_underscore b ->
    a ++ String "_" x = b ++ String "_" y -> a = b.
Proof.
  induction a as [|c a IH]; intros [|c' b] x y Ha Hb H; simpl in H.
  - reflexivity.
  - injection H as Hc _. exfalso. apply (Hb c'); [now left|now symmetry].
  - injection H as Hc _. exfalso. apply (Ha c); [now left|assumption].
  - injection H as -> H. f_equal. apply (IH b x y); auto.
    + intros d Hd. apply Ha. now right.
    + intros d Hd. apply Hb. now right.
Qed.

Lemma content_id_time t r t' r' : content_id t r = content_id t' r' -> t = t'.
Proof.
  unfold content_id. intros H. simpl in H. injection H as H.
  apply Z_to_string_inj.
  apply (split_at_underscore _ _ r r'); auto using Z_to_string_no_underscore.
Qed.

(** *** Entries under a clock that does not run backwards *)

Section MonotoneClock.

Variable Date_now_at : nat -> Z.
Variable Math_random_at : nat -> string.
Variable generateHash : string -> string.
Hypothesis clock_monotone : forall i j, (i <= j)%nat -> Date_now_at i <= Date_now_at j.

Local Abbreviation storeContent := (storeContent Date_now_at Math_random_at generateHash).
Local Abbreviation getContent := (getContent Date_now_at).
Local Abbreviation run_op := (run_op Date_now_at Math_random_at generateHash).
Local Abbreviation run_ops := (run_ops Date_now_at Math_random_at generateHash).

(** An entry holds the non-empty text its hash was computed from, and its
    key names a clock reading taken no later than its last access. *)
Definition entry_ok (calls : nat) (kv : string * CacheEntry) : Prop :=
  hash (snd kv) = generateHash (content (snd kv)) /\
  content (snd kv) <> "" /\
  exists k r, (k < calls)%nat /\ fst kv = content_id (Date_now_at k) r /\
              Date_now_at k <= lastAccess (snd kv).

Definition consistent (w : World) : Prop :=
  wf (contentCache w) /\ Forall (entry_ok (dateCalls w)) (contentCache w).

Lemma entry_ok_later n n' kv : (n <= n')%nat -> entry_ok n kv -> entry_ok n' kv.
Proof.
  intros Hle (Hh & Hc & k & r & Hk & Hid & Ht). repeat split; auto.
  exists k, r. repeat split; auto. lia.
Qed.

Lemma Forall_entry_ok_later n n' c :
  (n <= n')%nat -> Forall (entry_ok n) c -> Forall (entry_ok n') c.
Proof. intros Hle. apply Forall_impl. intros kv. now apply entry_ok_later. Qed.

Lemma Forall_filter {A} (P : A -> Prop) p (l : list A) : Forall P l -> Forall P (filter p l).
Proof.
  rewrite !Forall_forall. intros H x Hx. apply filter_In in Hx as [Hx _]. auto.
Qed.

Lemma map_set_In id e c kv : In kv (map_set id e c) -> In kv c \/ kv = (id, e).
Proof.
  induction c as [|[k e'] c IH]; simpl.
  - intros [<-|[]]. now right.
  - destruct (k =? id)%string eqn:E; simpl.
    + apply String.eqb_eq in E. subst. intros [<-|H]; auto.
    + intros [<-|H]; auto. apply IH in H as [H|H]; auto.
Qed.

Lemma Forall_map_set (P : string * CacheEntry -> Prop) id e c :
  Forall P c -> P (id, e) -> Forall P (map_set id e c).
Proof.
  rewrite !Forall_forall. intros H He kv Hkv.
  apply map_set_In in Hkv as [Hkv| ->]; auto.
Qed.

Lemma entry_ok_touch n n' m id e :
  (n <= m)%nat -> (m < n')%nat ->
  entry_ok n (id, e) -> entry_ok n' (id, touch (Date_now_at m) e).
Proof.
  intros Hnm Hmn (Hh & Hc & k & r & Hk & Hid & Ht). repeat split; auto.
  exists k, r. simpl in *. repeat split; auto; [lia|].
  apply clock_monotone. lia.
Qed.

Lemma consistent_storeContent arg w :
  consistent w -> consistent (snd (storeContent arg w)).
Proof.
  intros [Hwf Hok]. split; [now apply wf_storeContent|].
  destruct arg as [| |b|m e|s|l|l];
    try (rewrite storeContent_invalid by (intros ? [=]); exact Hok).
  destruct (String.eqb_spec s "") as [->|Hne].
  { rewrite storeContent_invalid by (now intros ? [= <-]). exact Hok. }
  destruct (find_hash (generateHash s) (contentCache w)) as [[id cached]|] eqn:Hf.
  - rewrite (storeContent_hit _ _ _ s w id cached Hne Hf). simpl.
    apply find_hash_Some in Hf as [Hin _].
    apply Forall_map_set.
    + apply (Forall_entry_ok_later (dateCalls w)); [lia|assumption].
    + rewrite Forall_forall in Hok.
      apply (entry_ok_touch (dateCalls w) _ (dateCalls w)); [lia|lia|now apply Hok].
  - rewrite (storeContent_new _ _ _ s w Hne Hf). simpl.
    apply Forall_map_set.
    + apply (Forall_entry_ok_later (dateCalls w)); [lia|].
      unfold evict.
      assert (Forall (entry_ok (dateCalls w)) (live (Date_now_at (dateCalls w)) (contentCache w)))
        as Hl by now apply Forall_filter.
      destruct (CACHE_MAX_SIZE <=? _)%nat; [|assumption].
      destruct (find_oldest _) as [o|]; [|assumption].
      destruct (JS.truthy (JS.Str o)); [|assumption].
      rewrite map_delete_filter. now apply Forall_filter.
    + repeat split; auto.
      exists (S (dateCalls w)), (Math_random_at (randomCalls w)).
      repeat split; [lia|]. simpl. apply clock_monotone. lia.
Qed.

Lemma consistent_getContent id w :
  consistent w -> consistent (snd (getContent id w)).
Proof.
  intros [Hwf Hok]. split; [now apply wf_getContent|].
  unfold ContentCache.getContent.
  destruct (negb (JS.truthy (JS.Str id))); [exact Hok|].
  unfold bind, getCache. simpl.
  destruct (map_get id (contentCache w)) as [cached|] eqn:Hget; [|exact Hok].
  simpl. destruct (expired (Date_now_at (dateCalls w)) cached); simpl.
  - rewrite map_delete_filter. apply Forall_filter.
    apply (Forall_entry_ok_later (dateCalls w)); [lia|assumption].
  - apply Forall_map_set.
    + apply (Forall_entry_ok_later (dateCalls w)); [lia|assumption].
    + apply map_get_In in Hget. rewrite Forall_forall in Hok.
      apply (entry_ok_touch (dateCalls w) _ (S (dateCalls w))); [lia|lia|now apply Hok].
Qed.

Lemma consistent_run_op o w : consistent w -> consistent (run_op o w).
Proof.
  intros H. destruct o; simpl.
  - now apply consistent_storeContent.
  - now apply consistent_getContent.
  - destruct H as [Hwf Hok]. split; simpl; [now apply wf_filter|].
    apply Forall_filter. apply (Forall_entry_ok_later (dateCalls w)); [lia|assumption].
  - split; simpl; [apply wf_empty|constructor].
Qed.

Lemma consistent_run_ops os : forall w, consistent w -> consistent (run_ops os w).
Proof.
  induction os as [|o os IH]; intros w H; simpl; [assumption|].
  apply IH. now apply consistent_run_op.
Qed.

Lemma consistent_empty : consistent emptyWorld.
Proof. split; [apply wf_empty|constructor]. Qed.

End MonotoneClock.

End ContentCacheFacts.

(* ===================================================================== *)
(** * Properties of the matcher and of the position patterns *)
(* ===================================================================== *)

Module ToolParserFacts.

Import Regex ToolParser.

(** The text after its first [n] characters. *)
Fixpoint drop (n : nat) (s : string) : string :=
  match n, s with
  | O, _ => s
  | S n', String _ rest => drop n' rest
  | S _, EmptyString => EmptyString
  end.

(** A run of white space. *)
Fixpoint spaces (w : string) : bool :=
  match w with
  | EmptyString => true
  | String c rest => JS.is_space c && spaces rest
  end.

(** The three shapes of text a tool marker starts with. *)
Inductive marker_here : string -> Prop :=
| label_then_brace w rest :
    spaces w = true ->
    marker_here ("TOOL_CALL:" ++ w ++ String "{" rest)
| fence_then_label w rest :
    spaces w = true ->
    marker_here ("```json" ++ w ++ "TOOL_CALL:" ++ rest)
| brace_then_key w1 w2 rest :
    spaces w1 = true -> spaces w2 = true ->
    marker_here (String "{" (w1 ++ JS.quoted "tool_name" ++ w2 ++ String ":" rest)).

(** A marker starts at position [i] of the text. *)
Definition marker_at (text : string) (i : nat) : Prop :=
  (i <= String.length text)%nat /\ marker_here (drop i text).

(** *** Literals and white space under the matcher *)

Lemma drop_app a t : drop (String.length a) (a ++ t) = t.
Proof. induction a; simpl; auto. Qed.

Lemma prefix_split a : forall s, prefix a s = true <-> s = a ++ drop (String.length a) s.
Proof.
  induction a as [|c a IH]; intros s.
  - destruct s; simpl; split; reflexivity.
  - destruct s as [|c' s]; simpl; [split; discriminate|].
    destruct (ascii_dec c c') as [->|Hne].
    + split.
      * intros H. apply IH in H. now rewrite <- H.
      * intros [= H]. now apply IH.
    + split; [discriminate|]. intros [= H _]. congruence.
Qed.

Lemma m_Lit {A} a : forall s caps (k : string -> captures -> option A),
    m (Lit a) s caps k = if prefix a s then k (drop (String.length a) s) caps else None.
Proof.
  induction a as [|c a IH]; intros s caps k; [now destruct s|].
  destruct s as [|c' s]; simpl; [reflexivity|].
  destruct (ascii_dec c c') as [->|Hne].
  - rewrite Ascii.eqb_refl. apply IH.
  - destruct (Ascii.eqb_spec c' c); [congruence|reflexivity].
Qed.

(** A pattern that cannot start at a white-space character. *)
Definition rejects_space (r : re) : Prop :=
  forall A c rest caps (k : string -> captures -> option A),
    JS.is_space c = true -> m r (String c rest) caps k = None.

Lemma rejects_space_Chr c0 : JS.is_space c0 = false -> rejects_space (Chr c0).
Proof.
  intros H A c rest caps k Hc. simpl.
  destruct (Ascii.eqb_spec c c0); [congruence|reflexivity].
Qed.

Lemma rejects_space_Seq_Chr c0 r :
  JS.is_space c0 = false -> rejects_space (Seq (Chr c0) r).
Proof.
  intros H A c rest caps k Hc. simpl.
  destruct (Ascii.eqb_spec c c0); [congruence|reflexivity].
Qed.

Lemma rejects_space_Seq a b : rejects_space a -> rejects_space (Seq a b).
Proof. intros Ha A c rest caps k Hc. simpl. now apply Ha. Qed.

(** Greedy white space before such a pattern skips all the white space. *)
Lemma m_spaces_then {A} r :
  rejects_space r ->
  forall s caps (k : string -> captures -> option A),
    m (Seq (Star ws) r) s caps k = m r (JS.trimStart s) caps k.
Proof.
  intros Hr s caps k. simpl.
  generalize (Nat.le_refl (String.length s)).
  generalize (String.length s) at 2 3 as fuel.
  intros fuel. revert s caps.
  induction fuel as [|fuel IH]; intros s caps Hlen.
  - destruct s; [reflexivity|simpl in Hlen; lia].
  - destruct s as [|c rest]; [reflexivity|]. simpl.
    destruct (JS.is_space c) eqn:Hc.
    + assert ((String.length rest <? S (String.length rest))%nat = true) as ->
          by (apply Nat.ltb_lt; lia).
      simpl in Hlen. rewrite IH by lia.
      destruct (m r (JS.trimStart rest) caps k); [reflexivity|].
      now apply Hr.
    + reflexivity.
Qed.

Lemma trimStart_spaces w : forall t, spaces w = true -> JS.trimStart (w ++ t) = JS.trimStart t.
Proof.
  induction w as [|c w IH]; intros t H; simpl in *; [reflexivity|].
  apply andb_prop in H as [Hc Hw]. rewrite Hc. now apply IH.
Qed.

Lemma trimStart_head c rest : JS.is_space c = false -> JS.trimStart (String c rest) = String c rest.
Proof. intros H. simpl. now rewrite H. Qed.

(** Every text is a run of white space followed by its trimmed rest. *)
Lemma trimStart_split s : exists w, spaces w = true /\ s = w ++ JS.trimStart s.
Proof.
  induction s as [|c s [w [Hw Hs]]]; simpl.
  - exists "". auto.
  - destruct (JS.is_space c) eqn:Hc.
    + exists (String c w). simpl. rewrite Hc, Hw. split; [reflexivity|]. now rewrite <- Hs.
    + exists "". auto.
Qed.

(** *** The three position patterns, one by one *)

Definition patternA : re := Seq (Lit "TOOL_CALL:") (Seq (Star ws) (Chr "{")).
Definition patternB : re := Seq (Lit "```json") (Seq (Star ws) (Lit "TOOL_CALL:")).
Definition patternC : re :=
  Seq (Chr "{") (Seq (Star ws) (Seq (Lit (JS.quoted "tool_name")) (Seq (Star ws) (Chr ":")))).

Lemma toolCallPatterns_eq : toolCallPatterns = [patternA; patternB; patternC].
Proof. reflexivity. Qed.

Definition matches (r : re) (s : string) : bool :=
  match match_here r s with Some _ => true | None => false end.

Lemma matches_A s :
  matches patternA s = true <->
  exists w rest, spaces w = true /\ s = "TOOL_CALL:" ++ w ++ String "{" rest.
Proof.
  unfold matches, match_here, patternA.
  change (m (Seq (Lit "TOOL_CALL:") (Seq (Star ws) (Chr "{"))) s []
            (fun s' caps => Some (s', caps)))
    with (m (Lit "TOOL_CALL:") s []
            (fun s' caps' => m (Seq (Star ws) (Chr "{")) s' caps'
                               (fun s'' caps => Some (s'', caps)))).
  rewrite m_Lit.
  destruct (prefix "TOOL_CALL:" s) eqn:Hp.
  - apply prefix_split in Hp.
    rewrite (m_spaces_then (Chr "{")) by (now apply rejects_space_Chr).
    set (t := drop (String.length "TOOL_CALL:") s) in *.
    destruct (trimStart_split t) as (w & Hw & Ht).
    split.
    + intros H. exists w.
      destruct (JS.trimStart t) as [|c rest]; simpl in H; [discriminate|].
      destruct (Ascii.eqb_spec c "{"); [|discriminate]. subst c.
      exists rest. split; [assumption|]. rewrite Hp. now rewrite <- Ht.
    + intros (w' & rest & Hw' & Hs).
      assert (t = w' ++ String "{" rest) as Et.
      { unfold t. rewrite Hs. now rewrite drop_app. }
      rewrite Et, trimStart_spaces by assumption.
      rewrite trimStart_head by reflexivity. reflexivity.
  - split; [discriminate|]. intros (w & rest & _ & Hs).
    assert (prefix "TOOL_CALL:" s = true) as Hp'.
    { apply prefix_split. rewrite Hs at 2. rewrite drop_app. exact Hs. }
    congruence.
Qed.

Lemma matches_B s :
  matches patternB s = true <->
  exists w rest, spaces w = true /\ s = "```json" ++ w ++ "TOOL_CALL:" ++ rest.
Proof.
  unfold matches, match_here, patternB.
  change (m (Seq (Lit "```json") (Seq (Star ws) (Lit "TOOL_CALL:"))) s []
            (fun s' caps => Some (s', caps)))
    with (m (Lit "```json") s []
            (fun s' caps' => m (Seq (Star ws) (Lit "TOOL_CALL:")) s' caps'
                               (fun s'' caps => Some (s'', caps)))).
  rewrite m_Lit.
  destruct (prefix "```json" s) eqn:Hp.
  - apply prefix_split in Hp.
    rewrite (m_spaces_then (Lit "TOOL_CALL:")) by (now apply rejects_space_Seq_Chr).
    rewrite m_Lit.
    set (t := drop (String.length "```json") s) in *.
    destruct (trimStart_split t) as (w & Hw & Ht).
    split.
    + intros H. exists w.
      destruct (prefix "TOOL_CALL:" (JS.trimStart t)) eqn:Hq; [|discriminate].
      apply prefix_split in Hq. eexists. split; [assumption|].
      rewrite Hp. rewrite Ht at 1. rewrite Hq at 1. reflexivity.
    + intros (w' & rest & Hw' & Hs).
      assert (t = w' ++ "TOOL_CALL:" ++ rest) as Et.
      { unfold t. rewrite Hs. now rewrite drop_app. }
      rewrite Et, trimStart_spaces by assumption.
      replace (JS.trimStart ("TOOL_CALL:" ++ rest)) with ("TOOL_CALL:" ++ rest)
        by reflexivity.
      assert (prefix "TOOL_CALL:" ("TOOL_CALL:" ++ rest) = true) as ->; [|reflexivity].
      apply prefix_split. now rewrite drop_app.
  - split; [discriminate|]. intros (w & rest & _ & Hs).
    assert (prefix "```json" s = true) as Hp'.
    { apply prefix_split. rewrite Hs at 2. rewrite drop_app. exact Hs. }
    congruence.
Qed.

Lemma matches_C s :
  matches patternC s = true <->
  exists w1 w2 rest,
    spaces w1 = true /\ spaces w2 = true /\
    s = String "{" (w1 ++ JS.quoted "tool_name" ++ w2 ++ String ":" rest).
Proof.
  unfold matches, match_here, patternC.
  destruct s as [|c0 s0].
  { simpl. split; [discriminate|]. intros (? & ? & ? & _ & _ & [=]). }
  change (m (Seq (Chr "{") (Seq (Star ws)
              (Seq (Lit (JS.quoted "tool_name")) (Seq (Star ws) (Chr ":")))))
            (String c0 s0) [] (fun s' caps => Some (s', caps)))
    with (if Ascii.eqb c0 "{"
          then m (Seq (Star ws) (Seq (Lit (JS.quoted "tool_name")) (Seq (Star ws) (Chr ":"))))
                 s0 [] (fun s' caps => Some (s', caps))
          else None).
  destruct (Ascii.eqb_spec c0 "{") as [->|Hne].
  - rewrite (m_spaces_then (Seq (Lit (JS.quoted "tool_name")) (Seq (Star ws) (Chr ":"))))
      by (apply rejects_space_Seq; now apply (rejects_space_Seq_Chr JS.dquote)).
    change (m (Seq (Lit (JS.quoted "tool_name")) (Seq (Star ws) (Chr ":")))
              (JS.trimStart s0) [] (fun s' caps => Some (s', caps)))
      with (m (Lit (JS.quoted "tool_name")) (JS.trimStart s0) []
              (fun s' caps' => m (Seq (Star ws) (Chr ":")) s' caps'
                                 (fun s'' caps => Some (s'', caps)))).
    rewrite m_Lit.
    destruct (trimStart_split s0) as (w1 & Hw1 & Hs0).
    split.
    + intros H.
      destruct (prefix (JS.quoted "tool_name") (JS.trimStart s0)) eqn:Hq; [|discriminate].
      apply prefix_split in Hq.
      rewrite (m_spaces_then (Chr ":")) in H by (now apply rejects_space_Chr).
      set (t := drop (String.length (JS.quoted "tool_name")) (JS.trimStart s0)) in *.
      destruct (trimStart_split t) as (w2 & Hw2 & Ht).
      destruct (JS.trimStart t) as [|c rest]; simpl in H; [discriminate|].
      destruct (Ascii.eqb_spec c ":"); [|discriminate]. subst c.
      exists w1, w2, rest. repeat split; auto. f_equal.
      rewrite Hs0 at 1. rewrite Hq at 1. rewrite Ht at 1. reflexivity.
    + intros (w1' & w2 & rest & Hw1' & Hw2 & [= Hs]).
      assert (JS.trimStart s0 = JS.quoted "tool_name" ++ w2 ++ String ":" rest) as Et.
      { rewrite Hs, trimStart_spaces by assumption. reflexivity. }
      rewrite Et.
      assert (prefix (JS.quoted "tool_name")
                (JS.quoted "tool_name" ++ w2 ++ String ":" rest) = true) as ->.
      { apply prefix_split. now rewrite drop_app. }
      rewrite drop_app.
      rewrite (m_spaces_then (Chr ":")) by (now apply rejects_space_Chr).
      rewrite trimStart_spaces by assumption.
      rewrite trimStart_head by reflexivity. reflexivity.
  - split; [discriminate|]. intros (? & ? & ? & _ & _ & [= -> _]). congruence.
Qed.

(** The declarative markers are what the three patterns match. *)
Lemma marker_here_matches s :
  marker_here s <-> existsb (fun r => matches r s) toolCallPatterns = true.
Proof.
  rewrite toolCallPatterns_eq. cbn [existsb]. rewrite orb_false_r, !orb_true_iff.
  rewrite matches_A, matches_B, matches_C.
  split.
  - intros [w rest Hw|w rest Hw|w1 w2 rest Hw1 Hw2]; eauto 10.
  - intros [(w & rest & Hw & ->)|[(w & rest & Hw & ->)|(w1 & w2 & rest & Hw1 & Hw2 & ->)]];
      now constructor.
Qed.

(** The markers, decided by running the three patterns. *)
Definition marker_atb (text : string) (i : nat) : bool :=
  (i <=? String.length text)%nat
  && existsb (fun r => matches r (drop i text)) toolCallPatterns.

Lemma marker_atb_spec text i : marker_at text i <-> marker_atb text i = true.
Proof.
  unfold marker_at, marker_atb. rewrite andb_true_iff, Nat.leb_le, marker_here_matches.
  tauto.
Qed.

(** *** [exec] finds the leftmost match *)

Lemma exec_from_spec r : forall s idx,
    match exec_from r s idx with
    | Some mr =>
        exists i, index mr = (idx + i)%nat /\ (i <= String.length s)%nat /\
                  matches r (drop i s) = true /\
                  forall j, (j < i)%nat -> matches r (drop j s) = false
    | None => forall i, (i <= String.length s)%nat -> matches r (drop i s) = false
    end.
Proof.
  induction s as [|c rest IH]; intros idx; simpl.
  - unfold matches. destruct (match_here r "") as [[s' caps]|] eqn:E.
    + exists 0%nat. simpl. rewrite E. repeat split; auto; lia.
    + intros i Hi. assert (i = 0)%nat as -> by lia. simpl. now rewrite E.
  - destruct (match_here r (String c rest)) as [[s' caps]|] eqn:E.
    + exists 0%nat. unfold matches. simpl. rewrite E. repeat split; auto; lia.
    + specialize (IH (S idx)).
      destruct (exec_from r rest (S idx)) as [mr|].
      * destruct IH as (i & Hi & Hle & Hm & Hleast).
        exists (S i). simpl. repeat split; auto; try lia.
        intros [|j] Hj; simpl; [unfold matches; now rewrite E|apply Hleast; lia].
      * intros [|i] Hi; simpl; [unfold matches; now rewrite E|apply IH; lia].
Qed.

(** The index [exec] reports for one pattern: none, or the least position
    at which the pattern matches. *)
Definition first_match (r : re) (text : string) : option nat :=
  option_map index (exec r text).

Lemma first_match_spec r text :
  match first_match r text with
  | Some n => (n <= String.length text)%nat /\ matches r (drop n text) = true /\
              forall j, (j < n)%nat -> matches r (drop j text) = false
  | None => forall i, (i <= String.length text)%nat -> matches r (drop i text) = false
  end.
Proof.
  unfold first_match, exec. pose proof (exec_from_spec r text 0) as H.
  destruct (exec_from r text 0) as [mr|]; simpl; [|exact H].
  destruct H as (i & -> & Hle & Hm & Hleast). simpl. auto.
Qed.

(** The loop over the patterns, on the indices alone. *)
Definition keep_least (acc : Z) (found : option nat) : Z :=
  match found with
  | Some n => if (acc =? -1) || (Z.of_nat n <? acc) then Z.of_nat n else acc
  | None => acc
  end.

Lemma first_index_step_keep_least text acc r :
  first_index_step text acc r = keep_least acc (first_match r text).
Proof.
  unfold first_index_step, keep_least, first_match. now destruct (exec r text).
Qed.

Lemma keep_least_fold founds : forall acc,
    (acc = -1 \/ 0 <= acc) ->
    let r := fold_left keep_least founds acc in
    (r = -1 \/ 0 <= r) /\
    (acc <> -1 -> r <> -1 /\ r <= acc) /\
    (forall n, In (Some n) founds -> r <> -1 /\ r <= Z.of_nat n) /\
    (r = acc \/ exists n, In (Some n) founds /\ r = Z.of_nat n).
Proof.
  induction founds as [|found founds IH]; intros acc Hacc; simpl.
  - split; [assumption|]. split; [intros; lia|]. split; [intros n []|now left].
  - assert (keep_least acc found = -1 \/ 0 <= keep_least acc found) as Hk.
    { unfold keep_least. destruct found as [n|]; [|assumption].
      destruct ((acc =? -1) || (Z.of_nat n <? acc)); lia. }
    destruct (IH _ Hk) as (Hr & Hle & Hall & Hwhich).
    assert (acc <> -1 -> keep_least acc found <> -1 /\ keep_least acc found <= acc) as Hstep.
    { intros Hne. unfold keep_least. destruct found as [n|]; [|lia].
      destruct (Z.eqb_spec acc (-1)); [contradiction|]. simpl.
      destruct (Z.ltb_spec (Z.of_nat n) acc); lia. }
    split; [assumption|]. split; [|split].
    + intros Hne. destruct (Hstep Hne) as [H1 H2]. destruct (Hle H1). lia.
    + intros n [->|Hin]; [|now apply Hall].
      assert (keep_least acc (Some n) <> -1 /\ keep_least acc (Some n) <= Z.of_nat n)
        as [Hne Hn].
      { unfold keep_least. destruct (Z.eqb_spec acc (-1)); simpl; [lia|].
        destruct (Z.ltb_spec (Z.of_nat n) acc); lia. }
      destruct (Hle Hne). lia.
    + destruct Hwhich as [Hsame|(n & Hin & Hn)]; [|right; eauto].
      rewrite Hsame. unfold keep_least. destruct found as [n|]; [|now left].
      destruct ((acc =? -1) || (Z.of_nat n <? acc)); [right; eauto|now left].
Qed.

Lemma firstToolCallIndex_fold text :
  firstToolCallIndex text
  = fold_left keep_least (map (fun r => first_match r text) toolCallPatterns) (-1).
Proof.
  unfold firstToolCallIndex. generalize (-1). 
  induction toolCallPatterns as [|r rs IH]; intros acc; simpl; [reflexivity|].
  now rewrite first_index_step_keep_least, IH.
Qed.

(** [firstToolCallIndex] is [-1] when the text has no marker, and otherwise
    the position of its first marker. *)
Lemma firstToolCallIndex_spec text :
  (firstToolCallIndex text = -1 /\ forall i, ~ marker_at text i) \/
  (exists i, firstToolCallIndex text = Z.of_nat i /\ marker_at text i /\
             forall j, (j < i)%nat -> ~ marker_at text j).
Proof.
  rewrite firstToolCallIndex_fold.
  destruct (keep_least_fold (map (fun r => first_match r text) toolCallPatterns) (-1)
              ltac:(now left)) as (Hr & _ & Hall & Hwhich).
  cbv zeta in *.
  set (r := fold_left keep_least _ (-1)) in *.
  assert (forall j, marker_at text j -> r <> -1 /\ r <= Z.of_nat j) as Hbelow.
  { intros j Hj. apply marker_atb_spec in Hj. unfold marker_atb in Hj.
    apply andb_prop in Hj as [Hlen Hex]. apply Nat.leb_le in Hlen.
    apply existsb_exists in Hex as (p & Hp & Hm).
    pose proof (first_match_spec p text) as Hspec.
    destruct (first_match p text) as [n|] eqn:En.
    - destruct Hspec as (_ & _ & Hleast).
      assert (n <= j)%nat as Hnj.
      { destruct (Nat.le_gt_cases n j); [assumption|].
        rewrite (Hleast j) in Hm by lia. discriminate. }
      destruct (Hall n) as [H1 H2]; [|lia].
      apply in_map_iff. exists p. auto.
    - rewrite (Hspec j Hlen) in Hm. discriminate. }
  destruct Hwhich as [Hnone|(n & Hin & Hn)].
  - left. split; [assumption|]. intros i Hi. destruct (Hbelow i Hi). contradiction.
  - right. exists n. split; [assumption|].
    apply in_map_iff in Hin as (p & Hp & Hin).
    pose proof (first_match_spec p text) as Hspec. rewrite Hp in Hspec.
    destruct Hspec as (Hlen & Hm & _).
    split.
    + apply marker_atb_spec. unfold marker_atb.
      apply andb_true_intro. split; [now apply Nat.leb_le|].
      apply existsb_exists. eauto.
    + intros j Hj Hmark. destruct (Hbelow j Hmark). lia.
Qed.

(** [extractContentBeforeToolCall] in terms of the first marker. *)
Lemma extract_spec text :
  ((forall i, ~ marker_at text i) -> extractContentBeforeToolCall text = text) /\
  (marker_at text 0 -> extractContentBeforeToolCall text = "") /\
  (forall i, (0 < i)%nat -> marker_at text i ->
             (forall j, (j < i)%nat -> ~ marker_at text j) ->
             extractContentBeforeToolCall text = JS.trim (substring 0 i text)).
Proof.
  unfold extractContentBeforeToolCall.
  destruct (String.eqb_spec text "") as [->|Hne].
  { repeat split; auto. intros i Hi [Hlen _]. simpl in Hlen. lia. }
  destruct (firstToolCallIndex_spec text) as [[-> Hnone]|(n & -> & Hn & Hleast)].
  - repeat split; auto.
    + intros H0. exfalso. now apply (Hnone 0%nat).
    + intros i _ Hi. exfalso. now apply (Hnone i).
  - assert (forall i, marker_at text i -> (forall j, (j < i)%nat -> ~ marker_at text j) ->
                      i = n) as Huniq.
    { intros i Hi Hl. destruct (Nat.lt_trichotomy i n) as [H|[H|H]]; auto.
      - exfalso. now apply (Hleast i).
      - exfalso. now apply (Hl n). }
    repeat split.
    + intros Hnone. exfalso. now apply (Hnone n).
    + intros H0. assert (0%nat = n) as <- by (apply Huniq; [assumption|intros j Hj; lia]).
      reflexivity.
    + intros i Hpos Hi Hl. rewrite <- (Huniq i Hi Hl).
      destruct (Z.ltb_spec 0 (Z.of_nat i)); [|lia]. now rewrite Nat2Z.id.
Qed.

End ToolParserFacts.

(* ===================================================================== *)
(** * Properties of the orchestration loop *)
(* ===================================================================== *)

Module AgentChatFacts.

Import ToolParser ToolExecutor AgentChat.

Lemma count_app p l1 l2 : count p (l1 ++ l2) = (count p l1 + count p l2)%nat.
Proof. unfold count. now rewrite filter_app, length_app. Qed.

(** [executeEditFile] never puts the document under [data.content]. *)
Lemma executeEditFile_shape ToString ToNumber parameters editor_content result :
  executeEditFile ToString ToNumber parameters editor_content = Returned result ->
  success result = true ->
  JS.get (data result) "content" = JS.Undefined /\
  exists newContent, JS.get (data result) "new_content" = JS.Str newContent.
Proof.
  unfold executeEditFile. intros H Hs.
  destruct editor_content as [ec|]; [|injection H as <-; discriminate].
  destruct (ec =? "")%string; [injection H as <-; discriminate|].
  assert (forall op s r,
             Returned
               {| success := true;
                  data := JS.Obj
                    [("operation", op); ("new_content", JS.Str s);
                     ("message", JS.Str ("文件已成功" ++ operation_word op ++ "内容"));
                     ("stats", JS.Obj
                        [("old_lines", JS.Num (count_lines ec) 0);
                         ("new_lines", JS.Num (count_lines s) 0);
                         ("lines_added", JS.Num (count_lines s - count_lines ec) 0)])];
                  error := None |} = Returned r ->
             JS.get (data r) "content" = JS.Undefined /\
             exists newContent, JS.get (data r) "new_content" = JS.Str newContent) as Hdone.
  { intros op s r [= <-]. simpl. split; [reflexivity|eauto]. }
  destruct parameters as [| |b|m e|str|l|props]; try discriminate;
    match type of H with
    | context [JS.get ?p "operation"] => destruct (JS.get p "operation") as [| |b'|m' e'|op|l'|l']
    end;
    try (injection H as <-; discriminate);
    repeat match type of H with
      | (if ?c then _ else _) = _ => destruct c
      | match ?x with _ => _ end = _ => destruct x
      end;
    try (injection H as <-; discriminate);
    try (eapply Hdone; exact H).
Qed.

Section WithProps.

Variable editorContent : string.
Variable messages : list Message.
Variable hasSetMessages : bool.
Variable input : string.
Variable currentApiKey : string.
Variable writingMode : Mode.
Variable model : Model.
Variable svc_storeContent : nat -> string -> Exn string.
Variable svc_sendRequest : nat -> bool -> AgentRequest -> RequestRun.
Variable transport : nat -> Transport.
Variable ToString : JS.value -> string.
Variable ToNumber : JS.value -> option (Z * Z).
Variable executeOtherTool : nat -> string -> JS.value -> option string -> Exn ToolResult.
Variable JSON_stringify : JS.value -> string.
Variable summarize : string -> JS.value -> Exn (list (string * JS.value)).
Variable history_stamp : nat -> string * string.
Variable formatError : string -> string.

Local Abbreviation sendAgentRequest :=
  (sendAgentRequest hasSetMessages currentApiKey writingMode model svc_storeContent
     svc_sendRequest).
Local Abbreviation iteration :=
  (iteration hasSetMessages currentApiKey writingMode model svc_storeContent svc_sendRequest
     transport ToString ToNumber executeOtherTool JSON_stringify summarize history_stamp).
Local Abbreviation tool_loop :=
  (tool_loop hasSetMessages currentApiKey writingMode model svc_storeContent svc_sendRequest
     transport ToString ToNumber executeOtherTool JSON_stringify summarize history_stamp).
Local Abbreviation handleSend_fuel :=
  (handleSend_fuel editorContent messages hasSetMessages input currentApiKey writingMode model
     svc_storeContent svc_sendRequest transport ToString ToNumber executeOtherTool
     JSON_stringify summarize history_stamp formatError).
Local Abbreviation handleSend :=
  (handleSend editorContent messages hasSetMessages input currentApiKey writingMode model
     svc_storeContent svc_sendRequest transport ToString ToNumber executeOtherTool
     JSON_stringify summarize history_stamp formatError).
Local Abbreviation executeWithTimeout :=
  (executeWithTimeout transport ToString ToNumber executeOtherTool).
Local Abbreviation raceToolCall :=
  (raceToolCall transport ToString ToNumber executeOtherTool).
Local Abbreviation followUpInput := (followUpInput JSON_stringify).
Local Abbreviation formatResult := (formatResult summarize).
Local Abbreviation onMessagesUpdate := (onMessagesUpdate hasSetMessages).
Local Abbreviation relay_chunks := (relay_chunks hasSetMessages).

(** Two states that differ in the message lists only. *)
Definition same_frame (st st' : State) : Prop :=
  currentEditorContent st' = currentEditorContent st /\
  iterationCount st' = iterationCount st /\
  toolHistory st' = toolHistory st /\
  calls st' = calls st.

Lemma same_frame_refl st : same_frame st st.
Proof. repeat split. Qed.

Lemma same_frame_trans a b c : same_frame a b -> same_frame b c -> same_frame a c.
Proof. intros (?&?&?&?) (?&?&?&?). repeat split; congruence. Qed.

Lemma same_frame_update ms st : same_frame st (onMessagesUpdate ms st).
Proof. repeat split. Qed.

Lemma same_frame_relay evs : forall ms st, same_frame st (snd (relay_chunks evs ms st)).
Proof.
  induction evs as [|ev evs IH]; intros ms st; simpl; [apply same_frame_refl|].
  eapply same_frame_trans; [|apply IH]. apply same_frame_update.
Qed.

(** What one [sendAgentRequest] does to the state: at most one upload of
    the content, then exactly one model request carrying [inputText]. *)
Lemma sendAgentRequest_calls paper inputText currentMessages useStreaming st :
  let st' := snd (sendAgentRequest paper inputText currentMessages useStreaming st) in
  currentEditorContent st' = currentEditorContent st /\
  iterationCount st' = iterationCount st /\
  exists uploads request,
    calls st' = (calls st ++ uploads ++ [CallModel useStreaming request])%list /\
    (uploads = [] \/ uploads = [CallStoreContent paper]) /\
    rq_input request = inputText /\
    rq_messages request = currentMessages.
Proof.
  unfold AgentChat.sendAgentRequest.
  set (up := if negb (paper =? "")%string then _ else _).
  assert (exists contentId st1 uploads,
             up = (contentId, st1) /\
             currentEditorContent st1 = currentEditorContent st /\
             iterationCount st1 = iterationCount st /\
             calls st1 = (calls st ++ uploads)%list /\
             (uploads = [] \/ uploads = [CallStoreContent paper])) as Hup.
  { unfold up. destruct (negb (paper =? "")%string).
    - destruct (svc_storeContent _ paper) as [cid|msg].
      + exists (Some cid), (record (CallStoreContent paper) st), [CallStoreContent paper].
        repeat split; auto.
      + exists None, (record (CallStoreContent paper) st), [CallStoreContent paper].
        repeat split; auto.
    - exists None, st, []. repeat split; auto. now rewrite app_nil_r. }
  destruct Hup as (contentId & st1 & uploads & -> & He & Hi & Hc & Hu).
  cbv zeta.
  set (request := {| rq_contentId := contentId; rq_content := _; rq_input := inputText;
                     rq_mode := writingMode; rq_model := model; rq_apiKey := currentApiKey;
                     rq_messages := currentMessages |}).
  set (run := svc_sendRequest _ useStreaming request).
  set (st2 := record (CallModel useStreaming request) st1).
  assert (forall stx, same_frame st2 stx ->
             currentEditorContent stx = currentEditorContent st /\
             iterationCount stx = iterationCount st /\
             exists uploads request,
               calls stx = (calls st ++ uploads ++ [CallModel useStreaming request])%list /\
               (uploads = [] \/ uploads = [CallStoreContent paper]) /\
               rq_input request = inputText /\ rq_messages request = currentMessages) as Hfin.
  { intros stx (H1 & H2 & _ & H4). unfold st2 in *. simpl in *.
    repeat split; try congruence.
    exists uploads, request. repeat split; auto.
    rewrite H4, Hc. now rewrite app_assoc. }
  destruct useStreaming.
  - match goal with
    | |- context [AgentChat.relay_chunks _ ?evs ?ms ?s] =>
        pose proof (same_frame_relay evs ms s) as Hr;
        pose proof (same_frame_update ms st2) as Hs;
        destruct (AgentChat.relay_chunks hasSetMessages evs ms s) as [ms' st4]
    end.
    simpl in Hr.
    assert (same_frame st2 st4) as Hf by (eapply same_frame_trans; eassumption).
    destruct (settle run); cbn [snd]; apply Hfin; auto.
  - destruct (settle run); cbn [snd]; apply Hfin;
      auto using same_frame_refl, same_frame_update.
Qed.

(** The promise [sendAgentRequest] returns ends as the request does. *)
Lemma sendAgentRequest_settle paper inputText currentMessages useStreaming st :
  exists k request,
    match fst (sendAgentRequest paper inputText currentMessages useStreaming st),
          settle (svc_sendRequest k useStreaming request) with
    | Resolved a, Resolved b => a = b
    | Rejected a, Rejected b => a = b
    | Pending, Pending => True
    | _, _ => False
    end.
Proof.
  unfold AgentChat.sendAgentRequest.
  destruct (if negb (paper =? "")%string then _ else _) as [contentId st1].
  cbv zeta. eexists. eexists.
  destruct useStreaming.
  - destruct (relay_chunks _ _ _) as [ms' st4].
    destruct (settle (svc_sendRequest _ true _)) eqn:E; simpl; rewrite ?E; auto.
  - destruct (settle (svc_sendRequest _ false _)) eqn:E; simpl; rewrite ?E; auto.
Qed.

Local Abbreviation run_tool :=
  (run_tool hasSetMessages transport ToString ToNumber executeOtherTool history_stamp).

(** The guard of the editor update. *)
Definition takes_over (toolCall : ToolCall) (result : ToolResult) : bool :=
  success result && (tool_name toolCall =? "edit_file")%string
  && JS.truthy (JS.get (data result) "content").

(** What the first half of a pass does to the state. *)
Lemma run_tool_spec toolCall st :
  let result := executeWithTimeout (count is_tool (calls st)) toolCall
                  (currentEditorContent st) in
  let st' := snd (run_tool toolCall st) in
  fst (run_tool toolCall st) = result /\
  iterationCount st' = S (iterationCount st) /\
  currentEditorContent st' =
    (if takes_over toolCall result
     then to_string ToString (JS.get (data result) "content")
     else currentEditorContent st) /\
  calls st' =
    (calls st ++ CallTool (tool_name toolCall) (parameters toolCall) (currentEditorContent st)
       :: (if takes_over toolCall result
           then [CallUpdateContent (to_string ToString (JS.get (data result) "content"))]
           else []))%list.
Proof.
  unfold AgentChat.run_tool, takes_over. cbv zeta.
  destruct (last_is is_agent _);
    cbn [updatedMessages shownMessages currentEditorContent iterationCount toolHistory calls
         AgentChat.onMessagesUpdate AgentChat.setMessages AgentChat.record fst snd];
    set (result := executeWithTimeout _ _ _);
    destruct (success result && _ && _);
    cbn [updatedMessages shownMessages currentEditorContent iterationCount toolHistory calls
         AgentChat.onMessagesUpdate AgentChat.setMessages AgentChat.record fst snd];
    repeat split; rewrite <- ?app_assoc; reflexivity.
Qed.

(** The server's answer to an [edit_file] call never passes the guard. *)
Lemma edit_file_not_taken_over k toolCall editor :
  tool_name toolCall = "edit_file" ->
  takes_over toolCall (executeWithTimeout k toolCall editor) = false.
Proof.
  intros Hname. unfold takes_over, AgentChat.executeWithTimeout, AgentChat.raceToolCall.
  destruct (transport k); try reflexivity.
  unfold route_execute, executeTool. rewrite Hname. cbn [String.eqb Ascii.eqb Bool.eqb].
  destruct (executeEditFile ToString ToNumber (parameters toolCall) (Some editor))
    as [result|message] eqn:He; [|reflexivity].
  destruct (success result) eqn:Hs; [|reflexivity].
  destruct (executeEditFile_shape _ _ _ _ _ He Hs) as [-> _]. reflexivity.
Qed.

Lemma never_taken_over k toolCall editor :
  takes_over toolCall (executeWithTimeout k toolCall editor) = false.
Proof.
  destruct (String.eqb_spec (tool_name toolCall) "edit_file") as [E|E].
  - now apply edit_file_not_taken_over.
  - unfold takes_over. apply String.eqb_neq in E. rewrite E.
    now rewrite andb_false_r.
Qed.

(** What one pass does to the state: one tool call (with the content held
    before it), then what the follow-up request does, unless building the
    follow-up throws. *)
Lemma iteration_spec useStreaming toolCall st :
  let result := executeWithTimeout (count is_tool (calls st)) toolCall
                  (currentEditorContent st) in
  let st' := snd (iteration useStreaming toolCall st) in
  currentEditorContent st' = currentEditorContent st /\
  iterationCount st' = S (iterationCount st) /\
  exists rest,
    calls st' =
      (calls st ++ CallTool (tool_name toolCall) (parameters toolCall)
                     (currentEditorContent st) :: rest)%list /\
    match formatResult toolCall result with
    | Thrown _ => rest = []
    | Returned formattedResult =>
        exists uploads request,
          rest = (uploads ++ [CallModel useStreaming request])%list /\
          (uploads = [] \/ uploads = [CallStoreContent (currentEditorContent st)]) /\
          rq_input request = followUpInput toolCall formattedResult
    end.
Proof.
  cbv zeta. unfold AgentChat.iteration.
  pose proof (run_tool_spec toolCall st) as Hrun. cbv zeta in Hrun.
  rewrite never_taken_over in Hrun.
  destruct (run_tool toolCall st) as [result st1]. cbn [fst snd] in Hrun.
  destruct Hrun as (-> & Hi & He & Hc).
  destruct (formatResult toolCall _) as [formatted|e].
  - pose proof (sendAgentRequest_calls (currentEditorContent st1)
                  (followUpInput toolCall formatted) (updatedMessages st1) useStreaming st1)
      as Hsend.
    cbv zeta in Hsend. destruct Hsend as (He' & Hi' & uploads & request & Hc' & Hu & Hin & _).
    repeat split; try congruence.
    exists (uploads ++ [CallModel useStreaming request])%list. split.
    + rewrite Hc', Hc. now rewrite <- app_assoc.
    + exists uploads, request. rewrite <- He. auto.
  - cbn [snd]. repeat split; auto. exists []. auto.
Qed.

Lemma is_tool_count_rest uploads useStreaming request paper :
  uploads = [] \/ uploads = [CallStoreContent paper] ->
  count is_tool (uploads ++ [CallModel useStreaming request]) = 0%nat /\
  count is_model (uploads ++ [CallModel useStreaming request]) = 1%nat /\
  count is_update (uploads ++ [CallModel useStreaming request]) = 0%nat.
Proof. intros [->| ->]; repeat split. Qed.

(** Counting the calls of one pass. *)
Lemma iteration_counts useStreaming toolCall st :
  let st' := snd (iteration useStreaming toolCall st) in
  count is_tool (calls st') = S (count is_tool (calls st)) /\
  count is_update (calls st') = count is_update (calls st) /\
  (forall n p ed, In (CallTool n p ed) (calls st') ->
                  In (CallTool n p ed) (calls st) \/ ed = currentEditorContent st).
Proof.
  cbv zeta. destruct (iteration_spec useStreaming toolCall st) as (_ & _ & rest & Hc & Hrest).
  rewrite Hc. rewrite !count_app. cbn [count filter is_tool is_update List.length].
  assert (count is_tool rest = 0%nat /\ count is_update rest = 0%nat /\
          forall n p ed, ~ In (CallTool n p ed) rest) as (Ht & Hu & Hn).
  { destruct (formatResult toolCall _).
    - destruct Hrest as (uploads & request & -> & Hup & _).
      destruct (is_tool_count_rest uploads useStreaming request _ Hup) as (? & ? & ?).
      repeat split; auto. intros n p ed Hin.
      apply in_app_or in Hin as [Hin|[Hin|[]]]; [|discriminate].
      destruct Hup as [->| ->]; [destruct Hin|destruct Hin as [Hin|[]]; discriminate].
    - subst rest. repeat split; auto. }
  unfold count in *. cbn [List.length filter is_tool is_update] in *.
  repeat split; try lia.
  intros n p ed Hin. apply in_app_or in Hin as [Hin|[Hin|Hin]]; auto.
  - injection Hin as _ _ <-. auto.
  - exfalso. apply (Hn _ _ _ Hin).
Qed.

(** *** The loop *)

(** The invariant of a run: every tool call so far belongs to one pass, and
    every one received the text the editor held at the start. *)
Record loop_inv (st : State) : Prop := mkLoopInv {
  inv_count : count is_tool (calls st) = iterationCount st;
  inv_bound : (iterationCount st <= MAX_TOOL_ITERATIONS)%nat;
  inv_editor : currentEditorContent st = editorContent;
  inv_tools : forall n p ed, In (CallTool n p ed) (calls st) -> ed = editorContent;
  inv_updates : count is_update (calls st) = 0%nat
}.

Lemma loop_inv_iteration useStreaming toolCall st :
  loop_inv st -> (iterationCount st < MAX_TOOL_ITERATIONS)%nat ->
  loop_inv (snd (iteration useStreaming toolCall st)).
Proof.
  intros [Hc Hb He Ht Hu] Hlt.
  destruct (iteration_spec useStreaming toolCall st) as (He' & Hi' & _).
  destruct (iteration_counts useStreaming toolCall st) as (Hc' & Hu' & Ht').
  split; try lia; try congruence.
  intros n p ed Hin. apply Ht' in Hin as [Hin| ->]; eauto.
Qed.

(** The loop ends, within [fuel] passes whenever [fuel] exceeds the passes
    still allowed, and keeps the invariant. *)
Lemma tool_loop_total fuel : forall useStreaming agentResponse st,
    loop_inv st ->
    (MAX_TOOL_ITERATIONS - iterationCount st < fuel)%nat ->
    exists s st', tool_loop fuel useStreaming agentResponse st = Some (s, st') /\
                  loop_inv st'.
Proof.
  induction fuel as [|fuel IH]; intros useStreaming agentResponse st Hinv Hfuel; [lia|].
  simpl. destruct (requested_tool agentResponse) as [toolCall|]; [|eauto].
  destruct (Nat.ltb_spec (iterationCount st) MAX_TOOL_ITERATIONS) as [Hlt|Hge]; [|eauto].
  pose proof (loop_inv_iteration useStreaming toolCall st Hinv Hlt) as Hinv'.
  destruct (iteration_spec useStreaming toolCall st) as (_ & Hi' & _).
  destruct (iteration useStreaming toolCall st) as [[agentResponse'|e|] st1];
    cbn [snd] in *; eauto.
  apply IH; [assumption|lia].
Qed.

(** More fuel than needed changes nothing. *)
Lemma tool_loop_fuel_irrelevant fuel : forall fuel' useStreaming agentResponse st r,
    tool_loop fuel useStreaming agentResponse st = Some r ->
    (fuel <= fuel')%nat ->
    tool_loop fuel' useStreaming agentResponse st = Some r.
Proof.
  induction fuel as [|fuel IH]; intros fuel' useStreaming agentResponse st r H Hle.
  - destruct fuel'; auto. simpl in *.
    destruct (requested_tool agentResponse); auto.
    destruct (iterationCount st <? MAX_TOOL_ITERATIONS)%nat; [discriminate|auto].
  - destruct fuel' as [|fuel']; [lia|]. simpl in *.
    destruct (requested_tool agentResponse); auto.
    destruct (iterationCount st <? MAX_TOOL_ITERATIONS)%nat; auto.
    destruct (iteration useStreaming t st) as [[a|e|] st1]; auto.
    apply IH; [assumption|lia].
Qed.

(** At the bound the loop stops without running the tool that was asked
    for, and without an error. *)
Lemma tool_loop_at_bound fuel useStreaming agentResponse toolCall st :
  requested_tool agentResponse = Some toolCall ->
  iterationCount st = MAX_TOOL_ITERATIONS ->
  tool_loop fuel useStreaming agentResponse st = Some (Resolved tt, st).
Proof.
  intros Hreq Hmax. destruct fuel; simpl; rewrite Hreq, Hmax; reflexivity.
Qed.

Lemma loop_inv_send paper inputText currentMessages useStreaming st :
  loop_inv st ->
  loop_inv (snd (sendAgentRequest paper inputText currentMessages useStreaming st)).
Proof.
  intros [Hc Hb He Ht Hu].
  destruct (sendAgentRequest_calls paper inputText currentMessages useStreaming st)
    as (He' & Hi' & uploads & request & Hc' & Hup & _).
  destruct (is_tool_count_rest uploads useStreaming request paper Hup) as (H1 & _ & H3).
  split; try congruence.
  - rewrite Hc', count_app, H1. lia.
  - intros n p ed Hin. rewrite Hc' in Hin. apply in_app_or in Hin as [Hin|Hin]; eauto.
    apply in_app_or in Hin as [Hin|[Hin|[]]]; [|discriminate].
    destruct Hup as [->| ->]; [destruct Hin|destruct Hin as [Hin|[]]; discriminate].
  - rewrite Hc', count_app, H3. lia.
Qed.

Lemma loop_inv_initial :
  loop_inv (AgentChat.initialState editorContent messages).
Proof. split; simpl; auto; try (unfold MAX_TOOL_ITERATIONS; lia); intros n p ed []. Qed.

(** [handleSend] ends, and no run makes more than ten tool calls; each of
    them receives the text the editor held when the run began, and the loop
    itself never calls [onUpdateContent]. *)
Lemma handleSend_total :
  exists outcome st,
    handleSend = Some (outcome, st) /\
    (count is_tool (calls st) <= MAX_TOOL_ITERATIONS)%nat /\
    (forall n p ed, In (CallTool n p ed) (calls st) -> ed = editorContent) /\
    currentEditorContent st = editorContent /\
    (count is_update (calls st) <= 1)%nat.
Proof.
  unfold AgentChat.handleSend, AgentChat.handleSend_fuel.
  assert (forall st, loop_inv st ->
            (count is_tool (calls st) <= MAX_TOOL_ITERATIONS)%nat /\
            (forall n p ed, In (CallTool n p ed) (calls st) -> ed = editorContent) /\
            currentEditorContent st = editorContent /\
            (count is_update (calls st) <= 1)%nat) as Hfin.
  { intros st [Hc Hb He Ht Hu]. repeat split; auto; lia. }
  pose proof loop_inv_initial as H0.
  destruct (JS.trim input =? "")%string; [eauto|].
  destruct (JS.trim currentApiKey =? "")%string.
  { eexists. eexists. split; [reflexivity|]. apply Hfin.
    destruct H0. split; auto. }
  cbv zeta.
  set (st0 := AgentChat.onMessagesUpdate hasSetMessages _ _).
  assert (loop_inv st0) as Hst0 by (destruct H0; split; auto).
  set (streaming := match model with qwen => false | _ => true end).
  pose proof (loop_inv_send (currentEditorContent st0) input (updatedMessages st0) streaming
                st0 Hst0) as Hsend.
  destruct (sendAgentRequest _ input _ streaming st0) as [[agentResponse|e|] st1];
    cbn [snd] in Hsend.
  - destruct (tool_loop_total (S MAX_TOOL_ITERATIONS) streaming agentResponse st1 Hsend
                ltac:(lia)) as (s & st2 & -> & Hinv2).
    destruct s as [[]|e|].
    + destruct writingMode;
        [eexists; eexists; split; [reflexivity|now apply Hfin]|].
      destruct (last_message (updatedMessages st2)) as [lastMessage|];
        [|eexists; eexists; split; [reflexivity|now apply Hfin]].
      destruct (is_agent lastMessage && negb (content lastMessage =? "")%string);
        [|eexists; eexists; split; [reflexivity|now apply Hfin]].
      eexists. eexists. split; [reflexivity|].
      destruct Hinv2 as [Hc Hb He Ht Hu]. cbn [calls AgentChat.record currentEditorContent].
      rewrite !count_app. cbn. repeat split; auto; try lia.
      intros n p ed Hin. apply in_app_or in Hin as [Hin|[Hin|[]]]; eauto. discriminate.
    + eexists. eexists. split; [reflexivity|]. apply Hfin. destruct Hinv2. split; auto.
    + eexists. eexists. split; [reflexivity|]. now apply Hfin.
  - eexists. eexists. split; [reflexivity|]. apply Hfin. destruct Hsend. split; auto.
  - eexists. eexists. split; [reflexivity|]. now apply Hfin.
Qed.

(** *** A model that asks for a tool in every reply *)

Section InsistentModel.

Hypothesis always_tool :
  forall k useStreaming request,
  exists agentResponse toolCall,
    settle (svc_sendRequest k useStreaming request) = Resolved agentResponse /\
    requested_tool agentResponse = Some toolCall.
Hypothesis summaries_total : forall n d, exists extra, summarize n d = Returned extra.

Lemma send_resolves_with_tool paper inputText currentMessages useStreaming st :
  exists agentResponse toolCall,
    fst (sendAgentRequest paper inputText currentMessages useStreaming st)
    = Resolved agentResponse /\
    requested_tool agentResponse = Some toolCall.
Proof.
  destruct (sendAgentRequest_settle paper inputText currentMessages useStreaming st)
    as (k & request & H).
  destruct (always_tool k useStreaming request) as (agentResponse & toolCall & Hs & Ht).
  rewrite Hs in H.
  destruct (fst (sendAgentRequest paper inputText currentMessages useStreaming st));
    try contradiction.
  subst. eauto.
Qed.

Lemma formatResult_total toolCall result :
  exists formattedResult, formatResult toolCall result = Returned formattedResult.
Proof.
  unfold AgentChat.formatResult. cbv zeta.
  destruct (success result && JS.truthy (data result)); [|eauto].
  destruct ((tool_name toolCall =? "search_papers")%string && _).
  { destruct (summaries_total (tool_name toolCall) (data result)) as [x ->]. eauto. }
  destruct (tool_name toolCall =? "download_paper")%string; [eauto|].
  destruct ((tool_name toolCall =? "read_pdf_content")%string || _); [|eauto].
  destruct (summaries_total (tool_name toolCall) (data result)) as [x ->]. eauto.
Qed.

Lemma insistent_iteration useStreaming toolCall st :
  exists agentResponse toolCall' st',
    iteration useStreaming toolCall st = (Resolved agentResponse, st') /\
    requested_tool agentResponse = Some toolCall' /\
    iterationCount st' = S (iterationCount st) /\
    count is_tool (calls st') = S (count is_tool (calls st)) /\
    count is_model (calls st') = S (count is_model (calls st)).
Proof.
  destruct (iteration_spec useStreaming toolCall st) as (_ & Hi & rest & Hc & Hrest).
  destruct (iteration_counts useStreaming toolCall st) as (Ht & _ & _).
  assert (count is_model (calls (snd (iteration useStreaming toolCall st)))
          = S (count is_model (calls st))) as Hm.
  { destruct (formatResult_total toolCall
                (executeWithTimeout (count is_tool (calls st)) toolCall
                   (currentEditorContent st))) as [formatted Hf].
    rewrite Hf in Hrest. destruct Hrest as (uploads & request & -> & Hup & _).
    destruct (is_tool_count_rest uploads useStreaming request _ Hup) as (_ & H1 & _).
    rewrite Hc, count_app.
    change (CallTool (tool_name toolCall) (parameters toolCall) (currentEditorContent st)
              :: uploads ++ [CallModel useStreaming request])%list
      with ([CallTool (tool_name toolCall) (parameters toolCall) (currentEditorContent st)]
              ++ (uploads ++ [CallModel useStreaming request]))%list.
    rewrite count_app, H1. cbn. lia. }
  revert Hi Ht Hm. unfold AgentChat.iteration.
  destruct (run_tool toolCall st) as [result st1].
  destruct (formatResult_total toolCall result) as [formatted ->].
  destruct (send_resolves_with_tool (currentEditorContent st1)
              (followUpInput toolCall formatted) (updatedMessages st1) useStreaming st1)
    as (agentResponse & toolCall' & Hs & Hreq).
  destruct (sendAgentRequest _ _ _ useStreaming st1) as [s st2]. simpl in Hs. subst s.
  intros Hi Ht Hm. exists agentResponse, toolCall', st2. auto.
Qed.

(** With [n] passes left, the loop makes exactly [n] more tool calls and
    [n] more model requests, and then ends normally. *)
Lemma insistent_loop n : forall fuel useStreaming agentResponse toolCall st,
    requested_tool agentResponse = Some toolCall ->
    (iterationCount st + n = MAX_TOOL_ITERATIONS)%nat ->
    (n < fuel)%nat ->
    exists st',
      tool_loop fuel useStreaming agentResponse st = Some (Resolved tt, st') /\
      iterationCount st' = MAX_TOOL_ITERATIONS /\
      count is_tool (calls st') = (count is_tool (calls st) + n)%nat /\
      count is_model (calls st') = (count is_model (calls st) + n)%nat.
Proof.
  induction n as [|n IH]; intros fuel useStreaming agentResponse toolCall st Hreq Hn Hfuel.
  - exists st. rewrite (tool_loop_at_bound fuel useStreaming agentResponse toolCall st Hreq)
      by lia.
    repeat split; lia.
  - destruct fuel as [|fuel]; [lia|]. simpl. rewrite Hreq.
    destruct (Nat.ltb_spec (iterationCount st) MAX_TOOL_ITERATIONS) as [_|Hge]; [|lia].
    destruct (insistent_iteration useStreaming toolCall st)
      as (agentResponse' & toolCall' & st1 & -> & Hreq' & Hi & Ht & Hm).
    destruct (IH fuel useStreaming agentResponse' toolCall' st1 Hreq' ltac:(lia) ltac:(lia))
      as (st' & -> & Hi' & Ht' & Hm').
    exists st'. repeat split; auto; lia.
Qed.

(** The run of such a model: ten tool calls, eleven model requests, and a
    normal end. *)
Lemma insistent_run :
  JS.trim input <> "" -> JS.trim currentApiKey <> "" ->
  exists st,
    handleSend = Some (Completed, st) /\
    count is_tool (calls st) = 10%nat /\
    count is_model (calls st) = 11%nat.
Proof.
  intros Hin Hkey. apply String.eqb_neq in Hin, Hkey.
  unfold AgentChat.handleSend, AgentChat.handleSend_fuel. rewrite Hin, Hkey. cbv zeta.
  set (st0 := AgentChat.onMessagesUpdate hasSetMessages _ _).
  set (streaming := match model with qwen => false | _ => true end).
  destruct (send_resolves_with_tool (currentEditorContent st0) input (updatedMessages st0)
              streaming st0) as (agentResponse & toolCall & Hs & Hreq).
  destruct (sendAgentRequest_calls (currentEditorContent st0) input (updatedMessages st0)
              streaming st0) as (_ & Hi & uploads & request & Hc & Hup & _).
  destruct (is_tool_count_rest uploads streaming request _ Hup) as (H1 & H2 & _).
  destruct (sendAgentRequest _ input _ streaming st0) as [s st1]. simpl in Hs, Hi, Hc. subst s.
  destruct (insistent_loop MAX_TOOL_ITERATIONS (S MAX_TOOL_ITERATIONS) streaming agentResponse
              toolCall st1 Hreq) as (st2 & -> & _ & Ht & Hm).
  { rewrite Hi. reflexivity. }
  { lia. }
  assert (count is_tool (calls st2) = 10%nat /\ count is_model (calls st2) = 11%nat)
    as [Ht2 Hm2].
  { rewrite Ht, Hm, Hc. unfold st0. destruct Hup as [->| ->]; cbn; split; reflexivity. }
  destruct writingMode; [eauto|].
  destruct (last_message (updatedMessages st2)) as [lastMessage|]; [|eauto].
  destruct (is_agent lastMessage && negb (content lastMessage =? "")%string); [|eauto].
  eexists. split; [reflexivity|]. cbn [calls AgentChat.record].
  rewrite !count_app, Ht2, Hm2. split; reflexivity.
Qed.

End InsistentModel.

(** *** A tool call that fails *)

(** After a rejected race the pass goes on with a failed result, and makes
    one model request whose input renders that result. *)
Lemma failed_tool_folded_back useStreaming toolCall st message :
  raceToolCall (count is_tool (calls st)) toolCall (currentEditorContent st) = Thrown message ->
  fst (run_tool toolCall st) = failure message /\
  exists uploads request,
    calls (snd (iteration useStreaming toolCall st)) =
      (calls st ++ CallTool (tool_name toolCall) (parameters toolCall)
                     (currentEditorContent st)
                :: uploads ++ [CallModel useStreaming request])%list /\
    (uploads = [] \/ uploads = [CallStoreContent (currentEditorContent st)]) /\
    rq_input request =
      followUpInput toolCall
        (JS.Obj [("tool", JS.Str (tool_name toolCall)); ("success", JS.Bool false);
                 ("error", JS.Str message)]).
Proof.
  intros Hrace.
  assert (executeWithTimeout (count is_tool (calls st)) toolCall (currentEditorContent st)
          = failure message) as Hres.
  { unfold AgentChat.executeWithTimeout. now rewrite Hrace. }
  destruct (run_tool_spec toolCall st) as (Hfst & _). cbv zeta in Hfst.
  split; [now rewrite Hfst|].
  destruct (iteration_spec useStreaming toolCall st) as (_ & _ & rest & Hc & Hrest).
  rewrite Hres in Hrest. unfold AgentChat.formatResult in Hrest. simpl in Hrest.
  destruct Hrest as (uploads & request & -> & Hup & Hin).
  exists uploads, request. auto.
Qed.

End WithProps.

End AgentChatFacts.

(* ===================================================================== *)
(** * Properties of the streaming route *)
(* ===================================================================== *)

Module AgentRouteFacts.

Import AgentRoute.

Definition is_chunk (e : StreamEvent) : bool :=
  match e with Chunk _ _ _ => true | _ => false end.

Definition is_terminal (e : StreamEvent) : bool :=
  match e with Complete _ _ _ | Error _ => true | _ => false end.

(** A stream that was opened: one [start], chunks, one terminal event, the
    sentinel. *)
Definition opened (model : JS.value) (ws : list Write) : Prop :=
  exists chunks terminal,
    ws = (Data (Start model) :: map Data chunks ++ [Data terminal; Done])%list /\
    forallb is_chunk chunks = true /\
    is_terminal terminal = true.

(** A request refused before the stream was opened: the error event and the
    sentinel, nothing else. *)
Definition refused (ws : list Write) : Prop :=
  exists message, ws = [Data (Error message); Done].

Lemma relay_chunks_only is_reasoner ds : forall fullResponse fullReasoning,
    exists chunks,
      fst (fst (relay is_reasoner ds fullResponse fullReasoning)) = map Data chunks /\
      forallb is_chunk chunks = true.
Proof.
  induction ds as [|[content reasoningContent] ds IH]; intros fullResponse fullReasoning; simpl.
  - exists []. auto.
  - destruct (IH (fullResponse ++ content) (fullReasoning ++ reasoningContent))
      as (chunks & Hw & Hc).
    destruct (relay is_reasoner ds _ _) as [[ws r] g]. simpl in *. subst ws.
    eexists (_ :: chunks). split; [reflexivity|]. simpl. exact Hc.
Qed.

Lemma fail_refused message : refused (fail message).
Proof. unfold refused, fail. eauto. Qed.

Section WithCollaborators.

Variable Date_now_at : nat -> Z.
Variable generatePrompt : JS.value -> JS.value -> JS.value -> JS.value -> Exn string.
Variable callDeepSeekApiStream : string -> JS.value -> string -> StreamRun.

Local Abbreviation stream := (stream Date_now_at generatePrompt callDeepSeekApiStream).

Lemma stream_without_key req w :
  JS.truthy (apiKey req) = false ->
  fst (stream req w) = [Data (Error "API Key不能为空"); Done].
Proof. intros H. unfold AgentRoute.stream. rewrite H. reflexivity. Qed.

(** Once the prompt is built the stream is opened, whatever happens next. *)
Lemma stream_shape req w :
  let resolved := fst (resolveContent Date_now_at (contentId req) (content req) w) in
  let ws := fst (stream req w) in
  if JS.truthy (apiKey req) then
    match generatePrompt resolved (input req) (mode req) (messages req) with
    | Returned _ => opened (model req) ws
    | Thrown _ => refused ws
    end
  else refused ws.
Proof.
  cbv zeta. unfold AgentRoute.stream.
  destruct (JS.truthy (apiKey req)); cbn [negb]; [|apply fail_refused].
  unfold ContentCache.bind.
  destruct (resolveContent Date_now_at (contentId req) (content req) w) as [resolved w1].
  cbn [fst].
  destruct (generatePrompt resolved (input req) (mode req) (messages req)) as [prompt|message];
    [|apply fail_refused].
  cbv zeta.
  set (is_chat := match model req with JS.Str m => (m =? "deepseek")%string | _ => false end).
  set (is_reasoner := match model req with
                      | JS.Str m => (m =? "deepseek-reasoner")%string
                      | _ => false
                      end).
  destruct (is_chat || is_reasoner).
  - set (run := callDeepSeekApiStream prompt (apiKey req) _).
    destruct (relay_chunks_only is_reasoner (filter nonempty_delta (deltas run)) "" "")
      as (chunks & Hw & Hc).
    destruct (relay is_reasoner _ "" "") as [[ws fullResponse] fullReasoning].
    cbn [fst] in Hw. subst ws.
    destruct (rejection run) as [message|]; cbn [fst ContentCache.ret].
    + exists chunks. eexists. split; [unfold fail; reflexivity|]. auto.
    + exists chunks. eexists. split; [reflexivity|]. auto.
  - cbn [fst ContentCache.ret]. exists []. eexists. split; [unfold fail; reflexivity|]. auto.
Qed.

End WithCollaborators.

End AgentRouteFacts.

(* ===================================================================== *)
(** * The claims about the content cache *)
(* ===================================================================== *)

(** The environment of the concrete runs below: every reading of the clock
    before [late_from] is 0 and every later one lies past the TTL; the
    random suffix names the draw; the identity stands in for the digest
    (any function gives the same runs on texts that differ). *)
Definition late_clock (late_from : nat) (k : nat) : Z :=
  if (k <? late_from)%nat then 0 else ContentCache.CACHE_TTL + 1.

Definition demo_random (k : nat) : string := "r" ++ JS.Z_to_string (Z.of_nat k).

Definition demo_hash (s : string) : string := s.

Definition demo_contents : list string :=
  map (fun i => "doc" ++ JS.Z_to_string (Z.of_nat i)) (seq 0 50).

(** C10. For an input that is the empty string or not a string,
    [storeContent] returns [{ contentId: null, isNew: false, size: 0 }] and
    the world, hence the cache map, is unchanged: nothing is added, evicted
    or refreshed. *)
Theorem C10_storeContent_rejects_non_text :
  forall Date_now_at Math_random_at generateHash (arg : JS.value) (w : ContentCache.World),
    (forall s, arg = JS.Str s -> s = "") ->
    ContentCache.storeContent Date_now_at Math_random_at generateHash arg w =
    ({| ContentCache.contentId := None; ContentCache.isNew := false; ContentCache.size := 0 |}, w).
Proof.
  intros. now apply ContentCacheFacts.storeContent_invalid.
Qed.

(** C10 at the empty string and at a number, on a cache holding one entry. *)
Lemma C10_witness :
  let w := ContentCache.run_ops (late_clock 4) demo_random demo_hash
             [ContentCache.OpStore (JS.Str "abc")] ContentCache.emptyWorld in
  ContentCache.storeContent (late_clock 4) demo_random demo_hash (JS.Str "") w =
  ({| ContentCache.contentId := None; ContentCache.isNew := false; ContentCache.size := 0 |}, w)
  /\
  ContentCache.storeContent (late_clock 4) demo_random demo_hash (JS.Num 7 0) w =
  ({| ContentCache.contentId := None; ContentCache.isNew := false; ContentCache.size := 0 |}, w).
Proof.
  split.
  - apply (C10_storeContent_rejects_non_text (late_clock 4) demo_random demo_hash (JS.Str "")).
    intros s [= <-]. reflexivity.
  - apply (C10_storeContent_rejects_non_text (late_clock 4) demo_random demo_hash (JS.Num 7 0)).
    intros s [=].
Defined.

(** C8. After any sequence of [storeContent], [getContent],
    [cleanExpiredCache] and [clearCache] calls from the empty cache, no two
    entries have the same content hash and the map holds at most 50
    entries. *)
Theorem C8_cache_invariants :
  forall Date_now_at Math_random_at generateHash (ops : list ContentCache.op),
    let c := ContentCache.contentCache
               (ContentCache.run_ops Date_now_at Math_random_at generateHash ops
                  ContentCache.emptyWorld) in
    NoDup (map (fun kv => ContentCache.hash (snd kv)) c) /\
    (ContentCache.map_size c <= 50)%nat.
Proof.
  intros clock rnd h ops c.
  pose proof (ContentCacheFacts.wf_run_ops clock rnd h ops ContentCache.emptyWorld
                ContentCacheFacts.wf_empty) as H.
  split; [apply (ContentCacheFacts.wf_hashes _ H)|apply (ContentCacheFacts.wf_size _ H)].
Qed.





(** Fifty [storeContent] calls with fifty different texts. *)
Definition fill_ops : list ContentCache.op :=
  map (fun s => ContentCache.OpStore (JS.Str s)) demo_contents.



(* ===================================================================== *)
(** * The claims about the orchestration loop *)
(* ===================================================================== *)

(** A concrete run: a model that answers every request with a [view_file]
    call, a server that answers in time, and simple stand-ins for the
    renderings. *)
Definition demo_view_call : ToolParser.ToolCall :=
  {| ToolParser.tool_name := "view_file"; ToolParser.parameters := JS.Obj [] |}.

Definition demo_reply : AgentChat.AgentResponse :=
  {| AgentChat.response := "Let me look at the file.";
     AgentChat.rs_reasoning := None;
     AgentChat.rs_tool_calls := Some [demo_view_call] |}.

Definition demo_sendRequest (k : nat) (streaming : bool) (request : AgentChat.AgentRequest)
  : AgentChat.RequestRun :=
  {| AgentChat.chunks := []; AgentChat.settle := AgentChat.Resolved demo_reply |}.

Definition demo_storeContent (k : nat) (paper : string) : Exn string :=
  Returned "content_1_abc".

Definition demo_otherTool (k : nat) (name : string) (parameters : JS.value)
           (editor_content : option string) : Exn ToolExecutor.ToolResult :=
  Returned {| ToolExecutor.success := true;
              ToolExecutor.data :=
                JS.Obj [("file_path", JS.Str "main.tex");
                        ("content", match editor_content with
                                    | Some text => JS.Str text
                                    | None => JS.Undefined
                                    end)];
              ToolExecutor.error := None |}.

Definition demo_handleSend (transport : nat -> AgentChat.Transport)
  : option (AgentChat.Outcome * AgentChat.State) :=
  AgentChat.handleSend "Hello" [] true "please check" "sk-demo" AgentChat.discuss
    AgentChat.qwen demo_storeContent demo_sendRequest transport
    (fun _ => "") (fun _ => None) demo_otherTool (fun _ => "{}")
    (fun _ _ => Returned []) (fun _ => ("id", "now")) (fun e => e).






(** C9.  A successful [executeEditFile] returns the modified document under
    [data.new_content] and has no [data.content].  Hence a pass of the loop
    for an [edit_file] call leaves the editor content the loop holds
    unchanged and does not call [onUpdateContent]; and in every run each
    tool execution receives the content the editor held when the run
    began. *)
Theorem C9_edit_file_result_never_updates_editor :
  forall editorContent messages hasSetMessages input currentApiKey writingMode model
         svc_storeContent svc_sendRequest transport ToString ToNumber executeOtherTool
         JSON_stringify summarize history_stamp formatError,
    (forall parameters editor_content result,
        ToolExecutor.executeEditFile ToString ToNumber parameters editor_content
        = Returned result ->
        ToolExecutor.success result = true ->
        JS.get (ToolExecutor.data result) "content" = JS.Undefined /\
        exists newContent,
          JS.get (ToolExecutor.data result) "new_content" = JS.Str newContent) /\
    (forall useStreaming toolCall st,
        ToolParser.tool_name toolCall = "edit_file" ->
        let after := snd (AgentChat.iteration hasSetMessages currentApiKey writingMode model
                            svc_storeContent svc_sendRequest transport ToString ToNumber
                            executeOtherTool JSON_stringify summarize history_stamp
                            useStreaming toolCall st) in
        AgentChat.currentEditorContent after = AgentChat.currentEditorContent st /\
        AgentChat.count AgentChat.is_update (AgentChat.calls after)
        = AgentChat.count AgentChat.is_update (AgentChat.calls st)) /\
    (exists outcome st,
        AgentChat.handleSend editorContent messages hasSetMessages input currentApiKey
          writingMode model svc_storeContent svc_sendRequest transport ToString ToNumber
          executeOtherTool JSON_stringify summarize history_stamp formatError
        = Some (outcome, st) /\
        AgentChat.currentEditorContent st = editorContent /\
        forall n p ed, In (AgentChat.CallTool n p ed) (AgentChat.calls st) ->
                       ed = editorContent).
Proof.
  intros. split; [|split].
  - intros parameters editor_content result. apply AgentChatFacts.executeEditFile_shape.
  - intros useStreaming toolCall st _. cbv zeta.
    destruct (AgentChatFacts.iteration_spec hasSetMessages currentApiKey writingMode model
                svc_storeContent svc_sendRequest transport ToString ToNumber executeOtherTool
                JSON_stringify summarize history_stamp useStreaming toolCall st)
      as (He & _).
    destruct (AgentChatFacts.iteration_counts hasSetMessages currentApiKey writingMode model
                svc_storeContent svc_sendRequest transport ToString ToNumber executeOtherTool
                JSON_stringify summarize history_stamp useStreaming toolCall st)
      as (_ & Hu & _).
    split; assumption.
  - destruct (AgentChatFacts.handleSend_total editorContent messages hasSetMessages input
                currentApiKey writingMode model svc_storeContent svc_sendRequest transport
                ToString ToNumber executeOtherTool JSON_stringify summarize history_stamp
                formatError) as (outcome & st & Hrun & _ & Htools & He & _).
    exists outcome, st. auto.
Qed.

(** An [edit_file] call that appends a line. *)
Definition demo_edit_call : ToolParser.ToolCall :=
  {| ToolParser.tool_name := "edit_file";
     ToolParser.parameters :=
       JS.Obj [("operation", JS.Str "append"); ("content", JS.Str "More text.")] |}.

(** C9 on a successful append to the document [Hello], and on the pass of
    the loop that runs it. *)
Lemma C9_witness :
  let result :=
    {| ToolExecutor.success := true;
       ToolExecutor.data :=
         JS.Obj [("operation", JS.Str "append");
                 ("new_content",
                  JS.Str ("Hello" ++ String "010" (String "010" "") ++ "More text."));
                 ("message", JS.Str "文件已成功追加内容");
                 ("stats", JS.Obj [("old_lines", JS.Num 1 0); ("new_lines", JS.Num 3 0);
                                   ("lines_added", JS.Num 2 0)])];
       ToolExecutor.error := None |} in
  let st := AgentChat.initialState "Hello" [] in
  let after := snd (AgentChat.iteration true "sk-demo" AgentChat.discuss AgentChat.qwen
                      demo_storeContent demo_sendRequest (fun _ => AgentChat.Delivered)
                      (fun _ => "") (fun _ => None) demo_otherTool (fun _ => "{}")
                      (fun _ _ => Returned []) (fun _ => ("id", "now"))
                      false demo_edit_call st) in
  (JS.get (ToolExecutor.data result) "content" = JS.Undefined /\
   exists newContent, JS.get (ToolExecutor.data result) "new_content" = JS.Str newContent) /\
  (AgentChat.currentEditorContent after = AgentChat.currentEditorContent st /\
   AgentChat.count AgentChat.is_update (AgentChat.calls after)
   = AgentChat.count AgentChat.is_update (AgentChat.calls st)).
Proof.
  pose proof (C9_edit_file_result_never_updates_editor "Hello" [] true "please check"
                "sk-demo" AgentChat.discuss AgentChat.qwen demo_storeContent
                demo_sendRequest (fun _ => AgentChat.Delivered) (fun _ => "") (fun _ => None)
                demo_otherTool (fun _ => "{}") (fun _ _ => Returned [])
                (fun _ => ("id", "now")) (fun e => e)) as (Hshape & Hpass & _).
  split.
  - apply (Hshape (ToolParser.parameters demo_edit_call) (Some "Hello")).
    + vm_compute. reflexivity.
    + reflexivity.
  - apply (Hpass false demo_edit_call (AgentChat.initialState "Hello" [])). reflexivity.
Defined.

(* ===================================================================== *)
(** * The claim about the streaming route *)
(* ===================================================================== *)

(** C5, as amended.  Everything the [/stream] route writes ends with exactly
    one terminal event, [complete] or [error], followed by the sentinel.
    When the API key is present and the prompt is built, the sequence begins
    with exactly one [start] event and has only [chunk] events between it
    and the terminal one.  When the API key is missing or building the
    prompt throws, the route writes the [error] event and the sentinel
    only: that sequence has no [start] event. *)
Theorem C5_stream_event_order :
  forall Date_now_at generatePrompt callDeepSeekApiStream
         (req : AgentRoute.Request) (w : ContentCache.World),
    let ws := fst (AgentRoute.stream Date_now_at generatePrompt callDeepSeekApiStream req w) in
    let resolved := fst (AgentRoute.resolveContent Date_now_at (AgentRoute.contentId req)
                           (AgentRoute.content req) w) in
    (JS.truthy (AgentRoute.apiKey req) = false ->
     ws = [AgentRoute.Data (AgentRoute.Error "API Key不能为空"); AgentRoute.Done]) /\
    (forall message,
        generatePrompt resolved (AgentRoute.input req) (AgentRoute.mode req)
          (AgentRoute.messages req) = Thrown message ->
        AgentRouteFacts.refused ws) /\
    (forall prompt,
        JS.truthy (AgentRoute.apiKey req) = true ->
        generatePrompt resolved (AgentRoute.input req) (AgentRoute.mode req)
          (AgentRoute.messages req) = Returned prompt ->
        AgentRouteFacts.opened (AgentRoute.model req) ws) /\
    (AgentRouteFacts.refused ws \/ AgentRouteFacts.opened (AgentRoute.model req) ws).
Proof.
  intros clock gp api req w ws resolved.
  pose proof (AgentRouteFacts.stream_shape clock gp api req w) as H. cbv zeta in H.
  fold ws in H. fold resolved in H.
  split; [apply AgentRouteFacts.stream_without_key|].
  destruct (JS.truthy (AgentRoute.apiKey req)).
  - destruct (gp resolved _ _ _) as [prompt|message].
    + repeat split; auto; discriminate.
    + repeat split; auto; discriminate.
  - repeat split; auto; discriminate.
Qed.

(** The collaborators of the concrete requests below: a prompt builder that
    succeeds and a back end that streams two fragments. *)
Definition demo_prompt (content input mode messages : JS.value) : Exn string :=
  Returned "prompt".

Definition demo_stream (prompt : string) (apiKey : JS.value) (actualModel : string)
  : AgentRoute.StreamRun :=
  {| AgentRoute.deltas := [("Hi", ""); (" there.", "")]; AgentRoute.rejection := None |}.

Definition demo_request (apiKey : JS.value) : AgentRoute.Request :=
  {| AgentRoute.content := JS.Str "Hello"; AgentRoute.contentId := JS.Undefined;
     AgentRoute.input := JS.Str "hello"; AgentRoute.mode := JS.Str "discuss";
     AgentRoute.model := JS.Str "deepseek"; AgentRoute.apiKey := apiKey;
     AgentRoute.messages := JS.Arr [] |}.

(** C5 on a request with a key (the stream is opened) and on one without. *)
Lemma C5_witness :
  AgentRouteFacts.opened (JS.Str "deepseek")
    (fst (AgentRoute.stream (late_clock 4) demo_prompt demo_stream
            (demo_request (JS.Str "sk-demo")) ContentCache.emptyWorld)) /\
  fst (AgentRoute.stream (late_clock 4) demo_prompt demo_stream
         (demo_request (JS.Str "")) ContentCache.emptyWorld)
  = [AgentRoute.Data (AgentRoute.Error "API Key不能为空"); AgentRoute.Done].
Proof.
  split.
  - apply (C5_stream_event_order (late_clock 4) demo_prompt demo_stream
             (demo_request (JS.Str "sk-demo")) ContentCache.emptyWorld) with (prompt := "prompt");
      reflexivity.
  - apply (C5_stream_event_order (late_clock 4) demo_prompt demo_stream
             (demo_request (JS.Str "")) ContentCache.emptyWorld).
    reflexivity.
Defined.

(** C5 as stated fails: for a request without an API key the route writes
    an [error] event and the sentinel, and no [start] event at all; with a
    key the same request yields [start], two chunks and [complete]. *)
Lemma C5_counterexample :
  fst (AgentRoute.stream (late_clock 4) demo_prompt demo_stream
         (demo_request (JS.Str "")) ContentCache.emptyWorld)
  = [AgentRoute.Data (AgentRoute.Error "API Key不能为空"); AgentRoute.Done] /\
  fst (AgentRoute.stream (late_clock 4) demo_prompt demo_stream
         (demo_request (JS.Str "sk-demo")) ContentCache.emptyWorld)
  = [AgentRoute.Data (AgentRoute.Start (JS.Str "deepseek"));
     AgentRoute.Data (AgentRoute.Chunk "Hi" "Hi" None);
     AgentRoute.Data (AgentRoute.Chunk " there." "Hi there." None);
     AgentRoute.Data (AgentRoute.Complete "Hi there." None None);
     AgentRoute.Done].
Proof. vm_compute. split; reflexivity. Qed.

(* ===================================================================== *)
(** * The claims about the reply parser *)
(* ===================================================================== *)

(** A reply that opens with a bare call object (format 3) for [view_file]
    and continues with a labelled call (format 1) for [list_resources]. *)
Definition demo_bare_call : string :=
  JS.dq "{'tool_name': 'view_file', 'parameters': {'file_path': 'main.tex'}}".

Definition demo_labelled_call : string :=
  JS.dq "TOOL_CALL: {'tool_name': 'list_resources', 'parameters': {'resource_type': 'notes'}}".

Definition demo_two_calls : string := demo_bare_call ++ " " ++ demo_labelled_call.

(** C2. [parseToolCalls] never returns more than one call, but the call it
    returns is chosen by format, not by position: the labelled format is
    tried on the whole reply before the bare-object format.  On
    [demo_two_calls] the first marker, at position 0, is the bare object
    for [view_file] (alone it decodes to that call, and
    [extractContentBeforeToolCall] cuts the reply there); the call returned is the
    one for [list_resources], whose marker starts at position 68. *)
Theorem C2_parse_prefers_format_over_position :
  (forall response, (List.length (ToolParser.parseToolCalls response) <= 1)%nat) /\
  ToolParserFacts.marker_atb demo_two_calls 0 = true /\
  ToolParserFacts.marker_atb demo_two_calls 68 = true /\
  ToolParser.parseToolCalls demo_bare_call
  = [ {| ToolParser.tool_name := "view_file";
         ToolParser.parameters := JS.Obj [("file_path", JS.Str "main.tex")] |} ] /\
  ToolParser.parseToolCalls demo_labelled_call
  = [ {| ToolParser.tool_name := "list_resources";
         ToolParser.parameters := JS.Obj [("resource_type", JS.Str "notes")] |} ] /\
  ToolParser.parseToolCalls demo_two_calls
  = [ {| ToolParser.tool_name := "list_resources";
         ToolParser.parameters := JS.Obj [("resource_type", JS.Str "notes")] |} ] /\
  ToolParser.firstToolCallIndex demo_two_calls = 0 /\
  ToolParser.extractContentBeforeToolCall demo_two_calls = "".
Proof.
  split.
  - intros response. unfold ToolParser.parseToolCalls.
    destruct (response =? "")%string; [simpl; lia|].
    induction ToolParser.patterns as [|[f pattern] rest IH]; simpl; [lia|].
    destruct (Regex.exec pattern response) as [mr|]; [|assumption].
    destruct (ToolParser.decode f mr); [simpl; lia|assumption].
  - vm_compute. repeat split; reflexivity.
Qed.

(** C3, amended.  A marker is any of the three shapes of
    [ToolParserFacts.marker_here] starting at a position of the text.  For
    every text: with no marker anywhere, [extractContentBeforeToolCall]
    returns the text unchanged; with a marker at position 0 it returns the
    empty string; and when the first marker starts at a position [i > 0] it
    returns the [i] characters before the marker with the white space at
    both ends removed.  Whether the marker decodes as a call plays no part. *)
Theorem C3_prefix_before_first_marker (text : string) :
  ((forall i, ~ ToolParserFacts.marker_at text i) ->
   ToolParser.extractContentBeforeToolCall text = text) /\
  (ToolParserFacts.marker_at text 0 ->
   ToolParser.extractContentBeforeToolCall text = "") /\
  (forall i, (0 < i)%nat ->
             ToolParserFacts.marker_at text i ->
             (forall j, (j < i)%nat -> ~ ToolParserFacts.marker_at text j) ->
             ToolParser.extractContentBeforeToolCall text
             = JS.trim (substring 0 i text)).
Proof. exact (ToolParserFacts.extract_spec text). Qed.

(** A reply whose sentence is separated from the marker by two spaces, and
    whose marker names no tool at all. *)
Definition demo_spaced_marker : string := "Hello  TOOL_CALL: {".

(** C3 on a text without marker, on one that starts with a marker, and on
    [demo_spaced_marker], whose first marker is at position 7. *)
Lemma C3_witness :
  ToolParser.extractContentBeforeToolCall "Hello." = "Hello." /\
  ToolParser.extractContentBeforeToolCall demo_labelled_call = "" /\
  ToolParser.extractContentBeforeToolCall demo_spaced_marker
  = JS.trim (substring 0 7 demo_spaced_marker).
Proof.
  split; [|split].
  - apply (C3_prefix_before_first_marker "Hello.").
    intros i Hi. apply ToolParserFacts.marker_atb_spec in Hi.
    do 7 (destruct i as [|i]; [vm_compute in Hi; discriminate Hi|]).
    vm_compute in Hi. discriminate Hi.
  - apply (C3_prefix_before_first_marker demo_labelled_call).
    apply ToolParserFacts.marker_atb_spec. vm_compute. reflexivity.
  - apply (C3_prefix_before_first_marker demo_spaced_marker).
    + lia.
    + apply ToolParserFacts.marker_atb_spec. vm_compute. reflexivity.
    + intros j Hj Hm. apply ToolParserFacts.marker_atb_spec in Hm.
      do 7 (destruct j as [|j]; [vm_compute in Hm; discriminate Hm|]).
      lia.
Defined.

(** C3 as stated fails: the first marker of [demo_spaced_marker] is at
    position 7, the text before it is the word Hello and two spaces, and the
    function returns the word alone. *)
Lemma C3_counterexample :
  ToolParserFacts.marker_atb demo_spaced_marker 7 = true /\
  forallb (fun j => negb (ToolParserFacts.marker_atb demo_spaced_marker j)) (seq 0 7) = true /\
  substring 0 7 demo_spaced_marker = "Hello  " /\
  ToolParser.extractContentBeforeToolCall demo_spaced_marker = "Hello" /\
  ("Hello" =? "Hello  ")%string = false.
Proof. vm_compute. repeat split; reflexivity. Qed.

(* ===================================================================== *)
(** * Strings: append, length, prefixes and suffixes *)
(* ===================================================================== *)

Module StringFacts.

Import ToolParserFacts.

Lemma append_nil_r s : s ++ "" = s.
Proof. induction s; simpl; congruence. Qed.

Lemma append_assoc a : forall b c, (a ++ b) ++ c = a ++ b ++ c.
Proof. induction a; intros; simpl; congruence. Qed.

Lemma length_append a : forall b,
    String.length (a ++ b) = (String.length a + String.length b)%nat.
Proof. induction a; intros; simpl; auto. Qed.

Lemma length_drop i : forall s, String.length (drop i s) = (String.length s - i)%nat.
Proof. induction i; intros [|c s]; simpl; auto. Qed.

Lemma drop_nil i : drop i "" = "".
Proof. now destruct i. Qed.

(** A text is its first [i] characters followed by the rest. *)
Lemma substring_drop i : forall s, substring 0 i s ++ drop i s = s.
Proof. induction i; intros [|c s]; simpl; auto. now rewrite IHi. Qed.

Lemma length_substring_le i : forall s, (String.length (substring 0 i s) <= i)%nat.
Proof. induction i; intros [|c s]; simpl; auto; try lia. specialize (IHi s). lia. Qed.

Lemma drop_app_le j : forall a b,
    (j <= String.length a)%nat -> drop j (a ++ b) = drop j a ++ b.
Proof.
  induction j; intros a b Hj; [reflexivity|].
  destruct a; simpl in *; [lia|]. apply IHj. lia.
Qed.

Lemma drop_app_plus a : forall j t, drop (String.length a + j) (a ++ t) = drop j t.
Proof. induction a; intros; simpl; auto. Qed.

(** [trimEnd] removes a run of white space from the end. *)
Lemma trimEnd_split s : exists w, spaces w = true /\ s = JS.trimEnd s ++ w.
Proof.
  induction s as [|c s (w & Hw & Hs)]; simpl.
  - exists "". auto.
  - destruct (JS.trimEnd s) as [|d rest] eqn:E.
    + destruct (JS.is_space c) eqn:Hc.
      * exists (String c w). simpl in *. rewrite Hc, Hw. split; [reflexivity|].
        now rewrite <- Hs.
      * exists w. split; [assumption|]. simpl in *. now rewrite <- Hs.
    + exists w. split; [assumption|]. simpl in *. now rewrite <- Hs.
Qed.

(** [trim] keeps a middle piece of the text. *)
Lemma trim_split s :
  exists w1 w2, spaces w1 = true /\ spaces w2 = true /\ s = w1 ++ JS.trim s ++ w2.
Proof.
  destruct (trimStart_split s) as (w1 & Hw1 & Hs).
  destruct (trimEnd_split (JS.trimStart s)) as (w2 & Hw2 & Ht).
  exists w1, w2. repeat split; auto. unfold JS.trim. now rewrite <- Ht.
Qed.

Lemma length_trim_le s : (String.length (JS.trim s) <= String.length s)%nat.
Proof.
  destruct (trim_split s) as (w1 & w2 & _ & _ & Hs).
  rewrite Hs at 2. rewrite !length_append. lia.
Qed.

End StringFacts.

(* ===================================================================== *)
(** * The matcher: one pattern succeeding wherever another does *)
(* ===================================================================== *)

Module RegexFacts.

Import Regex.

Definition succeeds {A : Type} (o : option A) : bool :=
  match o with Some _ => true | None => false end.

(** [sim a b]: wherever [a] followed by a continuation succeeds, [b]
    succeeds when followed by any continuation that succeeds at the same
    places, whatever the captures. *)
Definition sim (a b : re) : Prop :=
  forall (A B : Type) s c1 c2
         (k1 : string -> captures -> option A) (k2 : string -> captures -> option B),
    (forall s' c c', succeeds (k1 s' c) = true -> succeeds (k2 s' c') = true) ->
    succeeds (m a s c1 k1) = true -> succeeds (m b s c2 k2) = true.

Lemma sim_refl r : sim r r.
Proof.
  induction r as [|x|p|a IHa b IHb|a IHa b IHb|a IHa|i a IHa|];
    intros A B s c1 c2 k1 k2 Hk.
  - simpl. apply Hk.
  - destruct s as [|c' rest]; simpl; [auto|]. destruct (Ascii.eqb c' x); [apply Hk|auto].
  - destruct s as [|c' rest]; simpl; [auto|]. destruct (p c'); [apply Hk|auto].
  - simpl. apply IHa. intros s' c c'. now apply IHb.
  - simpl. intros H.
    destruct (m a s c1 k1) eqn:E1.
    + assert (succeeds (m a s c2 k2) = true) as H2 by (apply (IHa A B s c1 c2 k1 k2 Hk); now rewrite E1).
      destruct (m a s c2 k2); [reflexivity|discriminate].
    + destruct (m a s c2 k2); [reflexivity|]. now apply (IHb A B s c1 c2 k1 k2 Hk).
  - simpl. generalize (String.length s) as fuel. intros fuel. revert s c1 c2.
    induction fuel as [|fuel IHf]; intros s c1 c2; [apply Hk|].
    intros H.
    match goal with
    | |- succeeds (match ?x with _ => _ end) = true => destruct x eqn:E2; [reflexivity|]
    end.
    match type of H with
    | succeeds (match ?x with _ => _ end) = true => destruct x eqn:E1
    end.
    + exfalso.
      match type of E2 with
      | m a s c2 ?k = None =>
          assert (succeeds (m a s c2 k) = true) as H2
      end.
      { match type of E1 with
        | m a s c1 ?k = Some _ => apply (IHa A B s c1 c2 k)
        end.
        - intros s' c c'. destruct (String.length s' <? String.length s)%nat; [|auto].
          apply IHf.
        - now rewrite E1. }
      rewrite E2 in H2. discriminate.
    + now apply (Hk s c1 c2).
  - simpl. apply IHa. intros s' c c'. apply Hk.
  - destruct s; simpl; [apply Hk|auto].
Qed.

(** A capturing group matches what its body matches. *)
Lemma sim_Grp i a : sim (Grp i a) a.
Proof.
  intros A B s c1 c2 k1 k2 Hk. simpl. apply sim_refl. intros s' c c'. apply Hk.
Qed.

Lemma sim_Seq a1 a2 b1 b2 : sim a1 a2 -> sim b1 b2 -> sim (Seq a1 b1) (Seq a2 b2).
Proof.
  intros Ha Hb A B s c1 c2 k1 k2 Hk. simpl. apply Ha. intros s' c c'. now apply Hb.
Qed.

(** [leads a b]: wherever [a] followed by anything succeeds, [b] matches. *)
Definition leads (a b : re) : Prop :=
  forall (A : Type) s c1 c2 (k1 : string -> captures -> option A),
    succeeds (m a s c1 k1) = true ->
    succeeds (m b s c2 (fun s' caps => Some (s', caps))) = true.

Lemma leads_sim a b : sim a b -> leads a b.
Proof. intros H A s c1 c2 k1. apply H. reflexivity. Qed.

Lemma leads_prefix a b : leads (Seq a b) a.
Proof. intros A s c1 c2 k1. simpl. apply sim_refl. reflexivity. Qed.

Lemma leads_Seq a1 a2 b1 b2 : sim a1 a2 -> leads b1 b2 -> leads (Seq a1 b1) (Seq a2 b2).
Proof.
  intros Ha Hb A s c1 c2 k1. simpl. apply Ha. intros s' c c'. apply Hb.
Qed.

Lemma leads_Grp i a b : leads a b -> leads (Grp i a) b.
Proof. intros H A s c1 c2 k1. simpl. apply H. Qed.

Lemma leads_trans a b c : leads a b -> leads b c -> leads a c.
Proof. intros Hab Hbc A s c1 c2 k1 H. exact (Hbc _ s [] c2 _ (Hab A s c1 [] k1 H)). Qed.

Lemma succeeds_matches r s :
  ToolParserFacts.matches r s = succeeds (match_here r s).
Proof. reflexivity. Qed.

(** [exec] finds a match exactly when the pattern matches somewhere. *)
Lemma test_iff r text :
  ToolMarkers.test r text = true <->
  exists i, (i <= String.length text)%nat /\
            ToolParserFacts.matches r (ToolParserFacts.drop i text) = true.
Proof.
  unfold ToolMarkers.test.
  pose proof (ToolParserFacts.first_match_spec r text) as H.
  unfold ToolParserFacts.first_match in H.
  destruct (exec r text) as [mr|]; simpl in H.
  - split; [|reflexivity]. intros _. exists (index mr). tauto.
  - split; [discriminate|]. intros (i & Hi & Hm). rewrite H in Hm by assumption.
    discriminate.
Qed.

Lemma leads_test a b text :
  leads a b -> ToolMarkers.test a text = true -> ToolMarkers.test b text = true.
Proof.
  intros Hab. rewrite !test_iff. intros (i & Hi & Hm). exists i. split; [assumption|].
  rewrite succeeds_matches in *. exact (Hab _ _ _ _ _ Hm).
Qed.

End RegexFacts.

(* ===================================================================== *)
(** * Properties of the reply parser and of the marker queries *)
(* ===================================================================== *)

Module ToolMarkersFacts.

Import Regex ToolParser ToolParserFacts StringFacts RegexFacts.

(** *** What [parseToolCalls] returns *)

Lemma accept_sound toolCall call :
  accept toolCall = Some call ->
  isValidTool (JS.Str (tool_name call)) = true /\ JS.truthy (parameters call) = true.
Proof.
  unfold accept.
  destruct (JS.truthy (JS.get toolCall "tool_name")
            && JS.truthy (JS.get toolCall "parameters")) eqn:Hg; [|discriminate].
  apply andb_prop in Hg as [_ Hp].
  destruct (JS.get toolCall "tool_name") as [| |b|mm e|n|l|l]; try discriminate.
  destruct (isValidTool (JS.Str n)) eqn:Hv; [|discriminate].
  intros [= <-]. simpl. auto.
Qed.

Lemma fallback_sound match0 call :
  fallback match0 = Some call ->
  isValidTool (JS.Str (tool_name call)) = true /\ JS.truthy (parameters call) = true.
Proof.
  unfold fallback.
  destruct (Json.parse _) as [[| |b|mm e|n|l|l]|]; try discriminate; apply accept_sound.
Qed.

Lemma decode_sound f mr call :
  decode f mr = Some call ->
  isValidTool (JS.Str (tool_name call)) = true /\ JS.truthy (parameters call) = true.
Proof.
  unfold decode. destruct f.
  - destruct (Json.parse (JS.trim (group 1 mr))) as [toolCall|]; [|apply fallback_sound].
    destruct (JS.truthy toolCall); [apply accept_sound|discriminate].
  - destruct (Json.parse (JS.trim (group 1 mr))) as [toolCall|]; [|apply fallback_sound].
    destruct (JS.truthy toolCall); [apply accept_sound|discriminate].
  - destruct (Json.parse (group 2 mr)); [apply accept_sound|apply fallback_sound].
Qed.

(** A call comes from one of the patterns having matched, and is alone. *)
Lemma try_patterns_sound response : forall ps call,
    In call (try_patterns ps response) ->
    try_patterns ps response = [call] /\
    isValidTool (JS.Str (tool_name call)) = true /\
    JS.truthy (parameters call) = true /\
    exists f pattern, In (f, pattern) ps /\ ToolMarkers.test pattern response = true.
Proof.
  induction ps as [|[f pattern] rest IH]; intros call; simpl; [intros []|].
  unfold ToolMarkers.test.
  destruct (exec pattern response) as [mr|] eqn:E.
  - destruct (decode f mr) as [found|] eqn:D.
    + intros [->|[]]. destruct (decode_sound _ _ _ D). repeat split; auto.
      exists f, pattern. rewrite E. auto.
    + intros H. destruct (IH call H) as (H1 & H2 & H3 & f' & p' & Hin & Ht).
      repeat split; auto. exists f', p'. auto.
  - intros H. destruct (IH call H) as (H1 & H2 & H3 & f' & p' & Hin & Ht).
    repeat split; auto. exists f', p'. auto.
Qed.

(** *** The patterns of the three functions, compared *)

Definition has1 : re := nth 0 ToolMarkers.patterns Eps.
Definition has2 : re := nth 1 ToolMarkers.patterns Eps.
Definition has3 : re := nth 2 ToolMarkers.patterns Eps.

Lemma has_patterns_eq : ToolMarkers.patterns = [has1; has2; has3].
Proof. reflexivity. Qed.

Ltac step := apply leads_Seq; [first [apply sim_refl | apply sim_Grp]|].

Lemma pattern1_leads : leads pattern1 has1.
Proof. unfold pattern1, has1. simpl nth. do 2 step. apply leads_Grp, leads_prefix. Qed.

Lemma pattern2_leads : leads pattern2 has2.
Proof. unfold pattern2, has2. simpl nth. do 2 step. apply leads_prefix. Qed.

Lemma pattern3_leads : leads pattern3 has3.
Proof. unfold pattern3, has3. simpl nth. do 14 step. apply leads_prefix. Qed.

Lemma has3_leads : leads has3 patternC.
Proof. unfold patternC, has3. simpl nth. do 4 step. apply leads_prefix. Qed.

(** Whatever [hasToolCall] finds is a marker of
    [extractContentBeforeToolCall]. *)
Lemma hasToolCall_marker text :
  ToolMarkers.hasToolCall text = true -> exists i, marker_at text i.
Proof.
  unfold ToolMarkers.hasToolCall. destruct (text =? "")%string; [discriminate|].
  rewrite has_patterns_eq. cbn [existsb]. rewrite orb_false_r, !orb_true_iff.
  intros H.
  assert (exists r, In r toolCallPatterns /\ ToolMarkers.test r text = true)
    as (r & Hr & Ht).
  { rewrite toolCallPatterns_eq.
    destruct H as [H|[H|H]].
    - exists patternA. split; [simpl; auto|exact H].
    - exists patternB. split; [simpl; auto|exact H].
    - exists patternC. split; [simpl; auto|]. exact (leads_test _ _ _ has3_leads H). }
  apply test_iff in Ht as (i & Hi & Hm). exists i. apply marker_atb_spec.
  unfold marker_atb. apply andb_true_intro. split; [now apply Nat.leb_le|].
  apply existsb_exists. eauto.
Qed.

Lemma parse_hasToolCall text :
  parseToolCalls text <> [] -> ToolMarkers.hasToolCall text = true.
Proof.
  intros Hne. unfold ToolMarkers.hasToolCall.
  unfold parseToolCalls in Hne.
  destruct (text =? "")%string; [congruence|].
  destruct (try_patterns patterns text) as [|call rest] eqn:E; [congruence|].
  destruct (try_patterns_sound text patterns call) as (_ & _ & _ & f & p & Hin & Ht).
  { rewrite E. now left. }
  rewrite has_patterns_eq. cbn [existsb]. rewrite orb_false_r, !orb_true_iff.
  unfold patterns in Hin. simpl in Hin.
  destruct Hin as [[= <- <-]|[[= <- <-]|[[= <- <-]|[]]]].
  - left. exact (leads_test _ _ _ pattern1_leads Ht).
  - right. left. exact (leads_test _ _ _ pattern2_leads Ht).
  - right. right. exact (leads_test _ _ _ pattern3_leads Ht).
Qed.

(** *** What is left after [extractContentBeforeToolCall] *)

Lemma marker_here_nonempty s : marker_here s -> s <> "".
Proof. intros [w rest Hw|w rest Hw|w1 w2 rest Hw1 Hw2]; discriminate. Qed.

(** A marker stays one when text is added after it. *)
Lemma marker_here_app s t : marker_here s -> marker_here (s ++ t).
Proof.
  intros [w rest Hw|w rest Hw|w1 w2 rest Hw1 Hw2].
  - replace (("TOOL_CALL:" ++ w ++ String "{" rest) ++ t)
      with ("TOOL_CALL:" ++ w ++ String "{" (rest ++ t)).
    + now constructor.
    + rewrite !append_assoc. reflexivity.
  - replace (("```json" ++ w ++ "TOOL_CALL:" ++ rest) ++ t)
      with ("```json" ++ w ++ "TOOL_CALL:" ++ rest ++ t).
    + now constructor.
    + rewrite !append_assoc. reflexivity.
  - replace (String "{" (w1 ++ JS.quoted "tool_name" ++ w2 ++ String ":" rest) ++ t)
      with (String "{" (w1 ++ JS.quoted "tool_name" ++ w2 ++ String ":" (rest ++ t))).
    + now constructor.
    + simpl. rewrite !append_assoc. simpl. rewrite !append_assoc. reflexivity.
Qed.

Lemma marker_at_lt text i : marker_at text i -> (i < String.length text)%nat.
Proof.
  intros [Hi Hm]. apply marker_here_nonempty in Hm.
  pose proof (length_drop i text) as Hl.
  destruct (drop i text); [congruence|]. simpl in Hl. lia.
Qed.

(** A marker inside a piece of the text is a marker of the text. *)
Lemma marker_at_inside a s b j :
  marker_at s j -> marker_at (a ++ s ++ b) (String.length a + j).
Proof.
  intros [Hj Hm]. split.
  - rewrite !length_append. lia.
  - rewrite drop_app_plus, drop_app_le by assumption. now apply marker_here_app.
Qed.

Lemma extract_no_marker text i : ~ marker_at (extractContentBeforeToolCall text) i.
Proof.
  destruct (firstToolCallIndex_spec text) as [[_ Hnone]|(n & _ & Hn & Hleast)].
  - destruct (extract_spec text) as (-> & _); auto.
  - destruct (extract_spec text) as (_ & H0 & Hpos).
    destruct n as [|n].
    + rewrite H0 by assumption. intros [Hi Hm]. simpl in Hi.
      assert (i = 0)%nat as -> by lia. now apply marker_here_nonempty in Hm.
    + rewrite (Hpos (S n)) by (auto; lia).
      set (pre := substring 0 (S n) text).
      intros Hm.
      destruct (trim_split pre) as (w1 & w2 & _ & _ & Hpre).
      pose proof (marker_at_lt _ _ Hm) as Hlt.
      apply (marker_at_inside w1 _ (w2 ++ drop (S n) text)) in Hm.
      replace (w1 ++ JS.trim pre ++ w2 ++ drop (S n) text) with text in Hm.
      * apply (Hleast _) in Hm; [assumption|].
        pose proof (length_substring_le (S n) text) as Hle. fold pre in Hle.
        rewrite Hpre in Hle. rewrite !length_append in Hle. lia.
      * rewrite <- (substring_drop (S n) text) at 1. fold pre. rewrite Hpre at 1.
        rewrite !append_assoc. reflexivity.
Qed.

End ToolMarkersFacts.

(* ===================================================================== *)
(** * Further properties of the reply parser *)
(* ===================================================================== *)

(** A reply with one labelled call, after a sentence. *)
Definition sample_reply : string :=
  JS.dq "I will look at the file. TOOL_CALL: {'tool_name': 'view_file', 'parameters': {}}".

(** X1.  Whatever [parseToolCalls] returns is a single call, names one of
    the tools of [AVAILABLE_TOOLS] and has truthy parameters: a reply never
    yields a call to an unknown tool, in any of the three formats or through
    the fallback parse. *)
Theorem parseToolCalls_returns_known_tool :
  forall response call,
    In call (ToolParser.parseToolCalls response) ->
    ToolParser.parseToolCalls response = [call] /\
    In (ToolParser.tool_name call)
       (map ToolDefinitions.name ToolDefinitions.AVAILABLE_TOOLS) /\
    JS.truthy (ToolParser.parameters call) = true.
Proof.
  intros response call. unfold ToolParser.parseToolCalls.
  destruct (response =? "")%string; [intros []|].
  intros H.
  destruct (ToolMarkersFacts.try_patterns_sound response _ call H) as (H1 & H2 & H3 & _).
  repeat split; auto.
  unfold ToolParser.isValidTool in H2.
  apply existsb_exists in H2 as (tool & Hin & Hname).
  apply String.eqb_eq in Hname. rewrite <- Hname. now apply in_map.
Qed.

Lemma parseToolCalls_returns_known_tool_witness :
  ToolParser.parseToolCalls sample_reply
  = [ {| ToolParser.tool_name := "view_file"; ToolParser.parameters := JS.Obj [] |} ] /\
  In "view_file" (map ToolDefinitions.name ToolDefinitions.AVAILABLE_TOOLS) /\
  JS.truthy (JS.Obj []) = true.
Proof.
  apply (parseToolCalls_returns_known_tool sample_reply
           {| ToolParser.tool_name := "view_file"; ToolParser.parameters := JS.Obj [] |}).
  vm_compute. left. reflexivity.
Defined.

(** X2.  Whenever [parseToolCalls] finds a call in a reply, [hasToolCall]
    answers true for that reply. *)
Theorem parsed_call_is_announced :
  forall response,
    ToolParser.parseToolCalls response <> [] ->
    ToolMarkers.hasToolCall response = true.
Proof. exact ToolMarkersFacts.parse_hasToolCall. Qed.

Lemma parsed_call_is_announced_witness : ToolMarkers.hasToolCall sample_reply = true.
Proof.
  apply (parsed_call_is_announced sample_reply). vm_compute. discriminate.
Defined.

(** X3.  Whenever [hasToolCall] answers true, the reply has a marker, and
    [extractContentBeforeToolCall] returns a text strictly shorter than the
    reply: the marker and everything after it are cut off. *)
Theorem announced_call_is_cut_off :
  forall response,
    ToolMarkers.hasToolCall response = true ->
    (exists i, ToolParserFacts.marker_at response i) /\
    (String.length (ToolParser.extractContentBeforeToolCall response)
     < String.length response)%nat.
Proof.
  intros response H.
  pose proof (ToolMarkersFacts.hasToolCall_marker response H) as Hex.
  split; [exact Hex|]. destruct Hex as (i & Hi).
  destruct (ToolParserFacts.firstToolCallIndex_spec response)
    as [[_ Hnone]|(n & _ & Hn & Hleast)].
  - now destruct (Hnone i).
  - pose proof (ToolMarkersFacts.marker_at_lt _ _ Hn) as Hlt.
    destruct (ToolParserFacts.extract_spec response) as (_ & H0 & Hpos).
    destruct n as [|n].
    + rewrite H0 by assumption. simpl. lia.
    + rewrite (Hpos (S n)) by (auto; lia).
      pose proof (StringFacts.length_trim_le (substring 0 (S n) response)).
      pose proof (StringFacts.length_substring_le (S n) response). lia.
Qed.

Lemma announced_call_is_cut_off_witness :
  (exists i, ToolParserFacts.marker_at sample_reply i) /\
  (String.length (ToolParser.extractContentBeforeToolCall sample_reply)
   < String.length sample_reply)%nat.
Proof. apply (announced_call_is_cut_off sample_reply). vm_compute. reflexivity. Defined.

(** X4.  The text [extractContentBeforeToolCall] returns has no marker left
    at any position.  So the function is idempotent, and neither
    [parseToolCalls] nor [hasToolCall] finds a call in what it returns;
    [removeToolCallsFromResponse] is the same function. *)
Theorem extract_leaves_no_tool_call :
  forall response,
    let visible := ToolParser.extractContentBeforeToolCall response in
    (forall i, ~ ToolParserFacts.marker_at visible i) /\
    ToolParser.extractContentBeforeToolCall visible = visible /\
    ToolParser.parseToolCalls visible = [] /\
    ToolMarkers.hasToolCall visible = false /\
    ToolMarkers.removeToolCallsFromResponse response = visible.
Proof.
  intros response visible.
  assert (forall i, ~ ToolParserFacts.marker_at visible i) as Hnone
      by (intros i; apply ToolMarkersFacts.extract_no_marker).
  assert (ToolMarkers.hasToolCall visible = false) as Hhas.
  { destruct (ToolMarkers.hasToolCall visible) eqn:E; [|reflexivity].
    destruct (ToolMarkersFacts.hasToolCall_marker _ E) as (i & Hi). now destruct (Hnone i). }
  split; [exact Hnone|].
  split; [now apply (ToolParserFacts.extract_spec visible)|].
  split; [|split; [exact Hhas|reflexivity]].
  destruct (ToolParser.parseToolCalls visible) as [|call rest] eqn:E; [reflexivity|].
  assert (ToolMarkers.hasToolCall visible = true) as Hyes
      by (apply ToolMarkersFacts.parse_hasToolCall; rewrite E; discriminate).
  congruence.
Qed.

(* ===================================================================== *)
(** * Properties of the cache: what is stored can be read *)
(* ===================================================================== *)

Module ContentRouteFacts.

Import ContentCache ContentCacheFacts.

Lemma map_get_delete_other id other c :
  other <> id -> map_get other (map_delete id c) = map_get other c.
Proof.
  intros Hne. induction c as [|[k e] c IH]; simpl; [reflexivity|].
  destruct (String.eqb_spec k id) as [->|Hk].
  - destruct (String.eqb_spec id other); [congruence|assumption].
  - simpl. now rewrite IH.
Qed.

Lemma map_get_set_other id other e c :
  other <> id -> map_get other (map_set id e c) = map_get other c.
Proof.
  intros Hne. induction c as [|[k e'] c IH]; simpl.
  - destruct (String.eqb_spec id other); [congruence|reflexivity].
  - destruct (String.eqb_spec k id) as [->|Hk]; simpl.
    + destruct (String.eqb_spec id other); [congruence|reflexivity].
    + now rewrite IH.
Qed.

Lemma map_delete_length_le id c : (List.length (map_delete id c) <= List.length c)%nat.
Proof.
  induction c as [|[k e] c IH]; simpl; [lia|]. destruct (k =? id)%string; simpl; lia.
Qed.

Section WithEnvironment.

Variable Date_now_at : nat -> Z.
Variable Math_random_at : nat -> string.
Variable generateHash : string -> string.

Local Abbreviation storeContent := (storeContent Date_now_at Math_random_at generateHash).
Local Abbreviation getContent := (getContent Date_now_at).

(** No cached entry has the hash of [content] and another content. *)
Definition no_collision (content : string) (c : Cache) : Prop :=
  forall id e, In (id, e) c -> hash e = generateHash content ->
               ContentCache.content e = content.

(** After a store of a non-empty text: the identifier returned names an
    entry with that text, last accessed at the last clock reading of the
    store. *)
Lemma storeContent_entry content w :
  wf (contentCache w) -> content <> "" -> no_collision content (contentCache w) ->
  exists id e,
    contentId (fst (storeContent (JS.Str content) w)) = Some id /\
    size (fst (storeContent (JS.Str content) w)) = JS.strlen content /\
    id <> "" /\
    map_get id (contentCache (snd (storeContent (JS.Str content) w))) = Some e /\
    ContentCache.content e = content /\
    lastAccess e = Date_now_at (dateCalls (snd (storeContent (JS.Str content) w)) - 1).
Proof.
  intros Hwf Hne Hnc.
  destruct (find_hash (generateHash content) (contentCache w)) as [[id cached]|] eqn:Hf.
  - rewrite (storeContent_hit _ _ _ content w id cached Hne Hf). cbn [fst snd contentId size
      contentCache dateCalls].
    apply find_hash_Some in Hf as [Hin Hh].
    assert (ContentCache.content cached = content) as Hc by (apply (Hnc id); assumption).
    exists id, (touch (Date_now_at (dateCalls w)) cached).
    assert (id <> "") as Hid.
    { pose proof (wf_nonempty _ Hwf) as Hn. rewrite Forall_forall in Hn. apply (Hn _ Hin). }
    rewrite Hc, map_get_set_same. repeat split; auto; simpl; f_equal; lia.
  - rewrite (storeContent_new _ _ _ content w Hne Hf). cbn [fst snd contentId size
      contentCache dateCalls].
    exists (new_id Date_now_at Math_random_at w), (new_entry Date_now_at generateHash content w).
    pose proof (content_id_nonempty (Date_now_at (S (dateCalls w)))
                  (Math_random_at (randomCalls w))) as Hid.
    rewrite map_get_set_same. repeat split; auto; simpl; f_equal; lia.
Qed.

(** What [getContent] returns was in the map, under that identifier and
    not expired; other entries are left as they were. *)
Lemma getContent_sound id w :
  (forall text, fst (getContent id w) = Some text ->
                exists e, map_get id (contentCache w) = Some e /\
                          ContentCache.content e = text /\
                          expired (Date_now_at (dateCalls w)) e = false) /\
  (forall other, other <> id ->
                 map_get other (contentCache (snd (getContent id w)))
                 = map_get other (contentCache w)) /\
  (List.length (contentCache (snd (getContent id w))) <= List.length (contentCache w))%nat.
Proof.
  unfold ContentCache.getContent.
  destruct (negb (JS.truthy (JS.Str id))).
  { simpl. repeat split; auto. discriminate. }
  unfold bind, getCache. cbn [fst snd].
  destruct (map_get id (contentCache w)) as [cached|] eqn:Hget.
  2:{ simpl. repeat split; auto. discriminate. }
  unfold Date_now. cbn [fst snd dateCalls contentCache].
  destruct (expired (Date_now_at (dateCalls w)) cached) eqn:He; cbn.
  - repeat split; [discriminate| |apply map_delete_length_le].
    intros other Hne. now apply map_get_delete_other.
  - repeat split.
    + intros text [= <-]. exists cached. auto.
    + intros other Hne. now apply map_get_set_other.
    + destruct (map_set_touch id cached (Date_now_at (S (dateCalls w))) _ Hget)
        as (_ & _ & ->). lia.
Qed.

Lemma getContent_hit id e w :
  id <> "" -> map_get id (contentCache w) = Some e ->
  Date_now_at (dateCalls w) - lastAccess e <= CACHE_TTL ->
  fst (getContent id w) = Some (ContentCache.content e).
Proof.
  intros Hid Hget Ht.
  rewrite (getContent_live _ id w e Hid Hget); [reflexivity|].
  unfold expired. rewrite Z.gtb_ltb. apply Z.ltb_ge. lia.
Qed.

End WithEnvironment.

End ContentRouteFacts.

(* ===================================================================== *)
(** * Further properties of the content cache and of its routes *)
(* ===================================================================== *)

(** A clock that advances one second per reading, a random source and an
    injective stand-in for the digest. *)
Definition sample_clock (k : nat) : Z := 1000 * Z.of_nat k.
Definition sample_random (k : nat) : string := "r" ++ JS.Z_to_string (Z.of_nat k).
Definition sample_hash (s : string) : string := s.

Definition sample_ops : list ContentCache.op :=
  [ContentCache.OpStore (JS.Str "first paper"); ContentCache.OpStore (JS.Str "second paper");
   ContentCache.OpGet "content_1000_r0"].

(** A text stored is read back, by [getContent] and by [resolveContent]. *)
Lemma store_then_read :
  forall Date_now_at Math_random_at generateHash ops content,
    let w := ContentCache.run_ops Date_now_at Math_random_at generateHash ops
               ContentCache.emptyWorld in
    let stored := ContentCache.storeContent Date_now_at Math_random_at generateHash
                    (JS.Str content) w in
    let w1 := snd stored in
    content <> "" ->
    ContentRouteFacts.no_collision generateHash content (ContentCache.contentCache w) ->
    Date_now_at (ContentCache.dateCalls w1)
    - Date_now_at (ContentCache.dateCalls w1 - 1)%nat <= ContentCache.CACHE_TTL ->
    exists id,
      ContentCache.contentId (fst stored) = Some id /\
      ContentCache.size (fst stored) = JS.strlen content /\
      fst (ContentCache.getContent Date_now_at id w1) = Some content /\
      forall fallback,
        fst (AgentRoute.resolveContent Date_now_at (JS.Str id) fallback w1) = JS.Str content.
Proof.
  intros clock random digest ops content w stored w1 Hne Hnc Hclock.
  assert (ContentCacheFacts.wf (ContentCache.contentCache w)) as Hwf
      by (apply ContentCacheFacts.wf_run_ops, ContentCacheFacts.wf_empty).
  destruct (ContentRouteFacts.storeContent_entry clock random digest content w Hwf Hne Hnc)
    as (id & e & Hid & Hsize & Hnonempty & Hget & Hcontent & Haccess).
  fold stored in Hid, Hsize, Hget, Haccess. fold w1 in Hget, Haccess.
  assert (fst (ContentCache.getContent clock id w1) = Some content) as Hread.
  { rewrite <- Hcontent. apply ContentRouteFacts.getContent_hit; auto.
    rewrite Haccess. exact Hclock. }
  exists id. repeat split; auto.
  intros fallback. unfold AgentRoute.resolveContent.
  assert (JS.truthy (JS.Str id) = true) as ->
      by (simpl; apply negb_true_iff, String.eqb_neq; assumption).
  unfold ContentCache.bind.
  destruct (ContentCache.getContent clock id w1) as [cached w2]. simpl in Hread. subst cached.
  assert (JS.truthy (JS.Str content) = true) as ->
      by (simpl; apply negb_true_iff, String.eqb_neq; assumption).
  reflexivity.
Qed.

(** X5.  In a cache reached from the empty one, storing a non-empty text
    returns an identifier under which the text is read back: by
    [getContent], and by [resolveContent] of the agent route whatever
    content the request carries besides.  This needs that no cached entry
    has the same hash with another content (the duplicate check compares
    hashes only), and that the read comes within the time to live after the
    last clock reading of the store. *)
Theorem stored_content_is_read_back :
  forall Date_now_at Math_random_at generateHash ops content,
    let w := ContentCache.run_ops Date_now_at Math_random_at generateHash ops
               ContentCache.emptyWorld in
    let stored := ContentCache.storeContent Date_now_at Math_random_at generateHash
                    (JS.Str content) w in
    let w1 := snd stored in
    content <> "" ->
    ContentRouteFacts.no_collision generateHash content (ContentCache.contentCache w) ->
    Date_now_at (ContentCache.dateCalls w1)
    - Date_now_at (ContentCache.dateCalls w1 - 1)%nat <= ContentCache.CACHE_TTL ->
    exists id,
      ContentCache.contentId (fst stored) = Some id /\
      ContentCache.size (fst stored) = JS.strlen content /\
      fst (ContentCache.getContent Date_now_at id w1) = Some content /\
      forall fallback,
        fst (AgentRoute.resolveContent Date_now_at (JS.Str id) fallback w1) = JS.Str content.
Proof. exact store_then_read. Qed.

Lemma stored_content_is_read_back_witness :
  let w := ContentCache.run_ops sample_clock sample_random sample_hash sample_ops
             ContentCache.emptyWorld in
  let stored := ContentCache.storeContent sample_clock sample_random sample_hash
                  (JS.Str "second paper") w in
  exists id,
    ContentCache.contentId (fst stored) = Some id /\
    ContentCache.size (fst stored) = JS.strlen "second paper" /\
    fst (ContentCache.getContent sample_clock id (snd stored)) = Some "second paper" /\
    forall fallback,
      fst (AgentRoute.resolveContent sample_clock (JS.Str id) fallback (snd stored))
      = JS.Str "second paper".
Proof.
  apply (stored_content_is_read_back sample_clock sample_random sample_hash sample_ops
           "second paper").
  - discriminate.
  - intros id e Hin Hh. vm_compute in Hin.
    destruct Hin as [[= <- <-]|[[= <- <-]|[]]]; [discriminate Hh|reflexivity].
  - vm_compute. discriminate.
Defined.

(** X6.  [getContent] returns only what the map holds under the
    identifier asked for, and only while that entry is not expired;
    whatever it does, every other entry stays as it was and the map does
    not grow. *)
Theorem getContent_reads_only_its_entry :
  forall Date_now_at id w,
    let after := ContentCache.contentCache (snd (ContentCache.getContent Date_now_at id w)) in
    (forall text,
        fst (ContentCache.getContent Date_now_at id w) = Some text ->
        exists e, ContentCache.map_get id (ContentCache.contentCache w) = Some e /\
                  ContentCache.content e = text /\
                  ContentCache.expired (Date_now_at (ContentCache.dateCalls w)) e = false) /\
    (forall other, other <> id ->
                   ContentCache.map_get other after
                   = ContentCache.map_get other (ContentCache.contentCache w)) /\
    (List.length after <= List.length (ContentCache.contentCache w))%nat.
Proof. intros clock id w. apply ContentRouteFacts.getContent_sound. Qed.

Lemma getContent_reads_only_its_entry_witness :
  let w := ContentCache.run_ops sample_clock sample_random sample_hash sample_ops
             ContentCache.emptyWorld in
  (exists e, ContentCache.map_get "content_1000_r0" (ContentCache.contentCache w) = Some e /\
             ContentCache.content e = "first paper" /\
             ContentCache.expired (sample_clock (ContentCache.dateCalls w)) e = false) /\
  ContentCache.map_get "content_5000_r1"
    (ContentCache.contentCache
       (snd (ContentCache.getContent sample_clock "content_1000_r0" w)))
  = ContentCache.map_get "content_5000_r1" (ContentCache.contentCache w).
Proof.
  intros w.
  destruct (getContent_reads_only_its_entry sample_clock "content_1000_r0" w)
    as (Hread & Hframe & _).
  split.
  - apply Hread. vm_compute. reflexivity.
  - apply Hframe. discriminate.
Defined.

(** X7.  The routes of the cache.  [POST /store] answers 400 and leaves
    the cache alone when the content is missing or falsy; it answers 200
    with a null [contentId], again leaving the cache alone, when the content
    is truthy but not a string.  For a non-empty string it answers 200 with
    an identifier, and [GET /get/:contentId] with that identifier then
    answers 200 with the content stored (under the conditions of X5). *)
Theorem content_routes_round_trip :
  forall Date_now_at Math_random_at generateHash ops,
    let w := ContentCache.run_ops Date_now_at Math_random_at generateHash ops
               ContentCache.emptyWorld in
    let post content := ContentRoute.store Date_now_at Math_random_at generateHash content w in
    (forall content,
        JS.truthy content = false ->
        post content = (ContentRoute.failure 400 "内容不能为空", w)) /\
    (forall content,
        JS.truthy content = true -> JS.typeof content <> "string" ->
        ContentRoute.status (fst (post content)) = 200 /\
        JS.get (JS.get (ContentRoute.body (fst (post content))) "data") "contentId" = JS.Null /\
        snd (post content) = w) /\
    (forall text,
        let w1 := snd (post (JS.Str text)) in
        text <> "" ->
        ContentRouteFacts.no_collision generateHash text (ContentCache.contentCache w) ->
        Date_now_at (ContentCache.dateCalls w1)
        - Date_now_at (ContentCache.dateCalls w1 - 1)%nat <= ContentCache.CACHE_TTL ->
        exists id,
          ContentRoute.status (fst (post (JS.Str text))) = 200 /\
          JS.get (JS.get (ContentRoute.body (fst (post (JS.Str text)))) "data") "contentId"
          = JS.Str id /\
          ContentRoute.status (fst (ContentRoute.get Date_now_at id w1)) = 200 /\
          JS.get (JS.get (ContentRoute.body (fst (ContentRoute.get Date_now_at id w1))) "data")
                 "content" = JS.Str text).
Proof.
  intros clock random digest ops w post. split; [|split].
  - intros content Hf. unfold post, ContentRoute.store. now rewrite Hf.
  - intros content Ht Hs. unfold post, ContentRoute.store. rewrite Ht. cbn [negb].
    unfold ContentCache.bind.
    rewrite ContentCacheFacts.storeContent_invalid.
    + repeat split; reflexivity.
    + intros s ->. now destruct Hs.
  - intros text w1 Hne Hnc Hclock.
    assert (snd (post (JS.Str text))
            = snd (ContentCache.storeContent clock random digest (JS.Str text) w)) as Hw.
    { unfold post, ContentRoute.store.
      assert (JS.truthy (JS.Str text) = true) as ->
          by (simpl; apply negb_true_iff, String.eqb_neq; assumption).
      cbn [negb]. unfold ContentCache.bind.
      destruct (ContentCache.storeContent clock random digest (JS.Str text) w).
      reflexivity. }
    destruct (store_then_read clock random digest ops text Hne Hnc)
      as (id & Hid & _ & Hread & _).
    { fold w. rewrite <- Hw. exact Hclock. }
    fold w in Hid, Hread. rewrite <- Hw in Hread. fold w1 in Hread.
    exists id. unfold post, ContentRoute.store.
    assert (JS.truthy (JS.Str text) = true) as Htext
        by (simpl; apply negb_true_iff, String.eqb_neq; assumption).
    rewrite Htext. cbn [negb]. unfold ContentCache.bind at 1 2.
    destruct (ContentCache.storeContent clock random digest (JS.Str text) w) as [r w'].
    cbn [fst snd] in *. rewrite Hid.
    split; [reflexivity|]. split; [reflexivity|].
    unfold ContentRoute.get, ContentCache.bind.
    destruct (ContentCache.getContent clock id w1) as [cached w2].
    cbn [fst] in Hread. subst cached. rewrite Htext. split; reflexivity.
Qed.

Lemma content_routes_round_trip_witness :
  let w := ContentCache.run_ops sample_clock sample_random sample_hash sample_ops
             ContentCache.emptyWorld in
  let post content := ContentRoute.store sample_clock sample_random sample_hash content w in
  post (JS.Str "") = (ContentRoute.failure 400 "内容不能为空", w) /\
  snd (post (JS.Num 7 0)) = w /\
  exists id,
    ContentRoute.status (fst (post (JS.Str "third paper"))) = 200 /\
    JS.get (JS.get (ContentRoute.body (fst (post (JS.Str "third paper")))) "data") "contentId"
    = JS.Str id /\
    ContentRoute.status
      (fst (ContentRoute.get sample_clock id (snd (post (JS.Str "third paper"))))) = 200 /\
    JS.get (JS.get (ContentRoute.body
                      (fst (ContentRoute.get sample_clock id
                              (snd (post (JS.Str "third paper")))))) "data") "content"
    = JS.Str "third paper".
Proof.
  intros w post.
  destruct (content_routes_round_trip sample_clock sample_random sample_hash sample_ops)
    as (H400 & Hnull & Hround).
  split; [apply H400; reflexivity|].
  split; [apply Hnull; [reflexivity|discriminate]|].
  apply Hround.
  - discriminate.
  - intros id e Hin Hh. vm_compute in Hin.
    destruct Hin as [[= <- <-]|[[= <- <-]|[]]]; discriminate Hh.
  - vm_compute. discriminate.
Defined.

(* ===================================================================== *)
(** * Properties of the file tools *)
(* ===================================================================== *)

Module FileToolsFacts.

Import ToolExecutor FileTools ToolParserFacts StringFacts.

(** *** Pieces of a string *)

Lemma substring_zero_all s : substring 0 (String.length s) s = s.
Proof. induction s; simpl; congruence. Qed.

Lemma substring_as_drop i : forall n s, substring i n s = substring 0 n (drop i s).
Proof.
  induction i; intros n [|c s]; simpl; auto; now destruct n.
Qed.

Lemma substring_rest i s : substring i (String.length s - i) s = drop i s.
Proof.
  rewrite substring_as_drop, <- length_drop. apply substring_zero_all.
Qed.

Lemma substring_app_left a : forall b, substring 0 (String.length a) (a ++ b) = a.
Proof. induction a; intros; simpl; [now destruct b|congruence]. Qed.

Lemma length_substring_zero n : forall s,
    String.length (substring 0 n s) = Nat.min n (String.length s).
Proof. induction n; intros [|c s]; simpl; auto. Qed.

(** A text is what precedes a position, a piece of [n] characters there,
    and what follows. *)
Lemma split_at_piece i n s :
  (i + n <= String.length s)%nat ->
  s = substring 0 i s ++ substring i n s ++ drop (i + n) s.
Proof.
  intros H. rewrite <- (substring_drop i s) at 1. f_equal.
  rewrite substring_as_drop.
  rewrite <- (substring_drop n (drop i s)) at 1. f_equal.
  clear H. revert s. induction i; intros s; [reflexivity|].
  destruct s; simpl; [now rewrite !drop_nil|apply IHi].
Qed.

(** Where a piece of [n] characters is found, there is room for it. *)
Lemma occurrence_fits t s p :
  substring p (String.length t) s = t -> (p + String.length t <= String.length s)%nat \/ t = "".
Proof.
  intros H. destruct t as [|c t]; [now right|left].
  rewrite substring_as_drop in H.
  apply (f_equal String.length) in H. rewrite length_substring_zero, length_drop in H.
  cbn [String.length] in *. lia.
Qed.

Lemma index_ge n t : forall s i, index n t s = Some i -> (n <= i)%nat.
Proof.
  intros s. revert n. induction s as [|c s IH]; intros n i.
  - destruct n; simpl; [destruct t; [intros [= <-]; lia|discriminate]|discriminate].
  - destruct n; simpl; [lia|].
    destruct (index n t s) as [k|] eqn:E; [|discriminate].
    intros [= <-]. apply IH in E. lia.
Qed.

(** *** The replacement text *)

Definition plain (template : string) : Prop :=
  forall c, In c (list_ascii_of_string template) -> c <> "$"%char.

Lemma getSubstitution_plain matched before after template :
  plain template -> getSubstitution matched before after template = template.
Proof.
  induction template as [|c rest IH]; intros H; [reflexivity|].
  simpl. destruct (Ascii.eqb_spec c "$") as [->|_].
  - exfalso. apply (H "$"%char); [now left|reflexivity].
  - f_equal. apply IH. intros d Hd. apply H. now right.
Qed.

(** The first occurrence of a target and the text around it. *)
Lemma first_occurrence editor target i :
  target <> "" -> index 0 target editor = Some i ->
  editor = substring 0 i editor ++ target ++ drop (i + String.length target) editor /\
  forall p, (p < i)%nat -> substring p (String.length target) editor <> target.
Proof.
  intros Hne Hi. split.
  - pose proof (index_correct1 _ _ _ _ Hi) as Hocc.
    destruct (occurrence_fits _ _ _ Hocc) as [Hfit|]; [|contradiction].
    rewrite (split_at_piece i (String.length target) editor Hfit) at 1.
    now rewrite Hocc.
  - intros p Hp. apply (index_correct2 _ _ _ _ Hi); lia.
Qed.

Lemma replace_first_plain editor target replacement i :
  target <> "" -> index 0 target editor = Some i -> plain replacement ->
  replace_first editor target replacement
  = substring 0 i editor ++ replacement ++ drop (i + String.length target) editor.
Proof.
  intros Hne Hi Hp. unfold replace_first. rewrite Hi.
  rewrite getSubstitution_plain by assumption. now rewrite substring_rest.
Qed.

(** *** Lines *)

Lemma count_lines_append a : forall b,
    count_lines (a ++ b) = count_lines a + count_lines b - 1.
Proof.
  induction a as [|c a IH]; intros b; cbn [count_lines append]; [lia|].
  rewrite IH. destruct (Ascii.eqb c "010"); lia.
Qed.

Lemma split_lines_nonempty s : split_lines s <> [].
Proof.
  destruct s as [|c s]; [discriminate|]. cbn [split_lines].
  destruct (Ascii.eqb c "010"); [discriminate|]. destruct (split_lines s); discriminate.
Qed.

Lemma count_lines_split s : count_lines s = Z.of_nat (List.length (split_lines s)).
Proof.
  induction s as [|c s IH]; [reflexivity|].
  cbn [count_lines split_lines]. rewrite IH.
  pose proof (split_lines_nonempty s) as Hne.
  destruct (Ascii.eqb c "010").
  - cbn [List.length]. lia.
  - destruct (split_lines s); [congruence|]. cbn [List.length] in *. lia.
Qed.

(** *** [executeEditFile], operation by operation *)

Section WithCoercions.

Variable ToString : JS.value -> string.
Variable ToNumber : JS.value -> option (Z * Z).

Local Abbreviation executeEditFile := (executeEditFile ToString ToNumber).

Definition edited (operation : JS.value) (editor_content newContent : string) : ToolResult :=
  {| success := true;
     data := JS.Obj
       [("operation", operation);
        ("new_content", JS.Str newContent);
        ("message", JS.Str ("文件已成功" ++ operation_word operation ++ "内容"));
        ("stats", JS.Obj
           [("old_lines", JS.Num (count_lines editor_content) 0);
            ("new_lines", JS.Num (count_lines newContent) 0);
            ("lines_added",
             JS.Num (count_lines newContent - count_lines editor_content) 0)])];
     error := None |}.

Lemma get_Str_object parameters k s :
  JS.get parameters k = JS.Str s -> parameters <> JS.Undefined /\ parameters <> JS.Null.
Proof. destruct parameters; simpl; intros H; split; congruence. Qed.

Lemma edit_append parameters editor content :
  editor <> "" ->
  JS.get parameters "operation" = JS.Str "append" ->
  JS.get parameters "content" = JS.Str content ->
  executeEditFile parameters (Some editor)
  = Returned (edited (JS.Str "append") editor
                (editor ++ String "010" (String "010" "") ++ content)).
Proof.
  intros Hne Hop Hc. unfold ToolExecutor.executeEditFile.
  apply String.eqb_neq in Hne. rewrite Hne.
  destruct (get_Str_object _ _ _ Hop) as [H1 H2].
  destruct parameters; try congruence; rewrite Hop, Hc; reflexivity.
Qed.

Lemma edit_replace parameters editor target content :
  editor <> "" ->
  JS.get parameters "operation" = JS.Str "replace" ->
  JS.get parameters "target_text" = JS.Str target ->
  JS.get parameters "content" = JS.Str content ->
  executeEditFile parameters (Some editor)
  = if (target =? "")%string || negb (includes editor target)
    then Returned (failure "未找到要替换的目标文本")
    else Returned (edited (JS.Str "replace") editor (replace_first editor target content)).
Proof.
  intros Hne Hop Ht Hc. unfold ToolExecutor.executeEditFile.
  apply String.eqb_neq in Hne. rewrite Hne.
  destruct (get_Str_object _ _ _ Hop) as [H1 H2].
  destruct parameters; try congruence; rewrite Hop, Ht, Hc; cbn [JS.truthy to_string];
    rewrite negb_involutive; reflexivity.
Qed.

Lemma edit_insert_at parameters editor content p :
  editor <> "" ->
  JS.get parameters "operation" = JS.Str "insert_at" ->
  JS.get parameters "content" = JS.Str content ->
  JS.get parameters "position" = JS.Num p 0 ->
  executeEditFile parameters (Some editor)
  = if (p <? 0) || (JS.strlen editor <? p)
    then Returned (failure "插入位置无效")
    else Returned (edited (JS.Str "insert_at") editor
                     (substring 0 (Z.to_nat p) editor ++ content
                      ++ drop (Z.to_nat p) editor)).
Proof.
  intros Hne Hop Hc Hp. unfold ToolExecutor.executeEditFile.
  apply String.eqb_neq in Hne. rewrite Hne.
  destruct (get_Str_object _ _ _ Hop) as [H1 H2].
  destruct parameters; try congruence; rewrite Hop, Hc, Hp;
    cbn [to_number to_string dec_gtb dec_trunc Z.leb Z.compare];
    rewrite ?Z.pow_0_r, ?Z.mul_1_r;
    (destruct ((p <? 0) || (JS.strlen editor <? p)); [reflexivity|]);
    rewrite substring_rest; reflexivity.
Qed.

End WithCoercions.

(** *** The search loop *)

(** [needle] is found in [hay] at position [p]. *)
Definition occurs_at (needle hay : string) (p : nat) : bool :=
  (substring p (String.length needle) hay =? needle)%string.

(** All the positions of a line where the needle is found, overlapping
    ones included, in increasing order. *)
Definition positions_from (start : nat) (needle hay : string) : list nat :=
  filter (occurs_at needle hay) (seq start (String.length hay + 1 - start)).

Lemma filter_none {A} (p : A -> bool) l : (forall x, In x l -> p x = false) -> filter p l = [].
Proof.
  induction l as [|x l IH]; intros H; [reflexivity|]. simpl.
  rewrite (H x) by now left. apply IH. intros y Hy. apply H. now right.
Qed.

Lemma occurrences_positions needle hay :
  needle <> "" ->
  forall fuel start,
    (String.length hay + 1 - start <= fuel)%nat ->
    occurrences fuel hay needle (index start needle hay) = positions_from start needle hay.
Proof.
  intros Hne. induction fuel as [|fuel IH]; intros start Hfuel.
  - unfold positions_from. replace (String.length hay + 1 - start)%nat with 0%nat by lia.
    now destruct (index start needle hay).
  - destruct (index start needle hay) as [i|] eqn:Hi.
    + cbn [occurrences].
      pose proof (index_ge _ _ _ _ Hi) as Hge.
      pose proof (index_correct1 _ _ _ _ Hi) as Hocc.
      destruct (occurrence_fits _ _ _ Hocc) as [Hfit|]; [|contradiction].
      assert (0 < String.length needle)%nat as Hlen by (destruct needle; simpl; [congruence|lia]).
      rewrite IH by lia. unfold positions_from.
      replace (String.length hay + 1 - start)%nat
        with ((i - start) + S (String.length hay + 1 - (i + 1)))%nat by lia.
      rewrite seq_app, filter_app.
      rewrite (filter_none _ (seq start (i - start))).
      * replace (start + (i - start))%nat with i by lia.
        cbn [seq filter app].
        change (occurs_at needle hay i)
          with (substring i (String.length needle) hay =? needle)%string.
        rewrite Hocc, String.eqb_refl.
        replace (S i) with (i + 1)%nat by lia. reflexivity.
      * intros p Hp. apply in_seq in Hp. unfold occurs_at. apply String.eqb_neq.
        apply (index_correct2 _ _ _ _ Hi); lia.
    + cbn [occurrences]. unfold positions_from. symmetry. apply filter_none.
      intros p Hp. apply in_seq in Hp. unfold occurs_at. apply String.eqb_neq.
      apply (index_correct3 _ p _ _ Hi); [assumption|lia].
Qed.

(** The matches of one line and of all lines, from the positions. *)
Definition window (search_text line : string) (i pos : nat) : Match :=
  {| FileTools.line := Z.of_nat i + 1; position := pos;
     context := substring (pos - 20)
                  (Nat.min (String.length line) (pos + String.length search_text + 20)
                   - (pos - 20)) line |}.

Fixpoint found (case_sensitive : bool) (search_text : string) (i : nat) (lines : list string)
  : list Match :=
  match lines with
  | [] => []
  | line :: rest =>
      let hay := if case_sensitive then line else toLowerCase line in
      let needle := if case_sensitive then search_text else toLowerCase search_text in
      (map (window search_text line i) (positions_from 0 needle hay)
       ++ found case_sensitive search_text (S i) rest)%list
  end.

Lemma length_toLowerCase s : String.length (toLowerCase s) = String.length s.
Proof. induction s; simpl; congruence. Qed.

Lemma all_matches_found case_sensitive search_text lines :
  search_text <> "" ->
  forall i,
    all_matches case_sensitive search_text
      (if case_sensitive then search_text else toLowerCase search_text) i lines
    = found case_sensitive search_text i lines.
Proof.
  intros Hne. induction lines as [|line rest IH]; intros i; [reflexivity|].
  cbn [all_matches found]. rewrite IH. f_equal.
  unfold line_matches.
  set (hay := if case_sensitive then line else toLowerCase line).
  set (needle := if case_sensitive then search_text else toLowerCase search_text).
  assert (needle <> "") as Hn.
  { unfold needle. destruct case_sensitive; [assumption|].
    destruct search_text; [congruence|discriminate]. }
  assert (String.length hay = String.length line) as Hlen
      by (unfold hay; destruct case_sensitive; [reflexivity|apply length_toLowerCase]).
  rewrite <- Hlen at 1.
  rewrite (occurrences_positions needle hay Hn) by lia. reflexivity.
Qed.

(** What [found] holds: for every line and every position of the line
    where the needle occurs, the match with that line number, that position
    and the window around it; nothing else. *)
Lemma found_In case_sensitive search_text lines m :
  search_text <> "" ->
  forall i,
    In m (found case_sensitive search_text i lines) <->
    exists k line,
      nth_error lines k = Some line /\
      occurs_at (if case_sensitive then search_text else toLowerCase search_text)
                (if case_sensitive then line else toLowerCase line) (position m) = true /\
      m = window search_text line (i + k) (position m).
Proof.
  intros Hne. induction lines as [|line rest IH]; intros i.
  - simpl. split; [intros []|]. intros (k & l & H & _). now destruct k.
  - cbn [found]. rewrite in_app_iff, IH, in_map_iff. split.
    + intros [(p & <- & Hp)|(k & l & Hk & Hocc & Hm)].
      * exists 0%nat, line. unfold positions_from in Hp. apply filter_In in Hp as [_ Hp].
        cbn [position window]. rewrite Nat.add_0_r. auto.
      * exists (S k), l. replace (i + S k)%nat with (S i + k)%nat by lia. auto.
    + intros ([|k] & l & Hk & Hocc & Hm).
      * left. injection Hk as <-. exists (position m). rewrite Nat.add_0_r in Hm.
        split; [now symmetry|]. unfold positions_from. apply filter_In. split; [|assumption].
        apply in_seq. unfold occurs_at in Hocc. apply String.eqb_eq in Hocc.
        destruct (occurrence_fits _ _ _ Hocc) as [Hfit|Hempty].
        -- lia.
        -- exfalso. destruct case_sensitive; [congruence|].
           destruct search_text; [congruence|discriminate].
      * right. exists k, l. replace (S i + k)%nat with (i + S k)%nat by lia. auto.
Qed.

Section WithSearch.

Variable searchCoerced : JS.value -> JS.value -> string -> Exn ToolResult.

Lemma search_string parameters editor text :
  editor <> "" -> text <> "" ->
  JS.get parameters "search_text" = JS.Str text ->
  let flag := match JS.get parameters "case_sensitive" with
              | JS.Undefined => JS.Bool false
              | v => v
              end in
  let all := found (JS.truthy flag) text 0 (split_lines editor) in
  executeSearchInFile searchCoerced parameters (Some editor)
  = Returned {| success := true;
                data := JS.Obj
                  [("search_text", JS.Str text);
                   ("case_sensitive", flag);
                   ("total_matches", JS.Num (Z.of_nat (List.length all)) 0);
                   ("matches", JS.Arr (map match_value (firstn 20 all)))];
                error := None |}.
Proof.
  intros He Ht Hs flag all. unfold executeSearchInFile.
  apply String.eqb_neq in He. rewrite He.
  destruct (get_Str_object _ _ _ Hs) as [H1 H2].
  assert (JS.truthy (JS.Str text) = true) as Htruthy
      by (simpl; apply negb_true_iff, String.eqb_neq; assumption).
  destruct parameters; try congruence; rewrite Hs, Htruthy; cbn [negb];
    fold flag; rewrite all_matches_found by assumption; reflexivity.
Qed.

End WithSearch.

End FileToolsFacts.

(* ===================================================================== *)
(** * Further properties of the file tools *)
(* ===================================================================== *)

(** A small document and the parameters of three edits and a search. *)
Definition sample_document : string :=
  "Intro about cats." ++ String "010" "Cats and more cats.".

Definition sample_edit (operation : string) (fields : list (string * JS.value)) : JS.value :=
  JS.Obj (("operation", JS.Str operation) :: fields).

Definition two_newlines : string := String "010" (String "010" "").

(** X8.  An [append] edit of a non-empty document succeeds; the new
    content is the document, two line feeds and the content given, and
    [stats.lines_added] is the number of lines of that content plus one. *)
Theorem edit_append_puts_content_at_end :
  forall ToString ToNumber parameters editor content,
    editor <> "" ->
    JS.get parameters "operation" = JS.Str "append" ->
    JS.get parameters "content" = JS.Str content ->
    exists result,
      ToolExecutor.executeEditFile ToString ToNumber parameters (Some editor)
      = Returned result /\
      ToolExecutor.success result = true /\
      JS.get (ToolExecutor.data result) "new_content"
      = JS.Str (editor ++ two_newlines ++ content) /\
      JS.get (JS.get (ToolExecutor.data result) "stats") "lines_added"
      = JS.Num (ToolExecutor.count_lines content + 1) 0.
Proof.
  intros ToString ToNumber parameters editor content Hne Hop Hc.
  eexists. split; [apply FileToolsFacts.edit_append; eassumption|].
  cbn [FileToolsFacts.edited ToolExecutor.success ToolExecutor.data JS.get JS.lookup_prop
         String.eqb Ascii.eqb Bool.eqb].
  repeat split. f_equal.
  rewrite FileToolsFacts.count_lines_append.
  change (ToolExecutor.count_lines (String "010" (String "010" "") ++ content))
    with (1 + (1 + ToolExecutor.count_lines content)).
  lia.
Qed.

Lemma edit_append_puts_content_at_end_witness :
  exists result,
    ToolExecutor.executeEditFile (fun _ => "") (fun _ => None)
      (sample_edit "append" [("content", JS.Str "The end.")]) (Some sample_document)
    = Returned result /\
    ToolExecutor.success result = true /\
    JS.get (ToolExecutor.data result) "new_content"
    = JS.Str (sample_document ++ two_newlines ++ "The end.") /\
    JS.get (JS.get (ToolExecutor.data result) "stats") "lines_added"
    = JS.Num (ToolExecutor.count_lines "The end." + 1) 0.
Proof.
  apply (edit_append_puts_content_at_end (fun _ => "") (fun _ => None)
           (sample_edit "append" [("content", JS.Str "The end.")]) sample_document "The end.");
    [discriminate|reflexivity|reflexivity].
Defined.

(** X9.  An [insert_at] edit with a whole-number position between 0 and
    the length of the document puts the content between the first
    [position] characters and the rest, both unchanged; a position below 0
    or above the length is refused and nothing is returned as content. *)
Theorem edit_insert_at_splits_at_position :
  forall ToString ToNumber parameters editor content p,
    editor <> "" ->
    JS.get parameters "operation" = JS.Str "insert_at" ->
    JS.get parameters "content" = JS.Str content ->
    JS.get parameters "position" = JS.Num p 0 ->
    (0 <= p <= JS.strlen editor ->
     exists before after result,
       editor = before ++ after /\
       String.length before = Z.to_nat p /\
       ToolExecutor.executeEditFile ToString ToNumber parameters (Some editor)
       = Returned result /\
       ToolExecutor.success result = true /\
       JS.get (ToolExecutor.data result) "new_content"
       = JS.Str (before ++ content ++ after)) /\
    (p < 0 \/ JS.strlen editor < p ->
     ToolExecutor.executeEditFile ToString ToNumber parameters (Some editor)
     = Returned (ToolExecutor.failure "插入位置无效")).
Proof.
  intros ToString ToNumber parameters editor content p Hne Hop Hc Hp.
  rewrite (FileToolsFacts.edit_insert_at ToString ToNumber parameters editor content p)
    by assumption.
  split.
  - intros Hrange.
    assert ((p <? 0) || (JS.strlen editor <? p) = false) as ->.
    { apply orb_false_iff. split; apply Z.ltb_ge; lia. }
    exists (substring 0 (Z.to_nat p) editor), (ToolParserFacts.drop (Z.to_nat p) editor).
    eexists. split; [now rewrite StringFacts.substring_drop|].
    split; [|split; [reflexivity|split; reflexivity]].
    rewrite FileToolsFacts.length_substring_zero. unfold JS.strlen in Hrange. lia.
  - intros Hout.
    assert ((p <? 0) || (JS.strlen editor <? p) = true) as ->; [|reflexivity].
    apply orb_true_iff. destruct Hout; [left|right]; apply Z.ltb_lt; lia.
Qed.

Lemma edit_insert_at_splits_at_position_witness :
  (exists before after result,
      sample_document = before ++ after /\
      String.length before = 5%nat /\
      ToolExecutor.executeEditFile (fun _ => "") (fun _ => None)
        (sample_edit "insert_at" [("content", JS.Str "!"); ("position", JS.Num 5 0)])
        (Some sample_document) = Returned result /\
      ToolExecutor.success result = true /\
      JS.get (ToolExecutor.data result) "new_content" = JS.Str (before ++ "!" ++ after)) /\
  ToolExecutor.executeEditFile (fun _ => "") (fun _ => None)
    (sample_edit "insert_at" [("content", JS.Str "!"); ("position", JS.Num 38 0)])
    (Some sample_document) = Returned (ToolExecutor.failure "插入位置无效").
Proof.
  split.
  - apply (edit_insert_at_splits_at_position (fun _ => "") (fun _ => None)
             (sample_edit "insert_at" [("content", JS.Str "!"); ("position", JS.Num 5 0)])
             sample_document "!" 5); try reflexivity; [discriminate|vm_compute; split; discriminate].
  - apply (edit_insert_at_splits_at_position (fun _ => "") (fun _ => None)
             (sample_edit "insert_at" [("content", JS.Str "!"); ("position", JS.Num 38 0)])
             sample_document "!" 38); try reflexivity; [discriminate|right; reflexivity].
Defined.

(** X10.  A [replace] edit is refused when the target is empty or does not
    occur in the document.  When it occurs and the content has no dollar
    sign, the first occurrence, and only that one, is replaced by the
    content: the text before it and the text after it are kept.  (A dollar
    sign in the content is read as a replacement pattern.) *)
Theorem edit_replace_changes_first_occurrence :
  forall ToString ToNumber parameters editor target content,
    editor <> "" ->
    JS.get parameters "operation" = JS.Str "replace" ->
    JS.get parameters "target_text" = JS.Str target ->
    JS.get parameters "content" = JS.Str content ->
    (target = "" \/ ToolExecutor.includes editor target = false ->
     ToolExecutor.executeEditFile ToString ToNumber parameters (Some editor)
     = Returned (ToolExecutor.failure "未找到要替换的目标文本")) /\
    (target <> "" -> ToolExecutor.includes editor target = true ->
     FileToolsFacts.plain content ->
     exists before after result,
       editor = before ++ target ++ after /\
       (forall q, (q < String.length before)%nat ->
                  substring q (String.length target) editor <> target) /\
       ToolExecutor.executeEditFile ToString ToNumber parameters (Some editor)
       = Returned result /\
       ToolExecutor.success result = true /\
       JS.get (ToolExecutor.data result) "new_content"
       = JS.Str (before ++ content ++ after)).
Proof.
  intros ToString ToNumber parameters editor target content Hne Hop Ht Hc.
  rewrite (FileToolsFacts.edit_replace ToString ToNumber parameters editor target content)
    by assumption.
  split.
  - intros [-> | Hno]; [reflexivity|]. rewrite Hno. now rewrite orb_true_r.
  - intros Htarget Hin Hplain.
    apply String.eqb_neq in Htarget. rewrite Htarget, Hin. cbn [negb orb].
    apply String.eqb_neq in Htarget.
    unfold ToolExecutor.includes in Hin.
    destruct (index 0 target editor) as [i|] eqn:Hi; [|discriminate].
    destruct (FileToolsFacts.first_occurrence editor target i Htarget Hi) as [Hsplit Hfirst].
    exists (substring 0 i editor),
      (ToolParserFacts.drop (i + String.length target) editor).
    eexists. split; [exact Hsplit|].
    split; [|split; [reflexivity|split; [reflexivity|]]].
    + intros q Hq. apply Hfirst.
      rewrite FileToolsFacts.length_substring_zero in Hq. lia.
    + cbn [FileToolsFacts.edited ToolExecutor.data JS.get JS.lookup_prop
             String.eqb Ascii.eqb Bool.eqb].
      now rewrite (FileToolsFacts.replace_first_plain editor target content i).
Qed.

Lemma edit_replace_changes_first_occurrence_witness :
  ToolExecutor.executeEditFile (fun _ => "") (fun _ => None)
    (sample_edit "replace" [("target_text", JS.Str "dogs"); ("content", JS.Str "birds")])
    (Some sample_document) = Returned (ToolExecutor.failure "未找到要替换的目标文本") /\
  exists before after result,
    sample_document = before ++ "cats" ++ after /\
    (forall q, (q < String.length before)%nat ->
               substring q (String.length "cats") sample_document <> "cats") /\
    ToolExecutor.executeEditFile (fun _ => "") (fun _ => None)
      (sample_edit "replace" [("target_text", JS.Str "cats"); ("content", JS.Str "birds")])
      (Some sample_document) = Returned result /\
    ToolExecutor.success result = true /\
    JS.get (ToolExecutor.data result) "new_content" = JS.Str (before ++ "birds" ++ after).
Proof.
  split.
  - apply (edit_replace_changes_first_occurrence (fun _ => "") (fun _ => None)
             (sample_edit "replace" [("target_text", JS.Str "dogs"); ("content", JS.Str "birds")])
             sample_document "dogs" "birds"); try reflexivity; [discriminate|right; reflexivity].
  - apply (edit_replace_changes_first_occurrence (fun _ => "") (fun _ => None)
             (sample_edit "replace" [("target_text", JS.Str "cats"); ("content", JS.Str "birds")])
             sample_document "cats" "birds"); try reflexivity; try discriminate.
    intros c Hc. vm_compute in Hc.
    repeat (destruct Hc as [<-|Hc]; [discriminate|]). destruct Hc.
Defined.

(** X11.  Without a document in the editor (none sent, or the empty
    text), [executeViewFile], [executeEditFile] and [executeSearchInFile]
    all return the same failure, whatever the parameters are, a null
    parameter object included. *)
Theorem file_tools_refuse_empty_editor :
  forall ToString ToNumber searchCoerced parameters editor_content,
    editor_content = None \/ editor_content = Some "" ->
    FileTools.executeViewFile parameters editor_content
    = Returned (ToolExecutor.failure "编辑器内容为空") /\
    ToolExecutor.executeEditFile ToString ToNumber parameters editor_content
    = Returned (ToolExecutor.failure "编辑器内容为空") /\
    FileTools.executeSearchInFile searchCoerced parameters editor_content
    = Returned (ToolExecutor.failure "编辑器内容为空").
Proof.
  intros ToString ToNumber searchCoerced parameters editor_content [-> | ->];
    repeat split; reflexivity.
Qed.

Lemma file_tools_refuse_empty_editor_witness :
  FileTools.executeViewFile JS.Null (Some "")
  = Returned (ToolExecutor.failure "编辑器内容为空") /\
  ToolExecutor.executeEditFile (fun _ => "") (fun _ => None) JS.Null (Some "")
  = Returned (ToolExecutor.failure "编辑器内容为空") /\
  FileTools.executeSearchInFile (fun _ _ _ => Thrown "") JS.Null (Some "")
  = Returned (ToolExecutor.failure "编辑器内容为空").
Proof.
  apply (file_tools_refuse_empty_editor (fun _ => "") (fun _ => None)
           (fun _ _ _ => Thrown "") JS.Null (Some "")).
  right. reflexivity.
Defined.

(** X12.  A search for a non-empty text in a non-empty document succeeds
    and reports every occurrence: [total_matches] counts, line by line, all
    the positions at which the text occurs in the line (both lowered unless
    the search is case sensitive), overlapping occurrences included, and
    [matches] holds the first twenty of them, each with its line number from
    1, its position and the window of the line around it. *)
Theorem search_reports_every_occurrence :
  forall searchCoerced parameters editor text,
    editor <> "" -> text <> "" ->
    JS.get parameters "search_text" = JS.Str text ->
    let flag := match JS.get parameters "case_sensitive" with
                | JS.Undefined => JS.Bool false
                | v => v
                end in
    let lines := FileTools.split_lines editor in
    let all := FileToolsFacts.found (JS.truthy flag) text 0 lines in
    (forall m,
        In m all <->
        exists k line,
          nth_error lines k = Some line /\
          FileToolsFacts.occurs_at
            (if JS.truthy flag then text else FileTools.toLowerCase text)
            (if JS.truthy flag then line else FileTools.toLowerCase line)
            (FileTools.position m) = true /\
          m = FileToolsFacts.window text line k (FileTools.position m)) /\
    exists result,
      FileTools.executeSearchInFile searchCoerced parameters (Some editor) = Returned result /\
      ToolExecutor.success result = true /\
      JS.get (ToolExecutor.data result) "total_matches"
      = JS.Num (Z.of_nat (List.length all)) 0 /\
      JS.get (ToolExecutor.data result) "matches"
      = JS.Arr (map FileTools.match_value (firstn 20 all)).
Proof.
  intros searchCoerced parameters editor text He Ht Hs flag lines all. split.
  - intros m. unfold all. rewrite (FileToolsFacts.found_In _ _ _ m Ht 0). reflexivity.
  - eexists. split; [apply FileToolsFacts.search_string; eassumption|].
    repeat split.
Qed.

Lemma search_reports_every_occurrence_witness :
  let all := FileToolsFacts.found false "CATS" 0 (FileTools.split_lines sample_document) in
  exists result,
    FileTools.executeSearchInFile (fun _ _ _ => Thrown "")
      (JS.Obj [("search_text", JS.Str "CATS")]) (Some sample_document) = Returned result /\
    ToolExecutor.success result = true /\
    JS.get (ToolExecutor.data result) "total_matches" = JS.Num (Z.of_nat (List.length all)) 0 /\
    JS.get (ToolExecutor.data result) "matches"
    = JS.Arr (map FileTools.match_value (firstn 20 all)).
Proof.
  apply (search_reports_every_occurrence (fun _ _ _ => Thrown "")
           (JS.Obj [("search_text", JS.Str "CATS")]) sample_document "CATS");
    [discriminate|discriminate|reflexivity].
Defined.

(* ===================================================================== *)
(** * The complete event of the stream route *)
(* ===================================================================== *)

Module StreamRouteFacts.

Import AgentRoute AgentRouteFacts.

(** The text and the calls of a [complete] event are consistent with the
    reply parser. *)
Definition hides_the_call (final : string) (tool_calls : option (list ToolParser.ToolCall))
  : Prop :=
  ToolParser.parseToolCalls final = [] /\
  match tool_calls with
  | Some calls =>
      ToolMarkers.hasToolCall final = false /\
      exists call,
        calls = [call] /\
        In (ToolParser.tool_name call)
           (map ToolDefinitions.name ToolDefinitions.AVAILABLE_TOOLS)
  | None => True
  end.

Lemma relay_writes_chunks is_reasoner ds fullResponse fullReasoning e :
  In (Data e) (fst (fst (relay is_reasoner ds fullResponse fullReasoning))) ->
  is_chunk e = true.
Proof.
  destruct (relay_chunks_only is_reasoner ds fullResponse fullReasoning) as (chunks & -> & Hc).
  intros H. apply in_map_iff in H as (e' & [= ->] & Hin).
  rewrite forallb_forall in Hc. now apply Hc.
Qed.

Lemma fail_writes_no_complete message final tool_calls reasoning :
  ~ In (Data (Complete final tool_calls reasoning)) (fail message).
Proof. unfold fail. intros [H|[H|[]]]; discriminate. Qed.

Lemma no_call_left response :
  ToolParser.parseToolCalls (ToolParser.extractContentBeforeToolCall response) = [] /\
  ToolMarkers.hasToolCall (ToolParser.extractContentBeforeToolCall response) = false.
Proof.
  set (visible := ToolParser.extractContentBeforeToolCall response).
  assert (ToolMarkers.hasToolCall visible = false) as Hhas.
  { destruct (ToolMarkers.hasToolCall visible) eqn:E; [|reflexivity].
    destruct (ToolMarkersFacts.hasToolCall_marker _ E) as (i & Hi).
    now destruct (ToolMarkersFacts.extract_no_marker response i). }
  split; [|exact Hhas].
  destruct (ToolParser.parseToolCalls visible) as [|call rest] eqn:E; [reflexivity|].
  assert (ToolMarkers.hasToolCall visible = true) as Hyes
      by (apply ToolMarkersFacts.parse_hasToolCall; rewrite E; discriminate).
  congruence.
Qed.

Lemma parsed_call_known response call rest :
  ToolParser.parseToolCalls response = call :: rest ->
  rest = [] /\
  In (ToolParser.tool_name call) (map ToolDefinitions.name ToolDefinitions.AVAILABLE_TOOLS).
Proof.
  intros E. assert (In call (ToolParser.parseToolCalls response)) as Hin
      by (rewrite E; now left).
  revert Hin E. unfold ToolParser.parseToolCalls.
  destruct (response =? "")%string; [intros []|]. intros Hin E.
  destruct (ToolMarkersFacts.try_patterns_sound response _ call Hin) as (H1 & H2 & _).
  rewrite H1 in E. split; [congruence|].
  unfold ToolParser.isValidTool in H2.
  apply existsb_exists in H2 as (tool & Htool & Hname).
  apply String.eqb_eq in Hname. rewrite <- Hname. now apply in_map.
Qed.

Section WithCollaborators.

Variable Date_now_at : nat -> Z.
Variable generatePrompt : JS.value -> JS.value -> JS.value -> JS.value -> Exn string.
Variable callDeepSeekApiStream : string -> JS.value -> string -> StreamRun.

Lemma stream_complete req w final tool_calls reasoning :
  In (Data (Complete final tool_calls reasoning))
     (fst (stream Date_now_at generatePrompt callDeepSeekApiStream req w)) ->
  hides_the_call final tool_calls /\ reasoning <> Some "".
Proof.
  unfold AgentRoute.stream.
  destruct (JS.truthy (apiKey req)); cbn [negb];
    [|intros H; now apply fail_writes_no_complete in H].
  unfold ContentCache.bind.
  destruct (resolveContent Date_now_at (contentId req) (content req) w) as [resolved w1].
  destruct (generatePrompt resolved (input req) (mode req) (messages req)) as [prompt|message];
    [|intros H; now apply fail_writes_no_complete in H].
  cbv zeta.
  set (is_chat := match model req with JS.Str m => (m =? "deepseek")%string | _ => false end).
  set (is_reasoner := match model req with
                      | JS.Str m => (m =? "deepseek-reasoner")%string
                      | _ => false
                      end).
  destruct (is_chat || is_reasoner).
  - set (run := callDeepSeekApiStream prompt (apiKey req) _).
    pose proof (relay_writes_chunks is_reasoner (filter nonempty_delta (deltas run)) "" "")
      as Hchunks.
    destruct (relay is_reasoner _ "" "") as [[ws fullResponse] fullReasoning].
    cbn [fst] in Hchunks.
    destruct (rejection run) as [message|]; cbn [fst ContentCache.ret].
    + intros [H|H]; [discriminate|]. apply in_app_or in H as [H|H].
      * apply Hchunks in H. discriminate.
      * now apply fail_writes_no_complete in H.
    + intros [H|H]; [discriminate|]. apply in_app_or in H as [H|H].
      * apply Hchunks in H. discriminate.
      * destruct H as [H|[H|[]]]; [|discriminate]. injection H as <- <- <-.
        split.
        -- destruct (ToolParser.parseToolCalls fullResponse) as [|call rest] eqn:E.
           ++ split; [exact E|exact I].
           ++ destruct (no_call_left fullResponse) as [Hp Hh].
              destruct (parsed_call_known _ _ _ E) as [-> Hk].
              split; [exact Hp|]. split; [exact Hh|]. exists call. auto.
        -- destruct (fullReasoning =? "")%string eqn:Er; [discriminate|].
           intros [= ->]. discriminate.
  - cbn [fst ContentCache.ret]. intros [H|H]; [discriminate|].
    now apply fail_writes_no_complete in H.
Qed.

End WithCollaborators.

End StreamRouteFacts.

(** A back end whose fragments add up to a reply with a labelled call. *)
Definition sample_tool_stream (prompt : string) (apiKey : JS.value) (actualModel : string)
  : AgentRoute.StreamRun :=
  {| AgentRoute.deltas :=
       [("I will look at the file. ", "");
        (JS.dq "TOOL_CALL: {'tool_name': 'view_file', ", "");
        (JS.dq "'parameters': {}}", "")];
     AgentRoute.rejection := None |}.

(** X13 (server/routes/agent.cjs, POST /stream).  The text of a complete
    event never parses to a tool call.  When the event carries tool calls,
    it carries exactly one, for a tool of AVAILABLE_TOOLS, and its text has
    been cut before the first marker, so that hasToolCall is false on it;
    the reasoning, when sent, is not empty. *)
Theorem complete_event_hides_the_tool_call :
  forall Date_now_at generatePrompt callDeepSeekApiStream
         (req : AgentRoute.Request) (w : ContentCache.World)
         final tool_calls reasoning,
    In (AgentRoute.Data (AgentRoute.Complete final tool_calls reasoning))
       (fst (AgentRoute.stream Date_now_at generatePrompt callDeepSeekApiStream req w)) ->
    StreamRouteFacts.hides_the_call final tool_calls /\ reasoning <> Some "".
Proof.
  intros clock gp api req w final tool_calls reasoning.
  apply StreamRouteFacts.stream_complete.
Qed.

Lemma complete_event_hides_the_tool_call_witness :
  StreamRouteFacts.hides_the_call "I will look at the file."
    (Some [ {| ToolParser.tool_name := "view_file"; ToolParser.parameters := JS.Obj [] |} ])
  /\ (None : option string) <> Some "".
Proof.
  apply (complete_event_hides_the_tool_call (late_clock 4) demo_prompt sample_tool_stream
           (demo_request (JS.Str "sk-demo")) ContentCache.emptyWorld).
  vm_compute. do 4 right. left. reflexivity.
Defined.

(** Division and remainder on [nat] for [lia]. *)
From Stdlib Require Import ZifyNat.

(* ===================================================================== *)
(** * Properties of [btoa] and [atob] *)
(* ===================================================================== *)

Module Base64Facts.

Import Base64.
Local Open Scope nat_scope.
Local Open Scope list_scope.

(** Induction on a string, three characters at a time. *)
Lemma by_threes (P : string -> Prop) :
  P "" ->
  (forall a, P (String a "")) ->
  (forall a b, P (String a (String b ""))) ->
  (forall a b c rest, P rest -> P (String a (String b (String c rest)))) ->
  forall s, P s.
Proof.
  intros H0 H1 H2 H3.
  assert (forall s, P s /\ (forall a, P (String a s)) /\ (forall a b, P (String a (String b s))))
    as H.
  { induction s as [|c s (IH0 & IH1 & IH2)]; [auto|].
    repeat split; auto. }
  intros s. apply H.
Qed.

Ltac divlia := zify; Z.div_mod_to_equations; lia.

Ltac threes := let s := fresh "s" in
  intros s; pattern s; revert s; apply by_threes; cbv beta.

(** The digits [btoa] writes, as numbers, and the padding after them. *)
Fixpoint body (s : string) : list nat :=
  match s with
  | EmptyString => []
  | String a EmptyString =>
      let x := nat_of_ascii a in [x / 4; x mod 4 * 16]
  | String a (String b EmptyString) =>
      let x := nat_of_ascii a in
      let y := nat_of_ascii b in
      [x / 4; x mod 4 * 16 + y / 16; y mod 16 * 4]
  | String a (String b (String c rest)) =>
      let x := nat_of_ascii a in
      let y := nat_of_ascii b in
      let z := nat_of_ascii c in
      x / 4 :: x mod 4 * 16 + y / 16 :: y mod 16 * 4 + z / 64 :: z mod 64 :: body rest
  end.

Fixpoint pad (s : string) : list ascii :=
  match s with
  | EmptyString => []
  | String a EmptyString => ["="%char; "="%char]
  | String a (String b EmptyString) => ["="%char]
  | String a (String b (String c rest)) => pad rest
  end.

Lemma btoa_shape : forall s,
    list_ascii_of_string (btoa s) = map digit (body s) ++ pad s.
Proof.
  threes; intros; try reflexivity.
  cbn [btoa body pad map list_ascii_of_string app]. now rewrite H.
Qed.

Lemma byte_bound a : nat_of_ascii a < 256.
Proof. apply nat_ascii_bounded. Qed.

Lemma body_bound : forall s n, In n (body s) -> n < 64.
Proof.
  threes.
  - intros n [].
  - intros a n. pose proof (byte_bound a). cbn [body In].
    intros [<-|[<-|[]]]; divlia.
  - intros a b n. pose proof (byte_bound a). pose proof (byte_bound b). cbn [body In].
    intros [<-|[<-|[<-|[]]]]; divlia.
  - intros a b c rest IH n.
    pose proof (byte_bound a). pose proof (byte_bound b). pose proof (byte_bound c).
    cbn [body In]. intros [<-|[<-|[<-|[<-|Hin]]]]; try divlia. now apply IH.
Qed.

(** The digits come in fours, with two or three at the end when padding
    follows. *)
Lemma body_length : forall s,
    exists q, (List.length (body s) = 4 * q /\ pad s = [])
              \/ (List.length (body s) = 4 * q + 2 /\ pad s = ["="%char; "="%char])
              \/ (List.length (body s) = 4 * q + 3 /\ pad s = ["="%char]).
Proof.
  threes.
  - exists 0. left. auto.
  - intros a. exists 0. right. left. auto.
  - intros a b. exists 0. right. right. auto.
  - intros a b c rest (q & H). exists (S q). cbn [body pad List.length].
    destruct H as [[-> ->]|[[-> ->]|[-> ->]]]; [left|right; left|right; right]; split;
      auto; lia.
Qed.

(** What holds of each of the 64 digits. *)
Definition digit_ok (n : nat) : bool :=
  match value (digit n) with Some k => k =? n | None => false end
  && negb (is_ascii_whitespace (digit n))
  && negb (Ascii.eqb (digit n) "=").

Lemma digits_ok n : n < 64 -> digit_ok n = true.
Proof.
  intros H.
  assert (forallb digit_ok (seq 0 64) = true) as Hall by (vm_compute; reflexivity).
  rewrite forallb_forall in Hall. apply Hall. apply in_seq. lia.
Qed.

Lemma value_digit n : n < 64 -> value (digit n) = Some n.
Proof.
  intros H. apply digits_ok in H. unfold digit_ok in H.
  apply andb_prop in H as [H _]. apply andb_prop in H as [H _].
  destruct (value (digit n)); [|discriminate]. apply Nat.eqb_eq in H. now subst.
Qed.

Lemma digit_not_whitespace n : n < 64 -> is_ascii_whitespace (digit n) = false.
Proof.
  intros H. apply digits_ok in H. unfold digit_ok in H.
  apply andb_prop in H as [H _]. apply andb_prop in H as [_ H].
  now apply negb_true_iff in H.
Qed.

Lemma digit_not_padding n : n < 64 -> Ascii.eqb (digit n) "=" = false.
Proof.
  intros H. apply digits_ok in H. unfold digit_ok in H.
  apply andb_prop in H as [_ H]. now apply negb_true_iff in H.
Qed.

Lemma sextets_digits ns :
  (forall n, In n ns -> n < 64) -> sextets (map digit ns) = Some ns.
Proof.
  induction ns as [|n ns IH]; intros H; [reflexivity|].
  cbn [map sextets]. rewrite value_digit by (apply H; now left).
  rewrite IH; [reflexivity|]. intros k Hk. apply H. now right.
Qed.

Lemma remove_whitespace_digits ns p :
  (forall n, In n ns -> n < 64) -> p = [] \/ p = ["="%char; "="%char] \/ p = ["="%char] ->
  remove_whitespace (map digit ns ++ p) = map digit ns ++ p.
Proof.
  intros H Hp. unfold remove_whitespace. rewrite filter_app.
  replace (filter _ p) with p by (destruct Hp as [->|[->| ->]]; reflexivity).
  f_equal. induction ns as [|n ns IH]; [reflexivity|].
  cbn [map filter]. rewrite digit_not_whitespace by (apply H; now left).
  cbn [negb]. f_equal. apply IH. intros k Hk. apply H. now right.
Qed.

Lemma last_digit_not_padding ns :
  (forall n, In n ns -> n < 64) ->
  match rev (map digit ns) with c :: _ => Ascii.eqb c "=" = false | [] => True end.
Proof.
  intros H. rewrite <- map_rev.
  destruct (rev ns) as [|n r] eqn:E; [exact I|].
  cbn [map]. apply digit_not_padding, H. apply in_rev. rewrite E. now left.
Qed.

Lemma strip_padding_digits ns p :
  (forall n, In n ns -> n < 64) ->
  List.length (map digit ns ++ p) mod 4 = 0 ->
  p = [] \/ p = ["="%char; "="%char] \/ p = ["="%char] ->
  strip_padding (map digit ns ++ p) = map digit ns.
Proof.
  intros H Hlen Hp. unfold strip_padding. rewrite Hlen. cbn [Nat.eqb].
  pose proof (last_digit_not_padding ns H) as Hlast.
  rewrite rev_app_distr.
  destruct Hp as [->|[->| ->]]; cbn [rev app].
  - rewrite app_nil_r.
    destruct (rev (map digit ns)) as [|c r]; [reflexivity|]. now rewrite Hlast.
  - cbn [Ascii.eqb Bool.eqb]. 
    destruct (rev (map digit ns)) as [|c r] eqn:E.
    + apply (f_equal (@rev ascii)) in E. rewrite rev_involutive in E. rewrite E. reflexivity.
    + rewrite <- E. apply rev_involutive.
  - cbn [Ascii.eqb Bool.eqb].
    destruct (rev (map digit ns)) as [|c r] eqn:E.
    + apply (f_equal (@rev ascii)) in E. rewrite rev_involutive in E. rewrite E. reflexivity.
    + rewrite Hlast. rewrite <- E. apply rev_involutive.
Qed.

Lemma bytes_body : forall s, bytes (body s) = list_ascii_of_string s.
Proof.
  threes.
  - reflexivity.
  - intros a. pose proof (byte_bound a). cbn [body bytes list_ascii_of_string].
    replace (nat_of_ascii a / 4 * 4 + nat_of_ascii a mod 4 * 16 / 16) with (nat_of_ascii a)
      by divlia.
    now rewrite ascii_nat_embedding.
  - intros a b. pose proof (byte_bound a). pose proof (byte_bound b).
    cbn [body bytes list_ascii_of_string].
    replace (nat_of_ascii a / 4 * 4 + (nat_of_ascii a mod 4 * 16 + nat_of_ascii b / 16) / 16)
      with (nat_of_ascii a) by divlia.
    replace ((nat_of_ascii a mod 4 * 16 + nat_of_ascii b / 16) mod 16 * 16
             + nat_of_ascii b mod 16 * 4 / 4)
      with (nat_of_ascii b) by divlia.
    now rewrite !ascii_nat_embedding.
  - intros a b c rest IH.
    pose proof (byte_bound a). pose proof (byte_bound b). pose proof (byte_bound c).
    cbn [body bytes list_ascii_of_string]. rewrite IH.
    replace (nat_of_ascii a / 4 * 4 + (nat_of_ascii a mod 4 * 16 + nat_of_ascii b / 16) / 16)
      with (nat_of_ascii a) by divlia.
    replace ((nat_of_ascii a mod 4 * 16 + nat_of_ascii b / 16) mod 16 * 16
             + (nat_of_ascii b mod 16 * 4 + nat_of_ascii c / 64) / 4)
      with (nat_of_ascii b) by divlia.
    replace ((nat_of_ascii b mod 16 * 4 + nat_of_ascii c / 64) mod 4 * 64
             + nat_of_ascii c mod 64)
      with (nat_of_ascii c) by divlia.
    now rewrite !ascii_nat_embedding.
Qed.

Lemma atob_btoa s : atob (btoa s) = Some s.
Proof.
  unfold atob. rewrite btoa_shape.
  pose proof (body_bound s) as Hb.
  destruct (body_length s) as (q & Hq).
  assert (pad s = [] \/ pad s = ["="%char; "="%char] \/ pad s = ["="%char]) as Hp
      by (destruct Hq as [[_ ->]|[[_ ->]|[_ ->]]]; auto).
  assert (List.length (map digit (body s) ++ pad s) mod 4 = 0) as Hlen.
  { rewrite length_app, length_map.
    destruct Hq as [[-> ->]|[[-> ->]|[-> ->]]]; cbn [List.length]; divlia. }
  rewrite remove_whitespace_digits, strip_padding_digits by assumption.
  assert ((List.length (map digit (body s)) mod 4 =? 1) = false) as ->.
  { apply Nat.eqb_neq. rewrite length_map.
    destruct Hq as [[-> _]|[[-> _]|[-> _]]]; divlia. }
  rewrite sextets_digits by assumption.
  now rewrite bytes_body, string_of_list_ascii_of_string.
Qed.

Lemma length_btoa : forall s, String.length s <= String.length (btoa s).
Proof.
  threes; intros; cbn [btoa String.length]; lia.
Qed.

End Base64Facts.

(* ===================================================================== *)
(** * Properties of the stored API keys *)
(* ===================================================================== *)

Module ApiKeyFacts.

Import Regex RegexFacts ApiKeyStore.
Local Open Scope nat_scope.

(** *** The store *)

Lemma getItem_removeItem_same key st : getItem key (removeItem key st) = None.
Proof.
  induction st as [|[k v] st IH]; simpl; [reflexivity|].
  destruct (String.eqb_spec k key) as [->|Hne]; [assumption|].
  simpl. destruct (String.eqb_spec k key); [contradiction|assumption].
Qed.

Lemma getItem_removeItem_other key other st :
  other <> key -> getItem key (removeItem other st) = getItem key st.
Proof.
  intros Hne. induction st as [|[k v] st IH]; simpl; [reflexivity|].
  destruct (String.eqb_spec k other) as [->|Hko].
  - destruct (String.eqb_spec other key); [contradiction|assumption].
  - simpl. now rewrite IH.
Qed.

Lemma getItem_setItem_same key value st : getItem key (setItem key value st) = Some value.
Proof. unfold setItem. simpl. now rewrite String.eqb_refl. Qed.

Lemma getItem_setItem_other key other value st :
  other <> key -> getItem key (setItem other value st) = getItem key st.
Proof.
  intros Hne. unfold setItem. simpl.
  destruct (String.eqb_spec other key); [contradiction|].
  now apply getItem_removeItem_other.
Qed.

(** *** A greedy run of one character class *)

Fixpoint all_in (p : ascii -> bool) (s : string) : bool :=
  match s with
  | EmptyString => true
  | String c rest => p c && all_in p rest
  end.

Lemma star_class_complete {A} p : forall a b caps (k : string -> captures -> option A),
    all_in p a = true -> succeeds (k b caps) = true ->
    succeeds (m (Star (Cls p)) (a ++ b) caps k) = true.
Proof.
  intros a b caps k Ha Hk. simpl.
  generalize (Nat.le_refl (String.length (a ++ b))).
  generalize (String.length (a ++ b)) at 2 3 as fuel.
  intros fuel. revert a Ha.
  induction fuel as [|fuel IH]; intros a Ha Hlen.
  - destruct a; simpl in *; [exact Hk|lia].
  - destruct a as [|c a].
    + cbn [append].
      match goal with
      | |- succeeds (match ?x with _ => _ end) = true => destruct x; [reflexivity|exact Hk]
      end.
    + cbn [append]. simpl in Ha. apply andb_prop in Ha as [Hc Ha].
      cbn [m]. rewrite Hc.
      assert ((String.length (a ++ b) <? String.length (String c (a ++ b))) = true) as ->
          by (apply Nat.ltb_lt; simpl; lia).
      simpl in Hlen. specialize (IH a Ha ltac:(lia)).
      match type of IH with
      | succeeds ?x = true => destruct x; [reflexivity|discriminate]
      end.
Qed.

Lemma star_class_sound {A} p : forall s caps (k : string -> captures -> option A),
    succeeds (m (Star (Cls p)) s caps k) = true ->
    exists a b, s = a ++ b /\ all_in p a = true /\ succeeds (k b caps) = true.
Proof.
  intros s caps k. simpl. generalize (String.length s) at 1 as fuel. intros fuel.
  revert s. induction fuel as [|fuel IH]; intros s H.
  - exists "", s. auto.
  - destruct s as [|c rest].
    + exists "", "". auto.
    + cbn [m] in H. destruct (p c) eqn:Hc.
      * destruct (String.length rest <? String.length (String c rest)) eqn:Hlt.
        -- match type of H with
           | succeeds (match ?x with _ => _ end) = true => destruct x eqn:E
           end.
           ++ destruct (IH rest) as (run & b & -> & Ha & Hk); [now rewrite E|].
              exists (String c run), b. simpl. rewrite Hc, Ha. auto.
           ++ exists "", (String c rest). auto.
        -- exists "", (String c rest). auto.
      * exists "", (String c rest). auto.
Qed.

(** *** The two patterns *)

Definition base64_class (c : ascii) : bool :=
  in_range "A" "Z" c || in_range "a" "z" c || in_range "0" "9" c
  || Ascii.eqb c "+" || Ascii.eqb c "/".

Lemma base64_like_complete a p :
  all_in base64_class a = true -> p = "" \/ p = "=" \/ p = "==" ->
  test_at_start base64_like (a ++ p) = true.
Proof.
  intros Ha Hp. unfold test_at_start, base64_like, base64_char, match_here.
  change (m (Seq (Star (Cls base64_class)) ?r) ?s ?c ?k)
    with (m (Star (Cls base64_class)) s c (fun s' caps' => m r s' caps' k)).
  match goal with
  | |- match ?x with _ => _ end = true =>
      assert (succeeds x = true) as H; [|destruct x; [reflexivity|discriminate]]
  end.
  apply star_class_complete; [assumption|].
  destruct Hp as [->|[->| ->]]; reflexivity.
Qed.

Lemma base64_like_sound s :
  test_at_start base64_like s = true ->
  exists a p, s = a ++ p /\ all_in base64_class a = true /\ (p = "" \/ p = "=" \/ p = "==").
Proof.
  unfold test_at_start, base64_like, base64_char, match_here.
  change (m (Seq (Star (Cls base64_class)) ?r) ?s ?c ?k)
    with (m (Star (Cls base64_class)) s c (fun s' caps' => m r s' caps' k)).
  intros H.
  match type of H with
  | match ?x with _ => _ end = true => assert (succeeds x = true) as H'
      by (destruct x; [reflexivity|discriminate])
  end.
  apply star_class_sound in H' as (a & b & -> & Ha & Hk).
  exists a, b. repeat split; auto.
  destruct b as [|c1 [|c2 [|c3 b]]].
  - auto.
  - simpl in Hk. destruct (Ascii.eqb_spec c1 "="); [subst; auto|discriminate].
  - simpl in Hk. destruct (Ascii.eqb_spec c1 "="); [subst|discriminate].
    simpl in Hk. destruct (Ascii.eqb_spec c2 "="); [subst; auto|discriminate].
  - simpl in Hk. destruct (Ascii.eqb c1 "="); [|discriminate].
    simpl in Hk. destruct (Ascii.eqb c2 "="); simpl in Hk; discriminate.
Qed.

Lemma at_least_length {A} p n : forall s caps (k : string -> captures -> option A),
    succeeds (m (at_least n (Cls p)) s caps k) = true -> n <= String.length s.
Proof.
  induction n as [|n IH]; intros s caps k H; [lia|].
  cbn [at_least m] in H. destruct s as [|c rest]; [discriminate|].
  destruct (p c); [|discriminate]. apply IH in H. simpl. lia.
Qed.

(** A key the dialog accepts starts with sk- and has 35 characters or
    more. *)
Lemma valid_key_shape key :
  ApiKeyModal.validateApiKey key = true ->
  prefix "sk-" key = true /\ 35 <= String.length key.
Proof.
  unfold ApiKeyModal.validateApiKey.
  destruct ((key =? "")%string || (String.length (JS.trim key) =? 0)); [discriminate|].
  unfold test_at_start, key_pattern, match_here.
  change (m (Seq (Lit "sk-") ?r) ?s ?c ?k)
    with (m (Lit "sk-") s c (fun s' caps' => m r s' caps' k)).
  rewrite ToolParserFacts.m_Lit.
  destruct (prefix "sk-" key) eqn:Hp; [|discriminate].
  intros H. split; [reflexivity|].
  apply ToolParserFacts.prefix_split in Hp.
  match type of H with
  | match ?x with _ => _ end = true => assert (succeeds x = true) as H'
      by (destruct x; [reflexivity|discriminate])
  end.
  cbn [m] in H'. apply at_least_length in H'.
  rewrite Hp, StringFacts.length_append. simpl String.length at 1. lia.
Qed.

(** *** Reading a stored value *)

Lemma read_stored_shape saved :
  read_stored saved = "" \/ looks_like_key (read_stored saved) = true.
Proof.
  unfold read_stored. destruct saved as [s|]; [|now left].
  destruct (s =? "")%string; [now left|].
  assert ((if looks_like_key s then s else "") = ""
          \/ looks_like_key (if looks_like_key s then s else "") = true) as Hplain
      by (destruct (looks_like_key s) eqn:E; auto).
  destruct ((20 <? String.length s) && test_at_start base64_like s); [|exact Hplain].
  destruct (Base64.atob s) as [decoded|]; [|exact Hplain].
  destruct (looks_like_key decoded) eqn:E; auto.
Qed.

Lemma digits_in_class ns :
  (forall n, In n ns -> n < 64) ->
  all_in base64_class (string_of_list_ascii (map Base64.digit ns)) = true.
Proof.
  induction ns as [|n ns IH]; intros H; [reflexivity|].
  cbn [map string_of_list_ascii all_in]. rewrite IH by (intros k Hk; apply H; now right).
  rewrite andb_true_r.
  assert (forallb (fun n => base64_class (Base64.digit n)) (seq 0 64) = true) as Hall
      by (vm_compute; reflexivity).
  rewrite forallb_forall in Hall. apply Hall. apply in_seq.
  specialize (H n (or_introl eq_refl)). lia.
Qed.

Lemma string_of_list_ascii_app a b :
  string_of_list_ascii (a ++ b)%list = string_of_list_ascii a ++ string_of_list_ascii b.
Proof. induction a; simpl; congruence. Qed.

Lemma btoa_base64_like s : test_at_start base64_like (Base64.btoa s) = true.
Proof.
  rewrite <- (string_of_list_ascii_of_string (Base64.btoa s)), Base64Facts.btoa_shape.
  rewrite string_of_list_ascii_app.
  apply base64_like_complete.
  - apply digits_in_class, Base64Facts.body_bound.
  - destruct (Base64Facts.body_length s) as (q & [[_ ->]|[[_ ->]|[_ ->]]]); auto.
Qed.

(** A valid key, stored encoded, is read back. *)
Lemma read_stored_btoa key :
  ApiKeyModal.validateApiKey key = true ->
  read_stored (Some (Base64.btoa key)) = key.
Proof.
  intros Hv. destruct (valid_key_shape key Hv) as [Hp Hlen].
  pose proof (Base64Facts.length_btoa key) as Hb.
  unfold read_stored.
  destruct (String.eqb_spec (Base64.btoa key) "") as [E|_].
  { rewrite E in Hb. simpl in Hb. lia. }
  assert ((20 <? String.length (Base64.btoa key)) = true) as -> by (apply Nat.ltb_lt; lia).
  rewrite btoa_base64_like, Base64Facts.atob_btoa. cbn [andb].
  unfold looks_like_key. rewrite Hp.
  assert ((32 <=? String.length key) = true) as -> by (apply Nat.leb_le; lia).
  reflexivity.
Qed.

(** A key stored as it is, is read as it is: its third character rules
    out the encoded reading. *)
Lemma read_stored_plain saved :
  looks_like_key saved = true -> read_stored (Some saved) = saved.
Proof.
  intros Hk. unfold read_stored. rewrite Hk.
  pose proof Hk as Hk'. unfold looks_like_key in Hk'. apply andb_prop in Hk' as [Hp Hl].
  apply ToolParserFacts.prefix_split in Hp.
  destruct (String.eqb_spec saved "") as [E|_]; [now rewrite E in Hk|].
  destruct (test_at_start base64_like saved) eqn:Ht; [|now rewrite andb_false_r].
  exfalso. apply base64_like_sound in Ht as (a & p & Hs & Ha & Hpad).
  rewrite Hs in Hp. simpl in Hp.
  destruct a as [|c1 [|c2 [|c3 a]]]; simpl in *.
  - destruct Hpad as [->|[->| ->]]; discriminate.
  - destruct Hpad as [->|[->| ->]]; discriminate.
  - destruct Hpad as [->|[->| ->]]; discriminate.
  - inversion Hp; subst. vm_compute in Ha. discriminate.
Qed.

End ApiKeyFacts.

(* ===================================================================== *)
(** * Properties of the stored API keys *)
(* ===================================================================== *)

(** A key of the accepted form, and a store holding an older key. *)
Definition sample_key : string := "sk-0123456789abcdefghijABCDEFGHIJ01".

Definition sample_store : ApiKeyStore.Storage :=
  [("apiKey_qwen", "sk-ZZZZZZZZZZZZZZZZZZZZZZZZZZZZZZZZZZ"); ("theme", "dark")].

(** X14.  After [handleSaveAllApiKeys], a key that passes [validateApiKey]
    is what [loadApiKey] returns for its model, in the dialog and in the
    chat panel, where the reasoner model shares the deepseek key.  A
    key that does not pass is not written: the loader still returns what it
    returned before. *)
Theorem saved_api_key_is_loaded_back :
  forall deepseekApiKey qwenApiKey st,
    let after :=
      ApiKeyModal.storage (ApiKeyModal.handleSaveAllApiKeys deepseekApiKey qwenApiKey st) in
    (ApiKeyModal.validateApiKey deepseekApiKey = true ->
     ApiKeyModal.loadApiKey after "deepseek" = deepseekApiKey /\
     AgentChatKeys.loadApiKey after "deepseek" = deepseekApiKey /\
     AgentChatKeys.loadApiKey after "deepseek-reasoner" = deepseekApiKey) /\
    (ApiKeyModal.validateApiKey qwenApiKey = true ->
     ApiKeyModal.loadApiKey after "qwen" = qwenApiKey /\
     AgentChatKeys.loadApiKey after "qwen" = qwenApiKey) /\
    (ApiKeyModal.validateApiKey deepseekApiKey = false ->
     ApiKeyModal.loadApiKey after "deepseek" = ApiKeyModal.loadApiKey st "deepseek") /\
    (ApiKeyModal.validateApiKey qwenApiKey = false ->
     ApiKeyModal.loadApiKey after "qwen" = ApiKeyModal.loadApiKey st "qwen").
Proof.
  intros dk qk st after.
  assert (ApiKeyStore.getItem "apiKey_deepseek" after
          = if ApiKeyModal.validateApiKey dk
            then Some (Base64.btoa dk) else ApiKeyStore.getItem "apiKey_deepseek" st) as Hd.
  { unfold after, ApiKeyModal.handleSaveAllApiKeys. cbn [ApiKeyModal.storage].
    rewrite ApiKeyFacts.getItem_setItem_other by discriminate.
    destruct (ApiKeyModal.validateApiKey qk);
      [rewrite ApiKeyFacts.getItem_setItem_other by discriminate|];
      (destruct (ApiKeyModal.validateApiKey dk);
       [apply ApiKeyFacts.getItem_setItem_same|reflexivity]). }
  assert (ApiKeyStore.getItem "apiKey_qwen" after
          = if ApiKeyModal.validateApiKey qk
            then Some (Base64.btoa qk) else ApiKeyStore.getItem "apiKey_qwen" st) as Hq.
  { unfold after, ApiKeyModal.handleSaveAllApiKeys. cbn [ApiKeyModal.storage].
    rewrite ApiKeyFacts.getItem_setItem_other by discriminate.
    destruct (ApiKeyModal.validateApiKey qk);
      [apply ApiKeyFacts.getItem_setItem_same|].
    destruct (ApiKeyModal.validateApiKey dk);
      [now rewrite ApiKeyFacts.getItem_setItem_other by discriminate|reflexivity]. }
  unfold ApiKeyModal.loadApiKey, AgentChatKeys.loadApiKey.
  cbn [String.eqb Ascii.eqb Bool.eqb append].
  change ("apiKey_" ++ "deepseek") with "apiKey_deepseek".
  change ("apiKey_" ++ "qwen") with "apiKey_qwen".
  rewrite Hd, Hq.
  split; [|split; [|split]]; intros Hv; rewrite Hv; try reflexivity.
  - rewrite ApiKeyFacts.read_stored_btoa by assumption. auto.
  - rewrite ApiKeyFacts.read_stored_btoa by assumption. auto.
Qed.

Lemma saved_api_key_is_loaded_back_witness :
  let after :=
    ApiKeyModal.storage (ApiKeyModal.handleSaveAllApiKeys sample_key "sk-short" sample_store) in
  (ApiKeyModal.loadApiKey after "deepseek" = sample_key /\
   AgentChatKeys.loadApiKey after "deepseek" = sample_key /\
   AgentChatKeys.loadApiKey after "deepseek-reasoner" = sample_key) /\
  ApiKeyModal.loadApiKey after "qwen" = ApiKeyModal.loadApiKey sample_store "qwen".
Proof.
  pose proof (saved_api_key_is_loaded_back sample_key "sk-short" sample_store)
    as (Hd & _ & _ & Hq).
  split; [apply Hd|apply Hq]; vm_compute; reflexivity.
Defined.

(** X15.  Whatever the store holds, [loadApiKey] returns either the empty
    string or a text that starts with sk- and has at least 32 characters. *)
Theorem loaded_api_key_is_well_formed :
  forall st modelType,
    (ApiKeyModal.loadApiKey st modelType = "" \/
     (prefix "sk-" (ApiKeyModal.loadApiKey st modelType) = true /\
      (32 <= String.length (ApiKeyModal.loadApiKey st modelType))%nat)) /\
    (AgentChatKeys.loadApiKey st modelType = "" \/
     (prefix "sk-" (AgentChatKeys.loadApiKey st modelType) = true /\
      (32 <= String.length (AgentChatKeys.loadApiKey st modelType))%nat)).
Proof.
  intros st modelType.
  assert (forall saved,
             ApiKeyStore.read_stored saved = "" \/
             (prefix "sk-" (ApiKeyStore.read_stored saved) = true /\
              (32 <= String.length (ApiKeyStore.read_stored saved))%nat)) as H.
  { intros saved. destruct (ApiKeyFacts.read_stored_shape saved) as [E|E]; [now left|].
    right. unfold ApiKeyStore.looks_like_key in E. apply andb_prop in E as [Hp Hl].
    split; [assumption|]. now apply Nat.leb_le. }
  split; apply H.
Qed.

(** X16.  A key kept in the store as plain text (the older format) is
    returned as it is: it is never taken for an encoded value. *)
Theorem plain_stored_key_is_loaded :
  forall st modelType saved,
    ApiKeyStore.getItem ("apiKey_" ++ modelType) st = Some saved ->
    prefix "sk-" saved = true ->
    (32 <= String.length saved)%nat ->
    ApiKeyModal.loadApiKey st modelType = saved.
Proof.
  intros st modelType saved Hget Hp Hl. unfold ApiKeyModal.loadApiKey. rewrite Hget.
  apply ApiKeyFacts.read_stored_plain. unfold ApiKeyStore.looks_like_key.
  rewrite Hp. now apply Nat.leb_le.
Qed.

Lemma plain_stored_key_is_loaded_witness :
  ApiKeyModal.loadApiKey sample_store "qwen" = "sk-ZZZZZZZZZZZZZZZZZZZZZZZZZZZZZZZZZZ".
Proof.
  apply (plain_stored_key_is_loaded sample_store "qwen"); [reflexivity|reflexivity|].
  vm_compute. lia.
Defined.

(** X17.  Clearing a key removes it: after [handleClearDeepseekApiKey] the
    loaders return the empty string for deepseek and for the reasoner
    model, and what they return for qwen is unchanged; likewise with the
    roles exchanged for [handleClearQwenApiKey]. *)
Theorem cleared_api_key_is_gone :
  forall st,
    ApiKeyModal.loadApiKey (ApiKeyModal.handleClearDeepseekApiKey st) "deepseek" = "" /\
    AgentChatKeys.loadApiKey (ApiKeyModal.handleClearDeepseekApiKey st) "deepseek-reasoner" = "" /\
    ApiKeyModal.loadApiKey (ApiKeyModal.handleClearDeepseekApiKey st) "qwen"
    = ApiKeyModal.loadApiKey st "qwen" /\
    ApiKeyModal.loadApiKey (ApiKeyModal.handleClearQwenApiKey st) "qwen" = "" /\
    ApiKeyModal.loadApiKey (ApiKeyModal.handleClearQwenApiKey st) "deepseek"
    = ApiKeyModal.loadApiKey st "deepseek".
Proof.
  intros st.
  unfold ApiKeyModal.loadApiKey, AgentChatKeys.loadApiKey,
    ApiKeyModal.handleClearDeepseekApiKey, ApiKeyModal.handleClearQwenApiKey.
  cbn [String.eqb Ascii.eqb Bool.eqb append].
  change ("apiKey_" ++ "deepseek") with "apiKey_deepseek".
  change ("apiKey_" ++ "qwen") with "apiKey_qwen".
  rewrite !ApiKeyFacts.getItem_removeItem_same.
  rewrite !ApiKeyFacts.getItem_removeItem_other by discriminate.
  repeat split; reflexivity.
Qed.

(* ===================================================================== *)
(** * Properties of [extractArxivId] *)
(* ===================================================================== *)

Module ArxivFacts.

Import Regex RegexFacts ArxivId StringFacts ToolParserFacts.
Import ApiKeyFacts.
Local Open Scope nat_scope.

(** The unfoldings of the matcher used below. *)
Lemma m_Seq {A} a b s caps (k : string -> captures -> option A) :
  m (Seq a b) s caps k = m a s caps (fun s' caps' => m b s' caps' k).
Proof. reflexivity. Qed.

Lemma m_Grp {A} i a s caps (k : string -> captures -> option A) :
  m (Grp i a) s caps k = m a s caps (fun s' caps' => k s' ((i, consumed s s') :: caps')).
Proof. reflexivity. Qed.

Lemma m_Cls {A} p c rest caps (k : string -> captures -> option A) :
  m (Cls p) (String c rest) caps k = if p c then k rest caps else None.
Proof. reflexivity. Qed.

Lemma m_Chr {A} c c' rest caps (k : string -> captures -> option A) :
  m (Chr c) (String c' rest) caps k = if Ascii.eqb c' c then k rest caps else None.
Proof. reflexivity. Qed.

(** [b] does not go on with a character of the class. *)
Definition stops (p : ascii -> bool) (b : string) : Prop :=
  match b with
  | EmptyString => True
  | String c _ => p c = false
  end.

(** A greedy run takes the whole run when what follows matches there. *)
Lemma star_class_greedy {A} p : forall a b caps (k : string -> captures -> option A) x,
    all_in p a = true -> stops p b -> k b caps = Some x ->
    m (Star (Cls p)) (a ++ b) caps k = Some x.
Proof.
  intros a b caps k x Ha Hb Hk. simpl.
  generalize (Nat.le_refl (String.length (a ++ b))).
  generalize (String.length (a ++ b)) at 2 3 as fuel.
  intros fuel. revert a Ha.
  induction fuel as [|fuel IH]; intros a Ha Hlen.
  - destruct a; simpl in *; [exact Hk|lia].
  - destruct a as [|c a].
    + cbn [append]. destruct b as [|c' b']; [exact Hk|].
      simpl in Hb. rewrite Hb. exact Hk.
    + cbn [append]. simpl in Ha. apply andb_prop in Ha as [Hc Ha].
      rewrite Hc.
      assert ((String.length (a ++ b) <? String.length (String c (a ++ b))) = true) as ->
          by (apply Nat.ltb_lt; simpl; lia).
      simpl in Hlen. now rewrite (IH a Ha ltac:(lia)).
Qed.

(** Whatever a greedy run followed by [k] returns, [k] returned it after
    some run of the class. *)
Lemma star_class_result {A} p : forall s caps (k : string -> captures -> option A) x,
    m (Star (Cls p)) s caps k = Some x ->
    exists a b, s = a ++ b /\ all_in p a = true /\ k b caps = Some x.
Proof.
  intros s caps k x. simpl. generalize (String.length s) at 1 as fuel. intros fuel.
  revert s. induction fuel as [|fuel IH]; intros s H.
  - exists "", s. auto.
  - destruct s as [|c rest].
    + exists "", "". auto.
    + destruct (p c) eqn:Hc.
      * destruct (String.length rest <? String.length (String c rest)) eqn:Hlt.
        -- match type of H with
           | match ?y with _ => _ end = Some x => destruct y as [found|] eqn:E
           end.
           ++ injection H as ->.
              destruct (IH rest E) as (run & b & -> & Ha & Hk).
              exists (String c run), b. simpl. rewrite Hc, Ha. auto.
           ++ exists "", (String c rest). auto.
        -- exists "", (String c rest). auto.
      * exists "", (String c rest). auto.
Qed.

(** *** The pattern *)

Definition accept (s : string) (caps : captures) : option (string * captures) :=
  Some (s, caps).

Definition tail : re := Alt (Grp 2 (Seq (Chr "v"%char) (Plus digit))) Eps.

(** The optional version suffix always matches and leaves group 1 as it
    is. *)
Lemma tail_result post caps :
  exists rest caps', m tail post caps accept = Some (rest, caps') /\
                     capture 1 caps' = capture 1 caps.
Proof.
  unfold tail.
  change (m (Alt ?a Eps) post caps accept)
    with (match m a post caps accept with Some x => Some x | None => accept post caps end).
  rewrite m_Grp.
  match goal with
  | |- exists _ _, match ?y with _ => _ end = _ /\ _ => destruct y as [[rest caps']|] eqn:E
  end.
  - exists rest, caps'. split; [reflexivity|].
    destruct post as [|c r]; [discriminate|].
    rewrite m_Seq, m_Chr in E.
    destruct (Ascii.eqb c "v"); [|discriminate].
    unfold Plus in E. rewrite m_Seq in E.
    destruct r as [|y r]; [discriminate|].
    unfold digit at 1 in E. rewrite m_Cls in E.
    destruct (is_digit y); [|discriminate].
    change (m (Star (Cls is_digit)) r caps
              (fun s' caps'0 => accept s' ((2, consumed (String c (String y r)) s') :: caps'0))
            = Some (rest, caps')) in E.
    apply star_class_result in E as (a & b & _ & _ & Hk).
    cbv beta in Hk. unfold accept in Hk. inversion Hk; subst. reflexivity.
  - exists post, caps. auto.
Qed.

Lemma consumed_app core post : consumed (core ++ post) post = core.
Proof.
  unfold consumed. rewrite length_append.
  replace (String.length core + String.length post - String.length post)
    with (String.length core) by lia.
  apply FileToolsFacts.substring_app_left.
Qed.

(** The pattern at the head of digits, a dot, digits and a text that does
    not go on with a digit: group 1 is the digits around the dot. *)
Lemma pattern_complete x a1 y a2 post :
  is_digit x = true -> all_in is_digit a1 = true ->
  is_digit y = true -> all_in is_digit a2 = true -> stops is_digit post ->
  exists rest caps,
    match_here pattern (String x (a1 ++ String "." (String y (a2 ++ post)))) = Some (rest, caps) /\
    capture 1 caps = Some (String x (a1 ++ String "." (String y a2))).
Proof.
  intros Hx Ha1 Hy Ha2 Hpost.
  set (s := String x (a1 ++ String "." (String y (a2 ++ post)))).
  set (core := String x (a1 ++ String "." (String y a2))).
  assert (s = core ++ post) as Hs.
  { unfold s, core. simpl. rewrite append_assoc. reflexivity. }
  destruct (tail_result post [(1, core)]) as (rest & caps & Ht & Hc).
  exists rest, caps. split; [|rewrite Hc; reflexivity].
  unfold match_here, pattern. fold tail. fold accept.
  rewrite m_Seq, m_Grp. unfold Plus at 1. rewrite !m_Seq.
  unfold s at 1. unfold digit at 1. rewrite m_Cls, Hx.
  apply star_class_greedy; [assumption|reflexivity|].
  rewrite m_Seq, m_Chr. cbn [Ascii.eqb Bool.eqb].
  unfold Plus. rewrite m_Seq. unfold digit at 1. rewrite m_Cls, Hy.
  apply star_class_greedy; [assumption|assumption|].
  rewrite Hs, consumed_app. exact Ht.
Qed.

(** Where the pattern matches, the text starts with digits, a dot and
    digits, and group 1 is that. *)
Lemma pattern_sound t rest caps :
  match_here pattern t = Some (rest, caps) ->
  exists x a1 y a2,
    is_digit x = true /\ all_in is_digit a1 = true /\
    is_digit y = true /\ all_in is_digit a2 = true /\
    capture 1 caps = Some (String x (a1 ++ String "." (String y a2))).
Proof.
  unfold match_here, pattern. fold tail. fold accept.
  rewrite m_Seq, m_Grp. unfold Plus at 1. rewrite !m_Seq.
  destruct t as [|x r1]; [discriminate|].
  unfold digit at 1. rewrite m_Cls. destruct (is_digit x) eqn:Hx; [|discriminate].
  intros H. apply star_class_result in H as (a1 & b & -> & Ha1 & H).
  rewrite m_Seq in H. destruct b as [|dot b]; [discriminate|].
  rewrite m_Chr in H. destruct (Ascii.eqb_spec dot "."); [subst dot|discriminate].
  unfold Plus in H. rewrite m_Seq in H.
  destruct b as [|y r2]; [discriminate|].
  unfold digit at 1 in H. rewrite m_Cls in H. destruct (is_digit y) eqn:Hy; [|discriminate].
  apply star_class_result in H as (a2 & b2 & -> & Ha2 & H).
  exists x, a1, y, a2. repeat split; auto.
  set (core := String x (a1 ++ String "." (String y a2))).
  assert (String x (a1 ++ String "." (String y (a2 ++ b2))) = core ++ b2) as Hs.
  { unfold core. simpl. rewrite append_assoc. reflexivity. }
  rewrite Hs, consumed_app in H.
  destruct (tail_result b2 [(1, core)]) as (rest' & caps' & Ht & Hc).
  rewrite Ht in H. injection H as _ <-. rewrite Hc. reflexivity.
Qed.

(** *** [exec]: the leftmost position *)

Lemma exec_from_at r : forall s idx i rest caps,
    (forall j, j < i -> match_here r (drop j s) = None) ->
    i <= String.length s ->
    match_here r (drop i s) = Some (rest, caps) ->
    exec_from r s idx
    = Some {| index := idx + i; matched := consumed (drop i s) rest; groups := caps |}.
Proof.
  induction s as [|c s IH]; intros idx i rest caps Hbefore Hi Hm.
  - assert (i = 0) as -> by (simpl in Hi; lia). simpl in *. rewrite Hm.
    now rewrite Nat.add_0_r.
  - destruct i as [|i].
    + cbn [drop] in Hm. cbn [exec_from]. rewrite Hm. now rewrite Nat.add_0_r.
    + cbn [exec_from].
      pose proof (Hbefore 0 ltac:(lia)) as H0. cbn [drop] in H0. rewrite H0.
      rewrite (IH (S idx) i rest caps).
      * cbn [drop]. do 2 f_equal. lia.
      * intros j Hj. apply (Hbefore (S j)). lia.
      * simpl in Hi. lia.
      * exact Hm.
Qed.

Lemma exec_from_groups r : forall s idx found,
    exec_from r s idx = Some found ->
    exists i rest, match_here r (drop i s) = Some (rest, groups found).
Proof.
  induction s as [|c s IH]; intros idx found; cbn [exec_from].
  - destruct (match_here r "") as [[rest caps]|] eqn:E; [|discriminate].
    intros [= <-]. exists 0, rest. exact E.
  - destruct (match_here r (String c s)) as [[rest caps]|] eqn:E.
    + intros [= <-]. exists 0, rest. exact E.
    + intros H. apply IH in H as (i & rest & H). exists (S i), rest. exact H.
Qed.

Definition not_digit (c : ascii) : bool := negb (is_digit c).

Lemma pattern_needs_digit c rest :
  is_digit c = false -> match_here pattern (String c rest) = None.
Proof.
  intros H. unfold match_here, pattern.
  rewrite m_Seq, m_Grp. unfold Plus at 1. rewrite !m_Seq.
  unfold digit at 1. rewrite m_Cls, H. reflexivity.
Qed.

Lemma all_in_drop p : forall j s c rest,
    all_in p s = true -> drop j s = String c rest -> p c = true.
Proof.
  induction j; intros s c rest Hs Hd.
  - simpl in Hd. subst s. simpl in Hs. now apply andb_prop in Hs.
  - destruct s as [|c' s]; [discriminate|]. simpl in Hs, Hd.
    apply andb_prop in Hs as [_ Hs]. now apply (IHj s c rest).
Qed.

(** *** [extractArxivId] *)

Lemma extract_complete pre d1 d2 post :
  all_in not_digit pre = true ->
  d1 <> "" -> all_in is_digit d1 = true ->
  d2 <> "" -> all_in is_digit d2 = true ->
  stops is_digit post ->
  extractArxivId (JS.Str (pre ++ d1 ++ "." ++ d2 ++ post)) = Returned (Some (d1 ++ "." ++ d2)).
Proof.
  intros Hpre Hn1 Hd1 Hn2 Hd2 Hpost.
  destruct d1 as [|x a1]; [congruence|]. destruct d2 as [|y a2]; [congruence|].
  simpl in Hd1, Hd2. apply andb_prop in Hd1 as [Hx Ha1]. apply andb_prop in Hd2 as [Hy Ha2].
  destruct (pattern_complete x a1 y a2 post Hx Ha1 Hy Ha2 Hpost) as (rest & caps & Hm & Hc).
  set (t := String x (a1 ++ String "." (String y (a2 ++ post)))) in *.
  assert (String x a1 ++ "." ++ String y a2 ++ post = t) as Ht by reflexivity.
  rewrite Ht. unfold extractArxivId.
  assert (JS.truthy (JS.Str (pre ++ t)) = true) as ->.
  { simpl. apply negb_true_iff, String.eqb_neq. unfold t. now destruct pre. }
  cbn [negb]. unfold exec.
  rewrite (exec_from_at pattern (pre ++ t) 0 (String.length pre) rest caps).
  - unfold group. cbn [groups]. rewrite Hc. reflexivity.
  - intros j Hj. rewrite drop_app_le by lia.
    destruct (drop j pre) as [|c r] eqn:E.
    + pose proof (length_drop j pre) as Hl. rewrite E in Hl. simpl in Hl. lia.
    + cbn [append]. apply pattern_needs_digit.
      pose proof (all_in_drop not_digit j pre c r Hpre E) as Hc'.
      unfold not_digit in Hc'. now apply negb_true_iff in Hc'.
  - rewrite length_append. lia.
  - now rewrite drop_app.
Qed.

Lemma extract_sound idOrUrl id :
  extractArxivId idOrUrl = Returned (Some id) ->
  exists d1 d2,
    d1 <> "" /\ all_in is_digit d1 = true /\ d2 <> "" /\ all_in is_digit d2 = true /\
    id = d1 ++ "." ++ d2.
Proof.
  unfold extractArxivId. destruct (negb (JS.truthy idOrUrl)); [discriminate|].
  destruct idOrUrl as [| |b|mm e|text|l|l]; try discriminate.
  unfold exec. destruct (exec_from pattern text 0) as [found|] eqn:E; [|discriminate].
  intros [= <-].
  apply exec_from_groups in E as (i & rest & Hm).
  apply pattern_sound in Hm as (x & a1 & y & a2 & Hx & Ha1 & Hy & Ha2 & Hc).
  exists (String x a1), (String y a2). unfold group. rewrite Hc.
  simpl. rewrite Hx, Ha1, Hy, Ha2. repeat split; auto; discriminate.
Qed.

End ArxivFacts.

(* ===================================================================== *)
(** * Properties of [extractArxivId] *)
(* ===================================================================== *)

(** X18.  In a text made of a part without digits, then digits, a dot and
    digits, then anything that does not go on with a digit (a version
    suffix, the rest of a link, nothing), [extractArxivId] finds the digits
    around the dot, and only them. *)
Theorem arxiv_id_is_found :
  forall pre d1 d2 post,
    ApiKeyFacts.all_in ArxivFacts.not_digit pre = true ->
    d1 <> "" -> ApiKeyFacts.all_in ArxivId.is_digit d1 = true ->
    d2 <> "" -> ApiKeyFacts.all_in ArxivId.is_digit d2 = true ->
    ArxivFacts.stops ArxivId.is_digit post ->
    ArxivId.extractArxivId (JS.Str (pre ++ d1 ++ "." ++ d2 ++ post))
    = Returned (Some (d1 ++ "." ++ d2)).
Proof. exact ArxivFacts.extract_complete. Qed.

Lemma arxiv_id_is_found_witness :
  ArxivId.extractArxivId (JS.Str "http://arxiv.org/abs/cs.LG/old-2301.07041v2")
  = Returned (Some "2301.07041").
Proof.
  apply (arxiv_id_is_found "http://arxiv.org/abs/cs.LG/old-" "2301" "07041" "v2");
    try reflexivity; discriminate.
Defined.

(** X19.  Whatever [extractArxivId] returns is digits, a dot and digits,
    with no version suffix, and is a fixed point: extracting from the
    result gives the result again. *)
Theorem arxiv_id_is_bare_and_stable :
  forall idOrUrl id,
    ArxivId.extractArxivId idOrUrl = Returned (Some id) ->
    (exists d1 d2,
        d1 <> "" /\ ApiKeyFacts.all_in ArxivId.is_digit d1 = true /\
        d2 <> "" /\ ApiKeyFacts.all_in ArxivId.is_digit d2 = true /\
        id = d1 ++ "." ++ d2) /\
    ArxivId.extractArxivId (JS.Str id) = Returned (Some id).
Proof.
  intros idOrUrl id H.
  pose proof (ArxivFacts.extract_sound idOrUrl id H) as Hshape.
  split; [exact Hshape|].
  destruct Hshape as (d1 & d2 & Hn1 & Hd1 & Hn2 & Hd2 & ->).
  pose proof (ArxivFacts.extract_complete "" d1 d2 "" eq_refl Hn1 Hd1 Hn2 Hd2 I) as Hc.
  cbn [append] in Hc. now rewrite StringFacts.append_nil_r in Hc.
Qed.

Lemma arxiv_id_is_bare_and_stable_witness :
  (exists d1 d2,
      d1 <> "" /\ ApiKeyFacts.all_in ArxivId.is_digit d1 = true /\
      d2 <> "" /\ ApiKeyFacts.all_in ArxivId.is_digit d2 = true /\
      "2301.07041" = d1 ++ "." ++ d2) /\
  ArxivId.extractArxivId (JS.Str "2301.07041") = Returned (Some "2301.07041").
Proof.
  apply (arxiv_id_is_bare_and_stable (JS.Str "see 2301.07041v3 and 1706.03762") "2301.07041").
  vm_compute. reflexivity.
Defined.

(* ===================================================================== *)
(** * Properties of the client's content cache *)
(* ===================================================================== *)

Module AgentServiceFacts.

Import AgentService.

(** The polynomial in 31 of the code units, by Horner's rule from [acc]. *)
Fixpoint horner (content : string) (acc : Z) : Z :=
  match content with
  | EmptyString => acc
  | String c rest => horner rest (31 * acc + Z.of_nat (nat_of_ascii c))
  end.

Lemma to_int32_range z : - 2 ^ 31 <= to_int32 z < 2 ^ 31.
Proof.
  unfold to_int32. change (2 ^ 31) with 2147483648. change (2 ^ 32) with 4294967296.
  Z.div_mod_to_equations. lia.
Qed.

Lemma hash_step a c :
  to_int32 (shl5 (to_int32 a) - to_int32 a + c) = to_int32 (31 * a + c).
Proof.
  unfold shl5, to_int32. change (2 ^ 31) with 2147483648. change (2 ^ 32) with 4294967296.
  Z.div_mod_to_equations. lia.
Qed.

Lemma hash_loop_horner content : forall a,
    hash_loop content (to_int32 a) = to_int32 (horner content a).
Proof.
  induction content as [|c rest IH]; intros a; [reflexivity|].
  cbn [hash_loop horner]. rewrite hash_step. apply IH.
Qed.

Section WithServer.

Variable upload : string -> Fetched.

Local Abbreviation storeContent := (storeContent upload).

Lemma cached_content_is_reused content st h :
  JS.truthy (cachedContentId st) = true ->
  cachedContentHash st = Some h -> h = simpleHash content ->
  storeContent content st
  = {| outcome := Returned (cachedContentId st, JS.Bool false);
       cached := st; uploads := [] |}.
Proof.
  intros Hid Hh ->. unfold AgentService.storeContent.
  now rewrite Hid, Hh, String.eqb_refl.
Qed.

(** A call that throws leaves nothing cached; a call that returns leaves
    cached the identifier it returns, which is truthy, under the hash of
    the content. *)
Lemma cache_after_storeContent content st :
  match outcome (storeContent content st) with
  | Thrown _ => cached (storeContent content st) = nothing_cached
  | Returned (id, _) =>
      JS.truthy id = true /\
      cachedContentId (cached (storeContent content st)) = id /\
      cachedContentHash (cached (storeContent content st)) = Some (simpleHash content)
  end.
Proof.
  unfold AgentService.storeContent.
  destruct (JS.truthy (cachedContentId st)) eqn:Hid; cbn [andb];
    [destruct (cachedContentHash st) as [h|] eqn:Hh;
     [destruct (String.eqb_spec h (simpleHash content)) as [->|Hne]; [cbn; auto|]|]|];
    (destruct (upload content) as [message|[|] status [result|message]]; try reflexivity;
     destruct result; try reflexivity;
     match goal with
     | |- context [JS.truthy (JS.get ?r "success")] =>
         destruct (JS.truthy (JS.get r "success")); try reflexivity;
         destruct (JS.get r "data") eqn:Hd; try reflexivity;
         match goal with
         | |- context [JS.truthy (JS.get ?d "contentId")] =>
             destruct (JS.truthy (JS.get d "contentId")) eqn:Ht; cbn; auto
         end
     end).
Qed.

End WithServer.

End AgentServiceFacts.

(* ===================================================================== *)
(** * Properties of the client's content cache *)
(* ===================================================================== *)

(** X20.  [simpleHash] is the polynomial hash with multiplier 31 of the
    code units, taken modulo 2^32 as a signed 32-bit number and printed in
    base 16: the shift, the subtraction and the conversion to 32 bits at
    each step amount to that. *)
Theorem simpleHash_is_polynomial_hash :
  forall content,
    AgentService.hash_loop content 0
    = AgentService.to_int32 (AgentServiceFacts.horner content 0) /\
    AgentService.simpleHash content
    = AgentService.to_hex (AgentService.to_int32 (AgentServiceFacts.horner content 0)) /\
    - 2 ^ 31 <= AgentService.hash_loop content 0 < 2 ^ 31.
Proof.
  intros content.
  assert (AgentService.hash_loop content 0
          = AgentService.to_int32 (AgentServiceFacts.horner content 0)) as H
      by (apply (AgentServiceFacts.hash_loop_horner content 0)).
  split; [exact H|]. split.
  - unfold AgentService.simpleHash. now rewrite H.
  - rewrite H. apply AgentServiceFacts.to_int32_range.
Qed.

(** A server that accepts every upload and names it after the content. *)
Definition sample_upload (content : string) : AgentService.Fetched :=
  AgentService.Responded true 200
    (Returned (JS.Obj [("success", JS.Bool true);
                       ("data", JS.Obj [("contentId", JS.Str ("id-of-" ++ content));
                                        ("isNew", JS.Bool true)])])).

(** X21.  The client keeps one identifier, under the [simpleHash] of the
    content it was given for.  A call of [storeContent] that throws leaves
    nothing cached.  After a call that returns an identifier, a call with
    any content of the same [simpleHash], the same text or another one,
    returns that identifier with [isNew] false and uploads nothing. *)
Theorem client_cache_is_keyed_by_simpleHash :
  forall upload content st,
    let first := AgentService.storeContent upload content st in
    (forall message,
        AgentService.outcome first = Thrown message ->
        AgentService.cached first = AgentService.nothing_cached) /\
    (forall id isNew other,
        AgentService.outcome first = Returned (id, isNew) ->
        AgentService.simpleHash other = AgentService.simpleHash content ->
        AgentService.storeContent upload other (AgentService.cached first)
        = {| AgentService.outcome := Returned (id, JS.Bool false);
             AgentService.cached := AgentService.cached first;
             AgentService.uploads := [] |}).
Proof.
  intros upload content st first.
  pose proof (AgentServiceFacts.cache_after_storeContent upload content st) as H.
  fold first in H. split.
  - intros message Hm. now rewrite Hm in H.
  - intros id isNew other Ho Hsame. rewrite Ho in H. destruct H as (Ht & Hid & Hh).
    rewrite <- Hid.
    apply (AgentServiceFacts.cached_content_is_reused upload other _ (AgentService.simpleHash content));
      [now rewrite Hid|assumption|now symmetry].
Qed.

Lemma client_cache_is_keyed_by_simpleHash_witness :
  AgentService.storeContent sample_upload "BB"
    (AgentService.cached
       (AgentService.storeContent sample_upload "Aa" AgentService.nothing_cached))
  = {| AgentService.outcome := Returned (JS.Str "id-of-Aa", JS.Bool false);
       AgentService.cached :=
         AgentService.cached
           (AgentService.storeContent sample_upload "Aa" AgentService.nothing_cached);
       AgentService.uploads := [] |}.
Proof.
  apply (client_cache_is_keyed_by_simpleHash sample_upload "Aa" AgentService.nothing_cached)
    with (isNew := JS.Bool true); vm_compute; reflexivity.
Defined.

(* ===================================================================== *)
(** * Properties of the line buffer *)
(* ===================================================================== *)

Module LinesFacts.

Import Lines FileTools StringFacts.

Definition newline : ascii := "010"%char.

Fixpoint no_newline (s : string) : bool :=
  match s with
  | EmptyString => true
  | String c rest => negb (Ascii.eqb c newline) && no_newline rest
  end.

Lemma pop_lines_nil : pop_lines "" = ([], "").
Proof. reflexivity. Qed.

Lemma removelast_cons {A} (x : A) l : l <> [] -> removelast (x :: l) = x :: removelast l.
Proof. destruct l; [congruence|reflexivity]. Qed.

Lemma last_cons {A} (x d : A) l : l <> [] -> last (x :: l) d = last l d.
Proof. destruct l; [congruence|reflexivity]. Qed.

(** A line feed closes a line. *)
Lemma pop_lines_newline rest :
  pop_lines (String newline rest) = ("" :: fst (pop_lines rest), snd (pop_lines rest)).
Proof.
  unfold pop_lines. cbn [split_lines]. unfold newline. rewrite Ascii.eqb_refl.
  pose proof (FileToolsFacts.split_lines_nonempty rest) as Hne.
  now rewrite removelast_cons, last_cons by assumption.
Qed.

(** Another character goes in front of the first line, or of the rest when
    no line is complete. *)
Lemma pop_lines_other c rest :
  Ascii.eqb c newline = false ->
  pop_lines (String c rest)
  = match fst (pop_lines rest) with
    | [] => ([], String c (snd (pop_lines rest)))
    | line :: lines => (String c line :: lines, snd (pop_lines rest))
    end.
Proof.
  intros Hc. unfold pop_lines. cbn [split_lines]. unfold newline in Hc. rewrite Hc.
  pose proof (FileToolsFacts.split_lines_nonempty rest) as Hne.
  destruct (split_lines rest) as [|l [|l2 ls]]; [congruence|reflexivity|reflexivity].
Qed.

Lemma pop_lines_app a : forall b,
    pop_lines (a ++ b)
    = ((fst (pop_lines a) ++ fst (pop_lines (snd (pop_lines a) ++ b)))%list,
       snd (pop_lines (snd (pop_lines a) ++ b))).
Proof.
  induction a as [|c a IH]; intros b.
  - rewrite pop_lines_nil. cbn [fst snd append app]. now destruct (pop_lines b).
  - cbn [append]. destruct (Ascii.eqb c newline) eqn:Hc.
    + apply Ascii.eqb_eq in Hc. subst c. rewrite !pop_lines_newline, IH. reflexivity.
    + rewrite !(pop_lines_other c) by assumption. rewrite IH.
      destruct (fst (pop_lines a)) as [|l ls]; cbn [fst snd app].
      * cbn [append]. rewrite (pop_lines_other c) by assumption.
        destruct (fst (pop_lines (snd (pop_lines a) ++ b))); reflexivity.
      * reflexivity.
Qed.

(** The rest has no line feed, and a buffer without line feed has no
    complete line. *)
Lemma pop_lines_rest s : no_newline (snd (pop_lines s)) = true.
Proof.
  induction s as [|c s IH]; [reflexivity|].
  destruct (Ascii.eqb c newline) eqn:Hc.
  - apply Ascii.eqb_eq in Hc. subst c. now rewrite pop_lines_newline.
  - rewrite (pop_lines_other c) by assumption.
    destruct (fst (pop_lines s)); cbn [snd no_newline]; [|assumption].
    now rewrite Hc, IH.
Qed.

Lemma pop_lines_no_newline s : no_newline s = true -> pop_lines s = ([], s).
Proof.
  induction s as [|c s IH]; [reflexivity|]. cbn [no_newline]. intros H.
  apply andb_prop in H as [Hc Hs]. apply negb_true_iff in Hc.
  rewrite (pop_lines_other c) by assumption. now rewrite (IH Hs).
Qed.

Lemma for_lines_app {S} (body : string -> S -> S * bool) l1 : forall l2 st,
    for_lines body (l1 ++ l2) st
    = if snd (for_lines body l1 st) then (fst (for_lines body l1 st), true)
      else for_lines body l2 (fst (for_lines body l1 st)).
Proof.
  induction l1 as [|line l1 IH]; intros l2 st; [reflexivity|].
  cbn [app for_lines]. destruct (body line st) as [st' [|]]; [reflexivity|]. apply IH.
Qed.

(** The chunks of a stream, put end to end. *)
Fixpoint joined (chunks : list string) : string :=
  match chunks with
  | [] => ""
  | chunk :: rest => chunk ++ joined rest
  end.

End LinesFacts.

(* ===================================================================== *)
(** * Properties of the decoder of [callDeepSeekApiStream] *)
(* ===================================================================== *)

Module AiApiFacts.

Import Lines LinesFacts AiApi.

Section WithCoercion.

Variable ToString : JS.value -> string.

#[local] Abbreviation handle := (AiApi.handle ToString).
#[local] Abbreviation line_body := (AiApi.line_body ToString).
#[local] Abbreviation on_data := (AiApi.on_data ToString).
#[local] Abbreviation on_end := (AiApi.on_end ToString).
#[local] Abbreviation decode := (AiApi.decode ToString).

(** The decoder with another buffer. *)
Definition with_buffer (b : string) (st : Decoder) : Decoder :=
  {| buffer := b; fullResponse := fullResponse st;
     fullReasoningContent := fullReasoningContent st; calls := calls st;
     promise := promise st |}.

Lemma with_buffer_same st : with_buffer (buffer st) st = st.
Proof. now destruct st. Qed.

Lemma with_buffer_twice a b st : with_buffer a (with_buffer b st) = with_buffer a st.
Proof. reflexivity. Qed.

Lemma buffer_with_buffer b st : buffer (with_buffer b st) = b.
Proof. reflexivity. Qed.

Lemma promise_with_buffer b st : promise (with_buffer b st) = promise st.
Proof. reflexivity. Qed.

Lemma settle_with_buffer how b st :
  settle how (with_buffer b st) = with_buffer b (settle how st).
Proof. destruct st as [b0 r g cs [p|]]; reflexivity. Qed.

Lemma resolve_with_buffer b st : resolve (with_buffer b st) = with_buffer b (resolve st).
Proof. unfold resolve. now rewrite settle_with_buffer. Qed.

Lemma handle_with_buffer data b st :
  handle data (with_buffer b st) = with_buffer b (handle data st).
Proof.
  unfold AiApi.handle. destruct (Json.parse data) as [parsed|]; [|reflexivity].
  destruct (delta_of parsed); reflexivity.
Qed.

Lemma line_body_with_buffer line b st :
  line_body line (with_buffer b st)
  = (with_buffer b (fst (line_body line st)), snd (line_body line st)).
Proof.
  unfold AiApi.line_body. destruct (data_of line) as [data|]; [|reflexivity].
  destruct (data =? "[DONE]")%string; cbn [fst snd].
  - now rewrite resolve_with_buffer.
  - now rewrite handle_with_buffer.
Qed.

Lemma for_lines_with_buffer lines : forall b st,
    for_lines line_body lines (with_buffer b st)
    = (with_buffer b (fst (for_lines line_body lines st)),
       snd (for_lines line_body lines st)).
Proof.
  induction lines as [|line lines IH]; intros b st; [reflexivity|].
  cbn [for_lines]. rewrite line_body_with_buffer.
  destruct (line_body line st) as [st' [|]]; cbn [fst snd]; [reflexivity|]. apply IH.
Qed.

(** The buffer is touched by [on_data] only. *)
Lemma buffer_settle how st : buffer (settle how st) = buffer st.
Proof. unfold settle. now destruct (promise st). Qed.

Lemma buffer_handle data st : buffer (handle data st) = buffer st.
Proof.
  unfold AiApi.handle. destruct (Json.parse data) as [parsed|]; [|reflexivity].
  destruct (delta_of parsed); reflexivity.
Qed.

Lemma buffer_for_lines lines : forall st,
    buffer (fst (for_lines line_body lines st)) = buffer st.
Proof.
  induction lines as [|line lines IH]; intros st; [reflexivity|].
  cbn [for_lines]. unfold AiApi.line_body at 1.
  destruct (data_of line) as [data|]; [|apply IH].
  destruct (data =? "[DONE]")%string; cbn [fst].
  - apply buffer_settle.
  - rewrite IH. apply buffer_handle.
Qed.

Lemma on_data_eq chunk st :
  on_data chunk st
  = fst (for_lines line_body (fst (pop_lines (buffer st ++ chunk)))
           (with_buffer (snd (pop_lines (buffer st ++ chunk))) st)).
Proof. unfold AiApi.on_data. now destruct (pop_lines (buffer st ++ chunk)). Qed.

Lemma buffer_on_data chunk st :
  buffer (on_data chunk st) = snd (pop_lines (buffer st ++ chunk)).
Proof. rewrite on_data_eq, buffer_for_lines. reflexivity. Qed.

(** A settled promise stays. *)
Lemma promise_settle_kept how st p : promise st = Some p -> promise (settle how st) = Some p.
Proof. unfold settle. intros H. now rewrite H. Qed.

Lemma promise_settle_some how st : promise (settle how st) <> None.
Proof. unfold settle. destruct (promise st) eqn:E; cbn; congruence. Qed.

Lemma promise_handle data st : promise (handle data st) = promise st.
Proof.
  unfold AiApi.handle. destruct (Json.parse data) as [parsed|]; [|reflexivity].
  destruct (delta_of parsed); reflexivity.
Qed.

Lemma promise_for_lines_kept lines : forall st p,
    promise st = Some p -> promise (fst (for_lines line_body lines st)) = Some p.
Proof.
  induction lines as [|line lines IH]; intros st p Hp; [exact Hp|].
  cbn [for_lines]. unfold AiApi.line_body at 1.
  destruct (data_of line) as [data|]; [|now apply IH].
  destruct (data =? "[DONE]")%string; cbn [fst].
  - now apply promise_settle_kept.
  - apply IH. now rewrite promise_handle.
Qed.

Lemma promise_for_lines_returned lines : forall st,
    snd (for_lines line_body lines st) = true ->
    promise (fst (for_lines line_body lines st)) <> None.
Proof.
  induction lines as [|line lines IH]; intros st; [discriminate|].
  cbn [for_lines]. unfold AiApi.line_body at 1 3.
  destruct (data_of line) as [data|]; [|apply IH].
  destruct (data =? "[DONE]")%string; cbn [fst snd].
  - intros _. apply promise_settle_some.
  - apply IH.
Qed.

Lemma promise_on_data_kept chunk st p :
  promise st = Some p -> promise (on_data chunk st) = Some p.
Proof. intros H. rewrite on_data_eq. now apply promise_for_lines_kept. Qed.

Lemma promise_on_end_kept st p : promise st = Some p -> promise (on_end st) = Some p.
Proof.
  intros H. unfold AiApi.on_end, resolve. apply promise_settle_kept.
  destruct (JS.trim (buffer st) =? "")%string; [exact H|].
  destruct (data_of (buffer st)) as [data|]; [|exact H].
  destruct (data =? "[DONE]")%string; [exact H|]. now rewrite promise_handle.
Qed.

(** Feeding the chunks one after the other. *)
Definition feed (chunks : list string) (st : Decoder) : Decoder :=
  fold_left (fun st chunk => on_data chunk st) chunks st.

Lemma promise_feed_kept chunks : forall st p,
    promise st = Some p -> promise (feed chunks st) = Some p.
Proof.
  induction chunks as [|c cs IH]; intros st p H; [exact H|].
  apply IH. now apply promise_on_data_kept.
Qed.

(** Two decoders that a caller cannot tell apart: the same outcome of the
    promise, and the same decoder while it is pending. *)
Definition alike (a b : Decoder) : Prop :=
  promise a = promise b /\ (promise a = None -> a = b).

Lemma alike_refl a : alike a a.
Proof. split; auto. Qed.

Lemma alike_trans a b c : alike a b -> alike b c -> alike a c.
Proof.
  intros [H1 H2] [H3 H4]. split; [congruence|].
  intros H. rewrite (H2 H). apply H4. congruence.
Qed.

Lemma alike_on_data chunk a b : alike a b -> alike (on_data chunk a) (on_data chunk b).
Proof.
  intros [H1 H2]. destruct (promise a) as [p|] eqn:E.
  - split; [|intros H; rewrite (promise_on_data_kept chunk a p E) in H; discriminate].
    rewrite (promise_on_data_kept chunk a p E).
    symmetry. apply promise_on_data_kept. congruence.
  - rewrite (H2 eq_refl). apply alike_refl.
Qed.

Lemma alike_feed chunks : forall a b, alike a b -> alike (feed chunks a) (feed chunks b).
Proof.
  induction chunks as [|c cs IH]; intros a b H; [exact H|].
  apply IH. now apply alike_on_data.
Qed.

(** A chunk may be cut anywhere. *)
Lemma on_data_app c1 c2 st :
  alike (on_data c2 (on_data c1 st)) (on_data (c1 ++ c2) st).
Proof.
  pose proof (pop_lines_app (buffer st ++ c1) c2) as Happ.
  rewrite (on_data_eq (c1 ++ c2) st).
  replace (buffer st ++ c1 ++ c2) with ((buffer st ++ c1) ++ c2)
    by apply StringFacts.append_assoc.
  rewrite Happ. clear Happ. cbn [fst snd]. rewrite for_lines_app.
  rewrite (on_data_eq c2 (on_data c1 st)), buffer_on_data, (on_data_eq c1 st).
  set (r1 := snd (pop_lines (buffer st ++ c1))).
  set (l1 := fst (pop_lines (buffer st ++ c1))).
  set (r2 := snd (pop_lines (r1 ++ c2))).
  set (l2 := fst (pop_lines (r1 ++ c2))).
  rewrite <- (with_buffer_twice r2 r1 st).
  rewrite (for_lines_with_buffer l1 r2 (with_buffer r1 st)). cbn [fst snd].
  destruct (snd (for_lines line_body l1 (with_buffer r1 st))) eqn:Hret.
  - cbn [fst]. pose proof (promise_for_lines_returned _ _ Hret) as Hp.
    set (t := fst (for_lines line_body l1 (with_buffer r1 st))) in *.
    destruct (promise t) as [p|] eqn:E; [|congruence].
    split.
    + rewrite (promise_for_lines_kept l2 (with_buffer r2 t) p); auto.
    + rewrite (promise_for_lines_kept l2 (with_buffer r2 t) p); auto. discriminate.
  - apply alike_refl.
Qed.

Lemma on_data_nothing st : no_newline (buffer st) = true -> on_data "" st = st.
Proof.
  intros H. rewrite on_data_eq, StringFacts.append_nil_r, (pop_lines_no_newline _ H).
  cbn [fst snd for_lines]. apply with_buffer_same.
Qed.

Lemma feed_joined chunks : forall st,
    no_newline (buffer st) = true ->
    alike (feed chunks st) (on_data (joined chunks) st).
Proof.
  induction chunks as [|c cs IH]; intros st H.
  - cbn [feed fold_left joined]. rewrite (on_data_nothing st H). apply alike_refl.
  - cbn [feed fold_left joined]. fold (feed cs (on_data c st)).
    apply alike_trans with (on_data (joined cs) (on_data c st)).
    + apply IH. rewrite buffer_on_data. apply pop_lines_rest.
    + apply on_data_app.
Qed.

Lemma alike_finish ending a b :
  alike a b ->
  promise (match ending with Ended => on_end a | Errored m => on_error m a end)
  = promise (match ending with Ended => on_end b | Errored m => on_error m b end).
Proof.
  intros [H1 H2]. destruct (promise a) as [p|] eqn:E.
  - symmetry in H1. destruct ending.
    + now rewrite (promise_on_end_kept a p E), (promise_on_end_kept b p H1).
    + unfold on_error. now rewrite (promise_settle_kept _ a p E), (promise_settle_kept _ b p H1).
  - now rewrite (H2 eq_refl).
Qed.

End WithCoercion.

End AiApiFacts.

(* ===================================================================== *)
(** * What the decoder hands to [onChunk] and what it resolves with *)
(* ===================================================================== *)

Module AiApiSums.

Import Lines LinesFacts AiApi AiApiFacts.

Section WithCoercion.

Variable ToString : JS.value -> string.

(** The text a call of [onChunk] adds to the response, and to the
    reasoning. *)
Definition piece (v : JS.value) : string :=
  if JS.truthy v then text_of ToString v else "".

Fixpoint said (cs : list Call) : string :=
  match cs with
  | [] => ""
  | c :: rest => piece (content c) ++ said rest
  end.

Fixpoint thought (cs : list Call) : string :=
  match cs with
  | [] => ""
  | c :: rest => piece (reasoning_content c) ++ thought rest
  end.

(** Every call carries the running totals up to and including itself,
    and has something to tell. *)
Definition sums (cs : list Call) : Prop :=
  forall before call after,
    cs = (before ++ call :: after)%list ->
    full_response call = said (before ++ [call]) /\
    full_reasoning call = thought (before ++ [call]) /\
    JS.truthy (content call) || JS.truthy (reasoning_content call) = true.

Definition tidy (st : Decoder) : Prop :=
  fullResponse st = said (calls st) /\
  fullReasoningContent st = thought (calls st) /\
  sums (calls st) /\
  forall how cs, promise st = Some (how, cs) ->
    exists response reasoning,
      how = Resolved response reasoning /\
      response = said cs /\ reasoning = thought cs /\ sums cs.

Lemma said_snoc cs : forall c, said (cs ++ [c]) = said cs ++ piece (content c).
Proof.
  induction cs as [|x cs IH]; intros c; cbn [said app].
  - now rewrite StringFacts.append_nil_r.
  - now rewrite IH, StringFacts.append_assoc.
Qed.

Lemma thought_snoc cs : forall c,
    thought (cs ++ [c]) = thought cs ++ piece (reasoning_content c).
Proof.
  induction cs as [|x cs IH]; intros c; cbn [thought app].
  - now rewrite StringFacts.append_nil_r.
  - now rewrite IH, StringFacts.append_assoc.
Qed.

Lemma sums_nil : sums [].
Proof. intros [|x before] call after H; discriminate. Qed.

Lemma sums_snoc cs c :
  sums cs ->
  full_response c = said (cs ++ [c]) ->
  full_reasoning c = thought (cs ++ [c]) ->
  JS.truthy (content c) || JS.truthy (reasoning_content c) = true ->
  sums (cs ++ [c]).
Proof.
  intros Hcs Hr Hg Ht before call after E.
  destruct after as [|x after'] using rev_ind.
  - apply app_inj_tail in E as [-> ->]. auto.
  - clear IHafter'.
    change (before ++ call :: after' ++ [x])%list
      with (before ++ (call :: after') ++ [x])%list in E.
    rewrite app_assoc in E. apply app_inj_tail in E as [-> _].
    now apply (Hcs before call after').
Qed.

Lemma tidy_start : tidy start.
Proof.
  split; [reflexivity|]. split; [reflexivity|]. split; [apply sums_nil|].
  intros how cs H. discriminate.
Qed.

Lemma tidy_with_buffer b st : tidy st -> tidy (with_buffer b st).
Proof. intros H. exact H. Qed.

Lemma tidy_handle data st : tidy st -> tidy (handle ToString data st).
Proof.
  intros (Hr & Hg & Hs & Hp). unfold handle.
  destruct (Json.parse data) as [parsed|]; [|now unfold tidy].
  destruct (delta_of parsed) as [delta|]; [|now unfold tidy].
  set (content := or_empty (JS.get delta "content")).
  set (reasoningContent := or_empty (JS.get delta "reasoning_content")).
  unfold tidy. cbn [fullResponse fullReasoningContent calls promise].
  destruct (JS.truthy content) eqn:Ec; destruct (JS.truthy reasoningContent) eqn:Eg;
    cbn [orb].
  - assert (E1 : fullResponse st ++ text_of ToString content
                 = said (calls st ++ [ {| AiApi.content := content;
                      full_response := fullResponse st ++ text_of ToString content;
                      reasoning_content := reasoningContent;
                      full_reasoning := fullReasoningContent st
                                        ++ text_of ToString reasoningContent |} ]))
      by (rewrite said_snoc; cbn [AiApi.content]; unfold piece; now rewrite Ec, Hr).
    assert (E2 : fullReasoningContent st ++ text_of ToString reasoningContent
                 = thought (calls st ++ [ {| AiApi.content := content;
                      full_response := fullResponse st ++ text_of ToString content;
                      reasoning_content := reasoningContent;
                      full_reasoning := fullReasoningContent st
                                        ++ text_of ToString reasoningContent |} ]))
      by (rewrite thought_snoc; cbn [reasoning_content]; unfold piece; now rewrite Eg, Hg).
    split; [exact E1|]. split; [exact E2|]. split; [|exact Hp].
    apply sums_snoc; auto. cbn. now rewrite Ec.
  - assert (E1 : fullResponse st ++ text_of ToString content
                 = said (calls st ++ [ {| AiApi.content := content;
                      full_response := fullResponse st ++ text_of ToString content;
                      reasoning_content := reasoningContent;
                      full_reasoning := fullReasoningContent st |} ]))
      by (rewrite said_snoc; cbn [AiApi.content]; unfold piece; now rewrite Ec, Hr).
    assert (E2 : fullReasoningContent st
                 = thought (calls st ++ [ {| AiApi.content := content;
                      full_response := fullResponse st ++ text_of ToString content;
                      reasoning_content := reasoningContent;
                      full_reasoning := fullReasoningContent st |} ]))
      by (rewrite thought_snoc; cbn [reasoning_content]; unfold piece;
          now rewrite Eg, StringFacts.append_nil_r, Hg).
    split; [exact E1|]. split; [exact E2|]. split; [|exact Hp].
    apply sums_snoc; auto. cbn. now rewrite Ec.
  - assert (E1 : fullResponse st
                 = said (calls st ++ [ {| AiApi.content := content;
                      full_response := fullResponse st;
                      reasoning_content := reasoningContent;
                      full_reasoning := fullReasoningContent st
                                        ++ text_of ToString reasoningContent |} ]))
      by (rewrite said_snoc; cbn [AiApi.content]; unfold piece;
          now rewrite Ec, StringFacts.append_nil_r, Hr).
    assert (E2 : fullReasoningContent st ++ text_of ToString reasoningContent
                 = thought (calls st ++ [ {| AiApi.content := content;
                      full_response := fullResponse st;
                      reasoning_content := reasoningContent;
                      full_reasoning := fullReasoningContent st
                                        ++ text_of ToString reasoningContent |} ]))
      by (rewrite thought_snoc; cbn [reasoning_content]; unfold piece; now rewrite Eg, Hg).
    split; [exact E1|]. split; [exact E2|]. split; [|exact Hp].
    apply sums_snoc; auto. cbn. now rewrite Ec, Eg.
  - now unfold tidy.
Qed.

Lemma tidy_resolve st : tidy st -> tidy (resolve st).
Proof.
  intros H. unfold resolve, settle.
  destruct (promise st) as [p|] eqn:E; [exact H|].
  destruct H as (Hr & Hg & Hs & Hp). unfold tidy. cbn [fullResponse fullReasoningContent calls promise].
  split; [exact Hr|]. split; [exact Hg|]. split; [exact Hs|].
  intros how cs H. inversion H; subst.
  exists (fullResponse st), (fullReasoningContent st). auto.
Qed.

Lemma tidy_for_lines lines : forall st,
    tidy st -> tidy (fst (for_lines (line_body ToString) lines st)).
Proof.
  induction lines as [|line lines IH]; intros st H; [exact H|].
  cbn [for_lines]. unfold line_body at 1.
  destruct (data_of line) as [data|]; [|now apply IH].
  destruct (data =? "[DONE]")%string; cbn [fst].
  - now apply tidy_resolve.
  - apply IH. now apply tidy_handle.
Qed.

Lemma tidy_on_data chunk st : tidy st -> tidy (on_data ToString chunk st).
Proof. intros H. rewrite on_data_eq. apply tidy_for_lines. exact H. Qed.

Lemma tidy_feed chunks : forall st, tidy st -> tidy (feed ToString chunks st).
Proof.
  induction chunks as [|c cs IH]; intros st H; [exact H|].
  apply IH. now apply tidy_on_data.
Qed.

Lemma tidy_on_end st : tidy st -> tidy (on_end ToString st).
Proof.
  intros H. unfold on_end. apply tidy_resolve.
  destruct (JS.trim (buffer st) =? "")%string; [exact H|].
  destruct (data_of (buffer st)) as [data|]; [|exact H].
  destruct (data =? "[DONE]")%string; [exact H|]. now apply tidy_handle.
Qed.

Lemma promise_on_end st : promise (on_end ToString st) <> None.
Proof. unfold on_end, resolve. apply promise_settle_some. Qed.

End WithCoercion.

End AiApiSums.

(* ===================================================================== *)
(** * Properties of the reader of [sendStreamRequest] *)
(* ===================================================================== *)

Module StreamReaderFacts.

Import Lines LinesFacts StreamReader.

Definition with_buffer (b : string) (st : Reader) : Reader :=
  {| buffer := b; events := events st; promise := promise st; returned := returned st |}.

Definition with_returned (r : bool) (st : Reader) : Reader :=
  {| buffer := buffer st; events := events st; promise := promise st; returned := r |}.

Lemma reader_with_buffer_same st : with_buffer (buffer st) st = st.
Proof. now destruct st. Qed.

Lemma with_returned_same st : with_returned (returned st) st = st.
Proof. now destruct st. Qed.

Lemma reader_settle_with_buffer how b st :
  settle how (with_buffer b st) = with_buffer b (settle how st).
Proof. destruct st as [b0 evs [p|] r]; reflexivity. Qed.

Lemma reader_handle_with_buffer data b st :
  handle data (with_buffer b st) = with_buffer b (handle data st).
Proof.
  unfold handle. destruct (Json.parse data) as [event|]; [|reflexivity].
  assert (H : forall how, settle how (emit event (with_buffer b st))
                          = with_buffer b (settle how (emit event st)))
    by (intros how; apply (reader_settle_with_buffer how b (emit event st))).
  assert (H' : forall how e,
             settle how (emit e (emit event (with_buffer b st)))
             = with_buffer b (settle how (emit e (emit event st))))
    by (intros how e; apply (reader_settle_with_buffer how b (emit e (emit event st)))).
  assert (H2 : forall how e,
             settle how (emit e (settle (Resolved (or_empty (JS.get event "full_response"))
                        (JS.get event "full_reasoning") (JS.get event "tool_calls"))
                                   (emit event (with_buffer b st))))
             = with_buffer b
                 (settle how (emit e (settle (Resolved (or_empty (JS.get event "full_response"))
                        (JS.get event "full_reasoning") (JS.get event "tool_calls"))
                                        (emit event st)))))
    by (intros how e; rewrite H;
        apply (reader_settle_with_buffer how b (emit e (settle _ (emit event st))))).
  destruct event; try reflexivity;
    destruct (type_is _ "complete"); destruct (type_is _ "error");
    rewrite ?H2, ?H', ?H; reflexivity.
Qed.

Lemma reader_line_body_with_buffer line b st :
  line_body line (with_buffer b st)
  = (with_buffer b (fst (line_body line st)), snd (line_body line st)).
Proof.
  unfold line_body. destruct (data_of line) as [data|]; [|reflexivity].
  destruct (data =? "[DONE]")%string; cbn [fst snd]; [reflexivity|].
  now rewrite reader_handle_with_buffer.
Qed.

Lemma reader_for_lines_with_buffer lines : forall b st,
    for_lines line_body lines (with_buffer b st)
    = (with_buffer b (fst (for_lines line_body lines st)),
       snd (for_lines line_body lines st)).
Proof.
  induction lines as [|line lines IH]; intros b st; [reflexivity|].
  cbn [for_lines]. rewrite reader_line_body_with_buffer.
  destruct (line_body line st) as [st' [|]]; cbn [fst snd]; [reflexivity|]. apply IH.
Qed.

(** The lines change neither the buffer nor the flag. *)
Lemma frame_settle how st :
  buffer (settle how st) = buffer st /\ returned (settle how st) = returned st /\
  events (settle how st) = events st.
Proof. unfold settle. now destruct (promise st). Qed.

Lemma frame_handle data st :
  buffer (handle data st) = buffer st /\ returned (handle data st) = returned st.
Proof.
  destruct st as [b evs p r]. unfold handle.
  destruct (Json.parse data) as [event|]; [|split; reflexivity].
  destruct event; try (split; reflexivity);
    destruct (type_is _ "complete"); destruct (type_is _ "error"); destruct p;
    split; reflexivity.
Qed.

Lemma frame_for_lines lines : forall st,
    buffer (fst (for_lines line_body lines st)) = buffer st /\
    returned (fst (for_lines line_body lines st)) = returned st.
Proof.
  induction lines as [|line lines IH]; intros st; [auto|].
  cbn [for_lines]. unfold line_body at 1 3.
  destruct (data_of line) as [data|]; [|apply IH].
  destruct (data =? "[DONE]")%string; cbn [fst]; [auto|].
  destruct (IH (handle data st)) as [H1 H2], (frame_handle data st) as [H3 H4].
  split; congruence.
Qed.

Lemma on_chunk_eq chunk st :
  returned st = false ->
  on_chunk chunk st
  = with_returned
      (snd (for_lines line_body (fst (pop_lines (buffer st ++ chunk)))
              (with_buffer (snd (pop_lines (buffer st ++ chunk))) st)))
      (fst (for_lines line_body (fst (pop_lines (buffer st ++ chunk)))
              (with_buffer (snd (pop_lines (buffer st ++ chunk))) st))).
Proof.
  intros H. unfold on_chunk. rewrite H. unfold with_buffer. rewrite H.
  destruct (pop_lines (buffer st ++ chunk)) as [lines rest]. cbn [fst snd].
  now destruct (for_lines line_body lines _).
Qed.

Lemma on_chunk_returned chunk st : returned st = true -> on_chunk chunk st = st.
Proof. intros H. unfold on_chunk. now rewrite H. Qed.

Definition feed (chunks : list string) (st : Reader) : Reader :=
  fold_left (fun st chunk => on_chunk chunk st) chunks st.

(** Two readers that a caller cannot tell apart: the same events and
    promise, and the same reader while it is reading. *)
Definition alike (a b : Reader) : Prop :=
  returned a = returned b /\ events a = events b /\ promise a = promise b /\
  (returned a = false -> a = b).

Lemma reader_alike_refl a : alike a a.
Proof. repeat split; auto. Qed.

Lemma reader_alike_trans a b c : alike a b -> alike b c -> alike a c.
Proof.
  intros (H1 & H2 & H3 & H4) (H5 & H6 & H7 & H8). repeat split; try congruence.
  intros H. rewrite (H4 H). apply H8. congruence.
Qed.

Lemma alike_on_chunk chunk a b : alike a b -> alike (on_chunk chunk a) (on_chunk chunk b).
Proof.
  intros (H1 & H2 & H3 & H4). destruct (returned a) eqn:E.
  - rewrite (on_chunk_returned chunk a E), (on_chunk_returned chunk b) by congruence.
    repeat split; auto; congruence.
  - rewrite (H4 eq_refl). apply reader_alike_refl.
Qed.

Lemma reader_alike_feed chunks : forall a b, alike a b -> alike (feed chunks a) (feed chunks b).
Proof.
  induction chunks as [|c cs IH]; intros a b H; [exact H|].
  apply IH. now apply alike_on_chunk.
Qed.

(** A chunk may be cut anywhere. *)
Lemma on_chunk_app c1 c2 st :
  alike (on_chunk c2 (on_chunk c1 st)) (on_chunk (c1 ++ c2) st).
Proof.
  destruct (returned st) eqn:Hst.
  - repeat rewrite (on_chunk_returned _ st Hst). apply reader_alike_refl.
  - pose proof (pop_lines_app (buffer st ++ c1) c2) as Happ.
    rewrite (on_chunk_eq (c1 ++ c2) st Hst).
    replace (buffer st ++ c1 ++ c2) with ((buffer st ++ c1) ++ c2)
      by apply StringFacts.append_assoc.
    rewrite Happ. clear Happ. cbn [fst snd]. rewrite for_lines_app.
    rewrite (on_chunk_eq c1 st Hst).
    set (r1 := snd (pop_lines (buffer st ++ c1))).
    set (l1 := fst (pop_lines (buffer st ++ c1))).
    set (r2 := snd (pop_lines (r1 ++ c2))).
    set (l2 := fst (pop_lines (r1 ++ c2))).
    replace (with_buffer r2 st) with (with_buffer r2 (with_buffer r1 st)) by reflexivity.
    rewrite (reader_for_lines_with_buffer l1 r2 (with_buffer r1 st)). cbn [fst snd].
    destruct (frame_for_lines l1 (with_buffer r1 st)) as [Hb Hr].
    cbn [with_buffer buffer returned] in Hb, Hr. rewrite Hst in Hr.
    set (t := fst (for_lines line_body l1 (with_buffer r1 st))) in *.
    destruct (snd (for_lines line_body l1 (with_buffer r1 st))) eqn:Hret.
    + rewrite on_chunk_returned by reflexivity. cbn [fst snd].
      repeat split; auto. discriminate.
    + replace (with_returned false t) with t
        by (rewrite <- Hr; symmetry; apply with_returned_same).
      rewrite (on_chunk_eq c2 t Hr), Hb. fold r2 l2. apply reader_alike_refl.
Qed.

Lemma on_chunk_nothing st : no_newline (buffer st) = true -> on_chunk "" st = st.
Proof.
  intros H. destruct (returned st) eqn:E; [now apply on_chunk_returned|].
  rewrite (on_chunk_eq _ _ E), StringFacts.append_nil_r, (pop_lines_no_newline _ H).
  cbn [fst snd for_lines]. rewrite reader_with_buffer_same. rewrite <- E. apply with_returned_same.
Qed.

Lemma no_newline_on_chunk chunk st :
  no_newline (buffer st) = true -> no_newline (buffer (on_chunk chunk st)) = true.
Proof.
  intros H. destruct (returned st) eqn:E; [now rewrite on_chunk_returned|].
  rewrite (on_chunk_eq _ _ E). cbn [with_returned buffer].
  destruct (frame_for_lines (fst (pop_lines (buffer st ++ chunk)))
              (with_buffer (snd (pop_lines (buffer st ++ chunk))) st)) as [Hb _].
  rewrite Hb. apply pop_lines_rest.
Qed.

Lemma reader_feed_joined chunks : forall st,
    no_newline (buffer st) = true ->
    alike (feed chunks st) (on_chunk (joined chunks) st).
Proof.
  induction chunks as [|c cs IH]; intros st H.
  - cbn [feed fold_left joined]. rewrite (on_chunk_nothing st H). apply reader_alike_refl.
  - cbn [feed fold_left joined]. fold (feed cs (on_chunk c st)).
    apply reader_alike_trans with (on_chunk (joined cs) (on_chunk c st)).
    + apply IH. now apply no_newline_on_chunk.
    + apply on_chunk_app.
Qed.

Lemma alike_on_ending ending a b :
  alike a b ->
  events (on_ending ending a) = events (on_ending ending b) /\
  promise (on_ending ending a) = promise (on_ending ending b).
Proof.
  intros (H1 & H2 & H3 & H4). destruct (returned a) eqn:E.
  - unfold on_ending. rewrite E, <- H1. auto.
  - now rewrite (H4 eq_refl).
Qed.

(** ** The events that settle the promise *)

(** What an event does to a pending promise. *)
Definition terminal (event : JS.value) : option Settled :=
  if type_is event "complete" then
    Some (Resolved (or_empty (JS.get event "full_response"))
            (JS.get event "full_reasoning") (JS.get event "tool_calls"))
  else if type_is event "error" then
    Some (RejectedByEvent (if JS.truthy (JS.get event "error") then JS.get event "error"
                           else JS.Str "流式响应错误"))
  else None.

(** The first event that settles the promise decides. *)
Fixpoint verdict (evs : list JS.value) : option Settled :=
  match evs with
  | [] => None
  | event :: rest =>
      match terminal event with
      | Some how => Some how
      | None => verdict rest
      end
  end.

Lemma verdict_snoc evs : forall event,
    verdict (evs ++ [event])
    = match verdict evs with Some how => Some how | None => terminal event end.
Proof.
  induction evs as [|e evs IH]; intros event; cbn [verdict app].
  - now destruct (terminal event).
  - destruct (terminal e); [reflexivity|apply IH].
Qed.

Definition decided (st : Reader) : Prop := promise st = verdict (events st).

Lemma decided_emit event st :
  decided st -> terminal event = None -> decided (emit event st).
Proof.
  destruct st as [b evs p r]. unfold decided. cbn. intros H Ht.
  rewrite verdict_snoc, Ht, <- H. now destruct p.
Qed.

Lemma decided_settle how event st :
  decided st -> terminal event = Some how -> decided (settle how (emit event st)).
Proof.
  destruct st as [b evs p r]. unfold decided. cbn. intros H Ht.
  destruct p; cbn; rewrite verdict_snoc, Ht, <- H; reflexivity.
Qed.

Lemma decided_settle_twice how event second st :
  decided st -> terminal event = Some how ->
  decided (settle how (emit second (emit event st))).
Proof.
  destruct st as [b evs p r]. unfold decided. cbn. intros H Ht.
  destruct p; cbn; rewrite !verdict_snoc, Ht, <- H; reflexivity.
Qed.

Lemma type_is_one event a b : type_is event a = true -> type_is event b = true -> a = b.
Proof.
  unfold type_is. destruct (JS.get event "type"); try discriminate.
  intros Ha Hb. apply String.eqb_eq in Ha, Hb. congruence.
Qed.

Lemma type_is_object event name :
  type_is event name = true -> exists props, event = JS.Obj props.
Proof.
  unfold type_is. destruct event; cbn; try discriminate. eauto.
Qed.

Lemma decided_handle data st : decided st -> decided (handle data st).
Proof.
  intros H. unfold handle. destruct (Json.parse data) as [event|]; [|exact H].
  destruct (type_is event "complete") eqn:Ec.
  - assert (Ee : type_is event "error" = false).
    { destruct (type_is event "error") eqn:Ee; [|reflexivity].
      pose proof (type_is_one _ _ _ Ec Ee). discriminate. }
    destruct (type_is_object _ _ Ec) as [props ->]. cbv beta iota zeta. rewrite ?Ec, ?Ee.
    apply decided_settle; [exact H|]. unfold terminal. now rewrite Ec.
  - destruct (type_is event "error") eqn:Ee.
    + destruct (type_is_object _ _ Ee) as [props ->]. cbv beta iota zeta. rewrite ?Ec, ?Ee.
      apply decided_settle_twice; [exact H|]. unfold terminal. now rewrite Ec, Ee.
    + assert (H1 : decided (emit event st))
        by (apply decided_emit; [exact H|]; unfold terminal; now rewrite Ec, Ee).
      destruct event; cbv beta iota zeta; rewrite ?Ec, ?Ee; exact H1.
Qed.

Lemma decided_for_lines lines : forall st,
    decided st -> decided (fst (for_lines line_body lines st)).
Proof.
  induction lines as [|line lines IH]; intros st H; [exact H|].
  cbn [for_lines]. unfold line_body at 1.
  destruct (data_of line) as [data|]; [|now apply IH].
  destruct (data =? "[DONE]")%string; cbn [fst]; [exact H|].
  apply IH. now apply decided_handle.
Qed.

Lemma decided_on_chunk chunk st : decided st -> decided (on_chunk chunk st).
Proof.
  intros H. destruct (returned st) eqn:E; [now rewrite on_chunk_returned|].
  rewrite (on_chunk_eq _ _ E). unfold decided. cbn [with_returned promise events].
  apply (decided_for_lines _ (with_buffer _ st)). exact H.
Qed.

Lemma decided_feed chunks : forall st, decided st -> decided (feed chunks st).
Proof.
  induction chunks as [|c cs IH]; intros st H; [exact H|].
  apply IH. now apply decided_on_chunk.
Qed.

End StreamReaderFacts.

(* ===================================================================== *)
(** * The stream decoders *)
(* ===================================================================== *)


(** X23 (server/aiApi.cjs, callDeepSeekApiStream).  When the upstream
    response ends without a stream error the promise resolves, and the
    response and the reasoning it resolves with are the truthy content
    and reasoning pieces handed to onChunk before, put end to end; every
    call of onChunk carried the totals up to and including its own piece
    and had a truthy piece to tell. *)
Theorem resolved_response_is_sum_of_chunks :
  forall (ToString : JS.value -> string) (chunks : list string),
  exists response reasoning calls,
    AiApi.promise (AiApi.decode ToString chunks AiApi.Ended)
    = Some (AiApi.Resolved response reasoning, calls) /\
    response = AiApiSums.said ToString calls /\
    reasoning = AiApiSums.thought ToString calls /\
    AiApiSums.sums ToString calls.
Proof.
  intros ToString chunks. unfold AiApi.decode.
  pose proof (AiApiSums.tidy_on_end ToString _
                (AiApiSums.tidy_feed ToString chunks _ (AiApiSums.tidy_start ToString)))
    as (_ & _ & _ & Hp).
  unfold AiApiFacts.feed in Hp.
  pose proof (AiApiSums.promise_on_end ToString
                (fold_left (fun st chunk => AiApi.on_data ToString chunk st) chunks
                   AiApi.start)) as Hsome.
  destruct (AiApi.promise _) as [[how cs]|]; [|congruence].
  destruct (Hp how cs eq_refl) as (response & reasoning & -> & Hr & Hg & Hs).
  exists response, reasoning, cs. auto.
Qed.

(** X24 (src/services/agentService.ts, sendStreamRequest).  The events
    handed to onEvent and the outcome of the promise depend only on the
    text of the response body: cutting it into chunks at other places, or
    not at all, gives the same events and the same outcome, for either
    way the body ends. *)
Theorem reader_ignores_chunk_boundaries :
  forall (chunks : list string) (ending : StreamReader.Ending),
    StreamReader.events (StreamReader.read chunks ending)
    = StreamReader.events (StreamReader.read [LinesFacts.joined chunks] ending) /\
    StreamReader.promise (StreamReader.read chunks ending)
    = StreamReader.promise (StreamReader.read [LinesFacts.joined chunks] ending).
Proof.
  intros chunks ending. unfold StreamReader.read.
  apply StreamReaderFacts.alike_on_ending.
  change (StreamReaderFacts.alike
            (StreamReaderFacts.feed chunks StreamReader.start)
            (StreamReader.on_chunk (LinesFacts.joined chunks) StreamReader.start)).
  apply StreamReaderFacts.reader_feed_joined. reflexivity.
Qed.

